(** * The JSON repair, normalisation and merge pipeline of [src/App.jsx]

    A shallow embedding of the deterministic core of the application
    ([correctJsonSyntax], [extractFieldsFromJson], [formatJsonStructure],
    [flattenObject], [processJsonText], [mergeSelectedEntries]) together with
    the part of the JavaScript run time these functions rely on: strings,
    plain objects as ordered lists of own properties, [Set]s of strings,
    [Array.prototype.sort] on keys and [String.prototype.replace] with the
    regular expressions of the repairer.

    Conventions.  A character of the model is one code unit below 256, a
    string is a [string] of the standard library.  Numbers are never computed
    with by the pipeline (only their type tag is read), they are carried as
    exact decimals.  Own properties are tracked, the prototype chain is
    not.  [JSON.parse], [JSON.stringify] and [eval] are parameters of the
    functions that call them; a reference reader and writer of JSON texts
    stand for them in the examples.  Calls that may throw return a
    [completion], and [try] blocks are written with [try_catch] or as a
    [match] on the completion.  The
    text given to [eval] runs in the scope of the repairer: what it
    leaves in the variable [jsonStr], and whether it returns at all, is
    part of what the evaluator answers. *)

From Stdlib Require Import String Ascii List ZArith NArith Bool Lia.
From Stdlib Require Import Permutation Sorted DecimalString.
Import ListNotations.

Local Open Scope string_scope.
Local Open Scope list_scope.

(** ** JavaScript strings *)

Module JsString.

Definition code (c : ascii) : N := N_of_ascii c.

(** [\s] of a regular expression, which is also what [trim] strips:
    TAB, LF, VT, FF, CR, space and the no-break space. *)
Definition is_space (c : ascii) : bool :=
  let n := code c in
  ((9 <=? n) && (n <=? 13) || (n =? 32) || (n =? 160))%N.

(** [\w]: letters, digits and the underscore. *)
Definition is_word (c : ascii) : bool :=
  let n := code c in
  ((48 <=? n) && (n <=? 57) || (65 <=? n) && (n <=? 90)
   || (97 <=? n) && (n <=? 122) || (n =? 95))%N.

Definition is_digit (c : ascii) : bool :=
  let n := code c in ((48 <=? n) && (n <=? 57))%N.

(** [!text.trim()] *)
Definition is_blank (s : string) : bool :=
  forallb is_space (list_ascii_of_string s).

(** [s.endsWith('.')] *)
Fixpoint endsWith_dot (s : string) : bool :=
  match s with
  | EmptyString => false
  | String c EmptyString => Ascii.eqb c "."
  | String _ r => endsWith_dot r
  end.

(** [s.slice(0, -1)]: everything but the last character. *)
Fixpoint slice_last (s : string) : string :=
  match s with
  | EmptyString => EmptyString
  | String _ EmptyString => EmptyString
  | String c r => String c (slice_last r)
  end.

(** [prefix.endsWith('.') ? prefix.slice(0, -1) : prefix] *)
Definition strip_dot (prefix : string) : string :=
  if endsWith_dot prefix then slice_last prefix else prefix.

(** [s.substring(0, n)]: a negative end counts as 0. *)
Definition substring_to (n : Z) (s : string) : string :=
  substring 0 (Z.to_nat n) s.

(** Decimal rendering of an array index or a count, as a template
    literal produces it. *)
Definition of_nat (n : nat) : string :=
  NilEmpty.string_of_uint (Nat.to_uint n).

Definition of_N (n : N) : string :=
  NilEmpty.string_of_uint (N.to_uint n).

Definition digit_value (c : ascii) : N := (code c - 48)%N.

(** The number written by a string of decimal digits. *)
Definition digits_value (l : list ascii) : N :=
  fold_left (fun acc c => (acc * 10 + digit_value c)%N) l 0%N.

(** A property key that is an array index: the canonical decimal
    rendering of an integer below 2^32 - 1.  Such keys are enumerated
    first, in numeric order. *)
Definition array_index (k : string) : option N :=
  let l := list_ascii_of_string k in
  match l with
  | [] => None
  | _ =>
      if forallb is_digit l then
        let n := digits_value l in
        if (n <? 4294967295)%N && (of_N n =? k) then Some n else None
      else None
  end.

(** A way to write a text that holds double quotes: every backquote of
    [s] stands for a double quote. *)
Fixpoint dq (s : string) : string :=
  match s with
  | EmptyString => EmptyString
  | String c r => String (if Ascii.eqb c "`" then "034"%char else c) (dq r)
  end.

End JsString.

(** ** Sets of strings ([new Set()], [add], [has], [Array.from]) *)

Module JsSet.

Definition has (s : list string) (x : string) : bool :=
  existsb (String.eqb x) s.

(** [s.add(x)]: insertion order is kept, a present value is not added. *)
Definition add (s : list string) (x : string) : list string :=
  if has s x then s else s ++ [x].

Definition add_all (s : list string) (xs : list string) : list string :=
  fold_left add xs s.

(** [s.delete(x)] *)
Definition delete (s : list string) (x : string) : list string :=
  filter (fun y => negb (y =? x)) s.

End JsSet.

(** ** Plain objects: the ordered list of own enumerable properties *)

Module JsObject.

Import JsString.

Definition props (V : Type) : Type := list (string * V).

Section Ops.
Context {V : Type}.

(** [Object.keys(o)] *)
Definition keys (o : props V) : list string := map fst o.

(** [o[k]] on an own property. *)
Fixpoint get (o : props V) (k : string) : option V :=
  match o with
  | [] => None
  | (k', v) :: r => if k' =? k then Some v else get r k
  end.

Definition has (o : props V) (k : string) : bool :=
  existsb (String.eqb k) (keys o).

Fixpoint replace (o : props V) (k : string) (v : V) : props V :=
  match o with
  | [] => []
  | (k', v') :: r =>
      if k' =? k then (k', v) :: r else (k', v') :: replace r k v
  end.

(** A new array-index key goes after the smaller index keys and before
    everything else. *)
Fixpoint insert_index (o : props V) (n : N) (k : string) (v : V)
  : props V :=
  match o with
  | [] => [(k, v)]
  | (k', v') :: r =>
      match array_index k' with
      | Some n' =>
          if (n' <? n)%N then (k', v') :: insert_index r n k v
          else (k, v) :: o
      | None => (k, v) :: o
      end
  end.

(** Creation or update of an own data property, in the enumeration
    order of the language: index keys ascending, then the other keys
    in creation order.  This is what [JSON.parse] does for every
    member of an object. *)
Definition define (o : props V) (k : string) (v : V) : props V :=
  if has o k then replace o k v
  else match array_index k with
       | Some n => insert_index o n k v
       | None => o ++ [(k, v)]
       end.

(** The assignment [o[k] = v] on an object created by [{}]: the key
    [__proto__] reaches the accessor of [Object.prototype] and creates
    no own property. *)
Definition set (o : props V) (k : string) (v : V) : props V :=
  if k =? "__proto__" then o else define o k v.

Definition nonproto (k : string) : bool := negb (k =? "__proto__").

(** [target[key] = source[key]] for a key of [source]. *)
Definition assign_from (source target : props V) (key : string) : props V :=
  match get source key with
  | Some value => set target key value
  | None => target
  end.

(** [ks.forEach(key => { target[key] = source[key] })] on a new object
    [target]. *)
Definition assign_each (source : props V) (ks : list string) : props V :=
  fold_left (assign_from source) ks [].

(** The same keys with the values mapped. *)
Definition map_values (f : V -> V) (o : props V) : props V :=
  map (fun kv => (fst kv, f (snd kv))) o.

End Ops.

(** [Array.prototype.sort()] without comparator on an array of strings:
    ascending by code units. *)
Fixpoint insert_key (k : string) (l : list string) : list string :=
  match l with
  | [] => [k]
  | k' :: r => if (k <=? k')%string then k :: l else k' :: insert_key k r
  end.

Definition sort_keys (l : list string) : list string :=
  fold_right insert_key [] l.

End JsObject.

(** ** JSON values *)

(** A number, kept as the exact decimal [mantissa * 10 ^ exponent]. *)
Record number : Type := Number { mantissa : Z; exponent : Z }.

(** A parsed value.  The members of an object are its own properties in
    the order [Object.keys] lists them; in a value that [JSON.parse]
    returns no key occurs twice. *)
#[local] Unset Elimination Schemes.
Inductive Json : Type :=
| JNull
| JBool (b : bool)
| JNum (n : number)
| JStr (s : string)
| JArr (items : list Json)
| JObj (members : JsObject.props Json).
#[local] Set Elimination Schemes.

(** [typeof v === 'object' && v !== null] *)
Definition is_object (v : Json) : bool :=
  match v with
  | JArr _ | JObj _ => true
  | _ => false
  end.

(** The tag the schema inference records for a value: ['null'], ['array'],
    or [typeof value]. *)
Definition type_tag (v : Json) : string :=
  match v with
  | JNull => "null"
  | JArr _ => "array"
  | JBool _ => "boolean"
  | JNum _ => "number"
  | JStr _ => "string"
  | JObj _ => "object"
  end.

(** Induction over values, with the hypothesis for every element of an
    array and every member of an object. *)
Section JsonInduction.
Variable P : Json -> Prop.
Hypothesis Hnull : P JNull.
Hypothesis Hbool : forall b, P (JBool b).
Hypothesis Hnum : forall n, P (JNum n).
Hypothesis Hstr : forall s, P (JStr s).
Hypothesis Harr : forall items, Forall P items -> P (JArr items).
Hypothesis Hobj :
  forall members, Forall (fun kv => P (snd kv)) members -> P (JObj members).

Fixpoint json_induction (v : Json) : P v :=
  match v with
  | JNull => Hnull
  | JBool b => Hbool b
  | JNum n => Hnum n
  | JStr s => Hstr s
  | JArr items =>
      Harr items
        ((fix all (l : list Json) : Forall P l :=
            match l with
            | [] => Forall_nil _
            | x :: r => Forall_cons x (json_induction x) (all r)
            end) items)
  | JObj members =>
      Hobj members
        ((fix all (l : JsObject.props Json)
            : Forall (fun kv => P (snd kv)) l :=
            match l with
            | [] => Forall_nil _
            | kv :: r =>
                Forall_cons (P := fun kv => P (snd kv)) kv
                  (json_induction (snd kv)) (all r)
            end) members)
  end.

End JsonInduction.

(** ** Processing options (the [processingOptions] state of the component) *)

Record ProcessingOptions : Type := {
  autoFormat : bool;
  detectSchemas : bool;
  flattenNested : bool;
  maxDepth : Z;
  trimLongValues : bool;
  maxValueLength : Z;
  preserveArrays : bool
}.

(** The initial state: [useState({...})]. *)
Definition defaultOptions : ProcessingOptions := {|
  autoFormat := true;
  detectSchemas := true;
  flattenNested := true;
  maxDepth := 3;
  trimLongValues := true;
  maxValueLength := 1000;
  preserveArrays := true
|}.

(** ** The field extractor, the formatter and the flattener *)

Section Core.

Import JsString.

Variable processingOptions : ProcessingOptions.

(** [JSON.stringify(v)] on a JSON value. *)
Variable JSON_stringify : Json -> string.

(** [extractFieldsFromJson(json, prefix = '', depth = 0, maxDepth = 3)].
    The ceiling is the fourth parameter of the function, not the option of
    the same name. *)
Fixpoint extractFieldsFromJson (json : Json) (prefix : string) (depth : Z)
  (maxDepth : Z) {struct json} : list string :=
  if (depth >? maxDepth)%Z then [strip_dot prefix]
  else
    match json with
    | JNull => []
    | JArr items =>
        if preserveArrays processingOptions || (length items =? 0)%nat
        then [strip_dot prefix]
        else
          (* samples = json.slice(0, Math.min(json.length, 3)) *)
          (fix samples (n : nat) (items : list Json)
             (arrayFields : list string) {struct items} : list string :=
             match n, items with
             | S n', item :: rest =>
                 samples n' rest
                   (if is_object item
                    then JsSet.add_all arrayFields
                           (extractFieldsFromJson item prefix (depth + 1)
                              maxDepth)
                    else JsSet.add arrayFields (strip_dot prefix))
             | _, _ => arrayFields
             end) 3%nat items []
    | JObj members =>
        (fix each (members : JsObject.props Json) : list string :=
           match members with
           | [] => []
           | (key, value) :: rest =>
               let fullPath := (prefix ++ key)%string in
               (if is_object value
                then extractFieldsFromJson value (fullPath ++ ".")%string
                       (depth + 1) maxDepth
                else [fullPath]) ++ each rest
           end) members
    | _ => [strip_dot prefix]
    end.

(** The truncation of a long string member. *)
Definition trimValue (value : Json) : Json :=
  match value with
  | JStr s =>
      if trimLongValues processingOptions
         && (Z.of_nat (String.length s) >? maxValueLength processingOptions)%Z
      then JStr (substring_to (maxValueLength processingOptions) s
                 ++ "...")%string
      else value
  | _ => value
  end.

(** [formatJsonStructure(jsonObj)].  The members are formatted first and
    then assigned in the order of the sorted keys; the source formats each
    member when its key comes up, which yields the same object. *)
Fixpoint formatJsonStructure (jsonObj : Json) : Json :=
  match jsonObj with
  | JArr items => JArr (map formatJsonStructure items)
  | JObj members =>
      let formatted :=
        (fix each (members : JsObject.props Json) : JsObject.props Json :=
           match members with
           | [] => []
           | (key, value) :: rest =>
               (key, match value with
                     | JArr _ | JObj _ => formatJsonStructure value
                     | _ => trimValue value
                     end) :: each rest
           end) members in
      JObj (JsObject.assign_each formatted
              (JsObject.sort_keys (JsObject.keys members)))
  | _ => jsonObj
  end.

(** What the formatter stores for a member. *)
Definition formatMember (value : Json) : Json :=
  match value with
  | JArr _ | JObj _ => formatJsonStructure value
  | _ => trimValue value
  end.

(** [flattenObject(obj, prefix = '', result = {}, depth = 0)]; [result] is
    the object the calls write into. *)
Fixpoint flattenObject (obj : Json) (prefix : string)
  (result : JsObject.props Json) (depth : Z) {struct obj}
  : JsObject.props Json :=
  if (depth >? maxDepth processingOptions)%Z
  then JsObject.set result (slice_last prefix) (JStr (JSON_stringify obj))
  else
    match obj with
    | JArr items =>
        if preserveArrays processingOptions
        then JsObject.set result (slice_last prefix) obj
        else
          match items with
          | [] => JsObject.set result (slice_last prefix) (JArr [])
          | first :: _ =>
              if is_object first then
                (fix each (items : list Json) (index : nat)
                   (result : JsObject.props Json) {struct items}
                   : JsObject.props Json :=
                   match items with
                   | [] => result
                   | item :: rest =>
                       each rest (S index)
                         (flattenObject item
                            (prefix ++ of_nat index ++ ".")%string
                            result (depth + 1))
                   end) items 0%nat result
              else JsObject.set result (slice_last prefix) obj
          end
    | JObj members =>
        (fix each (members : JsObject.props Json)
           (result : JsObject.props Json) {struct members}
           : JsObject.props Json :=
           match members with
           | [] => result
           | (key, value) :: rest =>
               let newKey := (prefix ++ key)%string in
               each rest
                 (if is_object value && flattenNested processingOptions
                  then flattenObject value (newKey ++ ".")%string result
                         (depth + 1)
                  else JsObject.set result newKey value)
           end) members result
    | _ => JsObject.set result (slice_last prefix) obj
    end.

End Core.

(** ** The textual rewrites of the repairer

    [text.replace(re, replacement)] with a global regular expression scans
    the text from the left, replaces each match and resumes after it.  A
    matcher gives, for the text at the current position, the replacement
    and the text after the match.  None of the expressions can match
    in two ways at one position ([\s], [\w] and the delimiters are
    disjoint), so each matcher is a function. *)

Module Rewrite.

Import JsString.

Definition matcher : Type :=
  list ascii -> option (list ascii * list ascii).

(** The longest run of characters satisfying [p], and what follows. *)
Fixpoint span (p : ascii -> bool) (l : list ascii)
  : list ascii * list ascii :=
  match l with
  | c :: r =>
      if p c then let (run, rest) := span p r in (c :: run, rest)
      else ([], l)
  | [] => ([], [])
  end.

Fixpoint replace_from (m : matcher) (fuel : nat) (text : list ascii)
  : list ascii :=
  match fuel with
  | O => text
  | S fuel' =>
      match m text with
      | Some (replacement, rest) => replacement ++ replace_from m fuel' rest
      | None =>
          match text with
          | [] => []
          | c :: r => c :: replace_from m fuel' r
          end
      end
  end.

Definition replace_all (m : matcher) (text : string) : string :=
  let l := list_ascii_of_string text in
  string_of_list_ascii (replace_from m (S (length l)) l).

Definition quote : ascii := "034"%char.
Definition backslash : ascii := "\"%char.

(** Fix 1, missing quotes around property names: a brace or a comma,
    white space, a word, white space and a colon; the word is put between
    double quotes, the rest is kept. *)
Definition unquoted_key : matcher := fun text =>
  match text with
  | c :: r =>
      if Ascii.eqb c "{" || Ascii.eqb c "," then
        let (ws1, r1) := span is_space r in
        let (word, r2) := span is_word r1 in
        let (ws2, r3) := span is_space r2 in
        match word, r3 with
        | _ :: _, colon :: rest =>
            if Ascii.eqb colon ":"
            then Some (c :: ws1 ++ quote :: word ++ quote :: ws2 ++ [colon],
                       rest)
            else None
        | _, _ => None
        end
      else None
  | [] => None
  end.

(** Fix 2: every single quote becomes a double quote. *)
Definition single_quote : matcher := fun text =>
  match text with
  | c :: rest => if Ascii.eqb c "'" then Some ([quote], rest) else None
  | [] => None
  end.

(** The shape of fixes 3 and 4: [open], white space, [close], replaced
    by [replacement]. *)
Definition around_spaces (open close : ascii) (replacement : list ascii)
  : matcher := fun text =>
  match text with
  | c :: r =>
      if Ascii.eqb c open then
        match snd (span is_space r) with
        | c' :: rest =>
            if Ascii.eqb c' close then Some (replacement, rest) else None
        | [] => None
        end
      else None
  | [] => None
  end.

(** Fix 3, missing commas between objects: a closing brace, white space
    and an opening brace become ['}, {']. *)
Definition adjacent_objects : matcher :=
  around_spaces "}" "{" (list_ascii_of_string "}, {").

(** Fix 4, trailing commas: a comma and white space before a closing
    brace are dropped, then the same before a closing bracket. *)
Definition trailing_comma_object : matcher := around_spaces "," "}" ["}"%char].
Definition trailing_comma_array : matcher := around_spaces "," "]" ["]"%char].

(** The characters that make a backslash an escape for fix 5: the double
    quote, the backslash, the slash and the letters b f n r t u. *)
Definition escape_letter (c : ascii) : bool :=
  existsb (Ascii.eqb c) (quote :: list_ascii_of_string "\/bfnrtu").

(** Fix 5, unescaped backslashes: a character other than a backslash, a
    backslash and a character that is no escape letter; the backslash is
    doubled. *)
Definition lone_backslash : matcher := fun text =>
  match text with
  | c1 :: b :: c2 :: rest =>
      if negb (Ascii.eqb c1 backslash) && Ascii.eqb b backslash
         && negb (escape_letter c2)
      then Some ([c1; backslash; backslash; c2], rest)
      else None
  | _ => None
  end.

(** The five fixes in the order of the source. *)
Definition apply_fixes (jsonStr : string) : string :=
  let corrected := jsonStr in
  let corrected := replace_all unquoted_key corrected in
  let corrected := replace_all single_quote corrected in
  let corrected := replace_all adjacent_objects corrected in
  let corrected := replace_all trailing_comma_object corrected in
  let corrected := replace_all trailing_comma_array corrected in
  let corrected := replace_all lone_backslash corrected in
  corrected.

End Rewrite.

(** ** The syntax repairer *)

(** What a call that may throw completes with: its value, or the message
    of the exception. *)
Inductive completion (A : Type) : Type :=
| Returns (a : A)
| Throws (message : string).
Arguments Returns {A} a.
Arguments Throws {A} message.

Definition bind {A B : Type} (c : completion A) (k : A -> completion B)
  : completion B :=
  match c with
  | Returns a => k a
  | Throws message => Throws message
  end.

(** [try { body } catch (e) { handler }] with [e.message] for [e]. *)
Definition try_catch {A : Type} (body : completion A)
  (handler : string -> completion A) : completion A :=
  match body with
  | Returns a => Returns a
  | Throws message => handler message
  end.

Notation "x <- c ;; k" := (bind c (fun x => k))
  (at level 61, c at next level, right associativity).

(** A value the variable [jsonStr], the property [corrected] and the
    property [correctedJson] can hold: a string, [undefined], or another
    value.  Of another value the pipeline asks one thing, [String(v)],
    the conversion [JSON.parse] makes of its argument: it returns a text
    or throws, or, where it runs a method that the evaluated text
    defined, never returns ([None]). *)
Inductive Held : Type :=
| Text (s : string)
| Undefined
| Other (printed : option (completion string)).

(** [String(held)] *)
Definition printed_of (held : Held) : option (completion string) :=
  match held with
  | Text s => Some (Returns s)
  | Undefined => Some (Returns "undefined")
  | Other printed => printed
  end.

(** What [JSON.stringify] returns: a text, or [undefined] for a value
    that has no JSON text. *)
Definition of_serialised (text : option string) : Held :=
  match text with
  | Some t => Text t
  | None => Undefined
  end.

(** What a call that runs code of the evaluated text comes to.  It
    returns or throws, and [jsonStr] then holds a value: the [eval] of
    the source is a direct one, its text runs in the scope of
    [correctJsonSyntax] and can assign to the parameter.  Or it never
    returns. *)
Inductive evaluation (A : Type) : Type :=
| Ends (c : completion A) (jsonStr : Held)
| Hangs.
Arguments Ends {A} c jsonStr.
Arguments Hangs {A}.

(** The object [correctJsonSyntax] returns; [error] is [None] when the
    property is absent. *)
Record Correction : Type := {
  corrected : Held;
  error : option string
}.

(** [String(v)] of a string or [undefined]. *)
Definition text_of (corrected : option string) : string :=
  match corrected with
  | Some text => text
  | None => "undefined"
  end.

Definition aggressiveNote : string :=
  "Used aggressive correction. Verify the result!".

(** The flag of the repair contract: the result comes from the
    evaluator. *)
Definition usedAggressiveRepair (r : Correction) : bool :=
  match error r with
  | Some note => note =? aggressiveNote
  | None => false
  end.

(** The record of the last [catch]: what [jsonStr] holds by then, and
    the message of the first parse failure. *)
Definition gaveUp (jsonStr : Held) (errorMessage : string) : Correction :=
  {| corrected := jsonStr;
     error := Some ("Could not fix JSON. Original error: "
                    ++ errorMessage)%string |}.

Section Repair.

(** [JSON.parse(text)]: the value, or the message of the [SyntaxError]. *)
Variable JSON_parse : string -> completion Json.

(** The values [eval] can produce; [eval(code)] and [JSON.stringify] on
    such a value ([Returns None] is [undefined]), each run with [jsonStr]
    holding the last argument.  Both run code of the evaluated text,
    [JSON.stringify] through the getters and [toJSON] methods of the
    value.  What such code can do to [correctJsonSyntax] is modelled:
    assign to [jsonStr], throw, not return; it is taken to leave the
    built-in objects and the state of the component as they are. *)
Variable Evaluated : Type.
Variable js_eval : string -> Held -> evaluation Evaluated.
Variable JSON_stringify_any : Evaluated -> Held -> evaluation (option string).

(** [correctJsonSyntax(jsonStr)]: [None] when the call never returns.
    The three [try] blocks are the three [match]es on a completion, the
    [Throws] branch of each being its [catch]. *)
Definition correctJsonSyntax (jsonStr : string)
  : option (completion Correction) :=
  match JSON_parse jsonStr with
  | Returns _ => Some (Returns {| corrected := Text jsonStr; error := None |})
  | Throws errorMessage =>
      let corrected := Rewrite.apply_fixes jsonStr in
      match JSON_parse corrected with
      | Returns _ =>
          Some (Returns {| corrected := Text corrected; error := None |})
      | Throws _ =>
          match js_eval ("(" ++ jsonStr ++ ")")%string (Text jsonStr) with
          | Ends (Returns obj) jsonStr' =>
              match JSON_stringify_any obj jsonStr' with
              | Ends (Returns text) _ =>
                  Some (Returns {| corrected := of_serialised text;
                                   error := Some aggressiveNote |})
              | Ends (Throws _) jsonStr'' =>
                  Some (Returns (gaveUp jsonStr'' errorMessage))
              | Hangs => None
              end
          | Ends (Throws _) jsonStr' =>
              Some (Returns (gaveUp jsonStr' errorMessage))
          | Hangs => None
          end
      end
  end.

(** The four results the repairer has, one for each way through its
    nested [try] blocks. *)
Inductive RepairResult (jsonStr : string) : Correction -> Prop :=
| ResultUnchanged :
    RepairResult jsonStr {| corrected := Text jsonStr; error := None |}
| ResultRewritten :
    RepairResult jsonStr
      {| corrected := Text (Rewrite.apply_fixes jsonStr); error := None |}
| ResultEvaluated text :
    RepairResult jsonStr
      {| corrected := of_serialised text; error := Some aggressiveNote |}
| ResultGivenUp jsonStr' errorMessage :
    RepairResult jsonStr (gaveUp jsonStr' errorMessage).

(** The third stage throws, in the evaluation or in the serialisation,
    and [jsonStr] then holds [jsonStr']. *)
Definition evaluator_throws (jsonStr : string) (jsonStr' : Held) : Prop :=
  (exists e,
      js_eval ("(" ++ jsonStr ++ ")")%string (Text jsonStr)
      = Ends (Throws e) jsonStr')
  \/ (exists obj held e,
        js_eval ("(" ++ jsonStr ++ ")")%string (Text jsonStr)
        = Ends (Returns obj) held
        /\ JSON_stringify_any obj held = Ends (Throws e) jsonStr').

(** The third stage never returns. *)
Definition evaluator_hangs (jsonStr : string) : Prop :=
  js_eval ("(" ++ jsonStr ++ ")")%string (Text jsonStr) = Hangs
  \/ (exists obj held,
        js_eval ("(" ++ jsonStr ++ ")")%string (Text jsonStr)
        = Ends (Returns obj) held
        /\ JSON_stringify_any obj held = Hangs).

End Repair.

(** ** Entries, records and datasets *)

Inductive EntryStatus : Type :=
| StatusProcessed
| StatusError
| StatusWarning.

(** [interface JsonEntry] *)
Module Entry.
Record t : Type := {
  id : string;
  fileName : string;
  originalJson : string;
  correctedJson : Held;
  formattedJson : string;
  error : option string;
  fields : list string;
  status : EntryStatus;
  timestamp : string
}.
End Entry.

(** An element of [records]: an object that can take the two metadata
    properties.  It is a plain object, or an array (a top-level array of
    arrays merged without flattening) with its named properties. *)
Inductive JsRecord : Type :=
| PlainRecord (members : JsObject.props Json)
| ArrayRecord (items : list Json) (named : JsObject.props Json).

Module Rec.

Import JsString.

(** The object a value is, for an assignment to its property [name];
    on [null] and on a primitive the assignment throws a [TypeError]
    (the code of a module is strict). *)
Definition of_value (v : Json) (name : string) : completion JsRecord :=
  match v with
  | JObj members => Returns (PlainRecord members)
  | JArr items => Returns (ArrayRecord items [])
  | JNull =>
      Throws ("Cannot set properties of null (setting '" ++ name ++ "')")%string
  | _ =>
      Throws ("Cannot create property '" ++ name ++ "' on a primitive")%string
  end.

(** [record[name] = v] for a [name] that is neither an array index nor
    [length]. *)
Definition assign (r : JsRecord) (name : string) (v : Json) : JsRecord :=
  match r with
  | PlainRecord members => PlainRecord (JsObject.set members name v)
  | ArrayRecord items named => ArrayRecord items (JsObject.set named name v)
  end.

(** The elements of an array as properties: the index keys in order. *)
Definition indexed (items : list Json) : JsObject.props Json :=
  combine (map of_nat (seq 0 (length items))) items.

(** [Object.keys(record)]: for an array, the indices and then the named
    properties; [length] is not enumerable. *)
Definition keys (r : JsRecord) : list string :=
  match r with
  | PlainRecord members => JsObject.keys members
  | ArrayRecord items named =>
      JsObject.keys (indexed items) ++ JsObject.keys named
  end.

(** The own properties [key in record] and [record[key]] look at. *)
Definition own (r : JsRecord) : JsObject.props Json :=
  match r with
  | PlainRecord members => members
  | ArrayRecord items named =>
      indexed items
      ++ ("length", JNum (Number (Z.of_nat (length items)) 0)) :: named
  end.

(** [record[key]] guarded by [key in record]: [None] when the record has
    no such property. *)
Definition get (r : JsRecord) (key : string) : option Json :=
  JsObject.get (own r) key.

End Rec.

(** [interface MergedDataset] *)
Module Dataset.
Record t : Type := {
  id : string;
  name : string;
  records : list JsRecord;
  fields : list string;
  schema : JsObject.props string;
  timestamp : string
}.
End Dataset.

(** A value in a condition: a string counts as true when it is not
    empty, an absent one counts as false. *)
Definition truthy (s : option string) : bool :=
  match s with
  | Some text => negb (text =? "")
  | None => false
  end.

(** ** Schema inference (the second half of [mergeSelectedEntries]) *)

Module Schema.

(** [allKeys]: the keys of all records, in order of first appearance. *)
Definition allKeys (records : list JsRecord) : list string :=
  fold_left (fun allKeys record => JsSet.add_all allKeys (Rec.keys record))
    records [].

(** [types]: the tags observed for [key] over the records that have it.
    [key in record] and [record[key]] are read on the own properties of
    a record; a property that a record only inherits under the name is
    not seen. *)
Definition types (records : list JsRecord) (key : string) : list string :=
  fold_left
    (fun types record =>
       match Rec.get record key with
       | Some value => JsSet.add types (type_tag value)
       | None => types
       end)
    records [].

(** The tag assigned from the observed ones. *)
Definition assigned (types : list string) : string :=
  match types with
  | [] => "unknown"
  | [only] => only
  | _ =>
      if JsSet.has types "string" then "string"
      else if JsSet.has types "number" then "number"
      else "mixed"
  end.

Definition infer (records : list JsRecord) : JsObject.props string :=
  fold_left
    (fun schema key => JsObject.set schema key (assigned (types records key)))
    (allKeys records) [].

End Schema.

(** ** The pipeline: [processJsonText] and [mergeSelectedEntries] *)

(** What a merge leaves behind: a message passed to [setError] and no
    dataset, or the dataset together with the ids of the entries whose
    processing was reported by [console.error]. *)
Inductive MergeOutcome : Type :=
| MergeRefused (message : string)
| Merged (dataset : Dataset.t) (logged : list string).

Section Pipeline.

Variable processingOptions : ProcessingOptions.
Variable JSON_parse : string -> completion Json.
Variable JSON_stringify : Json -> string.

(** [JSON.stringify(v, null, 2)] *)
Variable JSON_stringify_indented : Json -> string.

Variable Evaluated : Type.
Variable js_eval : string -> Held -> evaluation Evaluated.
Variable JSON_stringify_any : Evaluated -> Held -> evaluation (option string).

(** [JSON.parse(corrected)]: the argument is converted to a string
    first; [None] when the conversion never returns. *)
Definition parse_held (corrected : Held) : option (completion Json) :=
  match printed_of corrected with
  | Some printed => Some (text <- printed ;; JSON_parse text)
  | None => None
  end.

(** The entry [processJsonText(text, fileName, queueItemId)] puts in front
    of [processedEntries]; [None] when it stores none: a blank text is
    refused, and a call in which the evaluated text never returns stays
    pending.  [generatedId] and [now] stand for the identifier made from
    the clock and the random generator and for
    [new Date().toISOString()]. *)
Definition processJsonText (text fileName : string)
  (queueItemId : option string) (generatedId now : string)
  : option Entry.t :=
  if JsString.is_blank text then None
  else
    let id := if truthy queueItemId then text_of queueItemId
              else generatedId in
    let entry (correction : Correction) (parsedJson : Json) : Entry.t :=
      let formattedJson :=
        if autoFormat processingOptions
        then formatJsonStructure processingOptions parsedJson
        else parsedJson in
      let fields :=
        extractFieldsFromJson processingOptions formattedJson "" 0 3 in
      {| Entry.id := id;
         Entry.fileName := fileName;
         Entry.originalJson := text;
         Entry.correctedJson := corrected correction;
         Entry.formattedJson := JSON_stringify_indented formattedJson;
         Entry.error := error correction;
         Entry.fields := fields;
         Entry.status := if truthy (error correction)
                         then StatusWarning else StatusProcessed;
         Entry.timestamp := now |} in
    let errorEntry (errorMessage : string) : Entry.t :=
      {| Entry.id := id;
         Entry.fileName := fileName;
         Entry.originalJson := text;
         Entry.correctedJson := Text text;
         Entry.formattedJson := text;
         Entry.error := Some errorMessage;
         Entry.fields := [];
         Entry.status := StatusError;
         Entry.timestamp := now |} in
    let attempt : option (completion Entry.t) :=
      match
        correctJsonSyntax JSON_parse Evaluated js_eval JSON_stringify_any
          text
      with
      | Some (Returns correction) =>
          match parse_held (corrected correction) with
          | Some parsed =>
              Some
                (parsedJson <-
                   try_catch parsed
                     (fun parseError =>
                        Throws
                          ("Failed to parse JSON: " ++ parseError)%string) ;;
                 Returns (entry correction parsedJson))
          | None => None
          end
      | Some (Throws e) => Some (Throws e)
      | None => None
      end in
    match attempt with
    | Some (Returns stored) => Some stored
    | Some (Throws errorMessage) => Some (errorEntry errorMessage)
    | None => None
    end.

(** One element or one document turned into a record: flattened, or taken
    as it is, then given its source metadata. *)
Definition toRecord (entry : Entry.t) (item : Json) : completion JsRecord :=
  record <-
    (if flattenNested processingOptions
     then Returns
            (PlainRecord
               (flattenObject processingOptions JSON_stringify item "" [] 0))
     else Rec.of_value item "_source") ;;
  let record := Rec.assign record "_source" (JStr (Entry.fileName entry)) in
  let record :=
    Rec.assign record "_timestamp" (JStr (Entry.timestamp entry)) in
  Returns record.

(** [parsedJson.forEach(item => ...)] on the array [records]: the records
    pushed stay when an element throws, which ends the loop. *)
Fixpoint pushItems (entry : Entry.t) (items : list Json)
  (records : list JsRecord) : list JsRecord * completion unit :=
  match items with
  | [] => (records, Returns tt)
  | item :: rest =>
      match toRecord entry item with
      | Returns record => pushItems entry rest (records ++ [record])
      | Throws e => (records, Throws e)
      end
  end.

(** The body of [entriesToMerge.forEach]: the [try] block and its
    [catch], which reports the entry, on the records and the log so
    far. *)
Definition mergeEntry (state : list JsRecord * list string)
  (entry : Entry.t) : list JsRecord * list string :=
  let (records, logged) := state in
  let (records, block) :=
    match JSON_parse (Entry.formattedJson entry) with
    | Returns (JArr items) => pushItems entry items records
    | Returns parsedJson => pushItems entry [parsedJson] records
    | Throws e => (records, Throws e)
    end in
  match block with
  | Returns _ => (records, logged)
  | Throws _ => (records, logged ++ [Entry.id entry])
  end.

Definition isSelected (selectedEntries : list string) (entry : Entry.t)
  : bool :=
  JsSet.has selectedEntries (Entry.id entry)
  && match Entry.status entry with StatusError => false | _ => true end.

(** [mergeSelectedEntries()] on the state [selectedEntries] (a set of
    ids) and [processedEntries]. *)
Definition mergeSelectedEntries (selectedEntries : list string)
  (processedEntries : list Entry.t) (generatedId now : string)
  : MergeOutcome :=
  match selectedEntries with
  | [] => MergeRefused "Please select entries to merge"
  | _ =>
      let entriesToMerge :=
        filter (isSelected selectedEntries) processedEntries in
      match entriesToMerge with
      | [] => MergeRefused "No valid entries selected for merging"
      | _ =>
          let allFields :=
            fold_left
              (fun allFields entry =>
                 JsSet.add_all allFields (Entry.fields entry))
              entriesToMerge [] in
          let (records, logged) :=
            fold_left mergeEntry entriesToMerge ([], []) in
          let schema :=
            if detectSchemas processingOptions
               && negb (length records =? 0)%nat
            then Schema.infer records else [] in
          Merged
            {| Dataset.id := generatedId;
               Dataset.name :=
                 ("Dataset from "
                  ++ JsString.of_nat (length entriesToMerge)
                  ++ " files")%string;
               Dataset.records := records;
               Dataset.fields := allFields;
               Dataset.schema := schema;
               Dataset.timestamp := now |}
            logged
      end
  end.

End Pipeline.

(** ** A reference reader for JSON texts

    An implementation of the JSON grammar on the strings of the model, to
    run the pipeline on concrete texts.  Members are created with
    [JsObject.define], so a repeated key keeps its last value and index
    keys come first. *)

Module Reader.

Import JsString.

Definition is_json_space (c : ascii) : bool :=
  let n := code c in ((n =? 32) || (n =? 9) || (n =? 10) || (n =? 13))%N.

Fixpoint skip_ws (l : list ascii) : list ascii :=
  match l with
  | c :: r => if is_json_space c then skip_ws r else l
  | [] => []
  end.

Definition hex_value (c : ascii) : option N :=
  let n := code c in
  if ((48 <=? n) && (n <=? 57))%N then Some (n - 48)%N
  else if ((65 <=? n) && (n <=? 70))%N then Some (n - 55)%N
  else if ((97 <=? n) && (n <=? 102))%N then Some (n - 87)%N
  else None.

(** The character of a four-digit escape; an escape for a character the
    model does not have is refused. *)
Definition unicode_escape (h1 h2 h3 h4 : ascii) : option ascii :=
  match hex_value h1, hex_value h2, hex_value h3, hex_value h4 with
  | Some a, Some b, Some c, Some d =>
      let n := (((a * 16 + b) * 16 + c) * 16 + d)%N in
      if (n <? 256)%N then Some (ascii_of_N n) else None
  | _, _, _, _ => None
  end.

Definition simple_escape (c : ascii) : option ascii :=
  if Ascii.eqb c Rewrite.quote then Some Rewrite.quote
  else if Ascii.eqb c "\" then Some "\"%char
  else if Ascii.eqb c "/" then Some "/"%char
  else if Ascii.eqb c "b" then Some "008"%char
  else if Ascii.eqb c "f" then Some "012"%char
  else if Ascii.eqb c "n" then Some "010"%char
  else if Ascii.eqb c "r" then Some "013"%char
  else if Ascii.eqb c "t" then Some "009"%char
  else None.

(** The characters of a string after its opening quote, and the text
    after its closing quote. *)
Fixpoint read_string (fuel : nat) (l : list ascii)
  : option (string * list ascii) :=
  match fuel with
  | O => None
  | S fuel' =>
      match l with
      | [] => None
      | c :: r =>
          if Ascii.eqb c Rewrite.quote then Some (EmptyString, r)
          else if Ascii.eqb c "\" then
            match r with
            | e :: r' =>
                if Ascii.eqb e "u" then
                  match r' with
                  | h1 :: h2 :: h3 :: h4 :: r'' =>
                      match unicode_escape h1 h2 h3 h4,
                            read_string fuel' r'' with
                      | Some x, Some (s, rest) => Some (String x s, rest)
                      | _, _ => None
                      end
                  | _ => None
                  end
                else
                  match simple_escape e, read_string fuel' r' with
                  | Some x, Some (s, rest) => Some (String x s, rest)
                  | _, _ => None
                  end
            | [] => None
            end
          else if (code c <? 32)%N then None
          else
            match read_string fuel' r with
            | Some (s, rest) => Some (String c s, rest)
            | None => None
            end
      end
  end.

(** The decimal [m * 10 ^ e] with an exponent that is 0 for an integer
    and as close to 0 as possible otherwise. *)
Fixpoint reduce (fuel : nat) (m e : Z) : number :=
  match fuel with
  | O => Number m e
  | S fuel' =>
      if (e <? 0)%Z && (m mod 10 =? 0)%Z
      then reduce fuel' (m / 10)%Z (e + 1)%Z
      else Number m e
  end.

Definition decimal (m e : Z) : number :=
  if (m =? 0)%Z then Number 0 0
  else if (0 <=? e)%Z then Number (m * 10 ^ e) 0
  else reduce (Z.to_nat (- e)) m e.

(** [-? int frac? exp?] *)
Definition read_number (l : list ascii) : option (number * list ascii) :=
  let (negative, l1) :=
    match l with
    | c :: r => if Ascii.eqb c "-" then (true, r) else (false, l)
    | [] => (false, l)
    end in
  let (int, l2) := Rewrite.span is_digit l1 in
  let int_ok :=
    match int with
    | [] => false
    | [_] => true
    | c :: _ => negb (Ascii.eqb c "0")
    end in
  let '(frac, frac_ok, l3) :=
    match l2 with
    | c :: r =>
        if Ascii.eqb c "." then
          let (digits, rest) := Rewrite.span is_digit r in
          (digits, negb (length digits =? 0)%nat, rest)
        else ([], true, l2)
    | [] => ([], true, l2)
    end in
  let '(exp, exp_ok, l4) :=
    match l3 with
    | c :: r =>
        if Ascii.eqb c "e" || Ascii.eqb c "E" then
          let (minus, r1) :=
            match r with
            | s :: r' =>
                if Ascii.eqb s "-" then (true, r')
                else if Ascii.eqb s "+" then (false, r')
                else (false, r)
            | [] => (false, r)
            end in
          let (digits, rest) := Rewrite.span is_digit r1 in
          let n := Z.of_N (digits_value digits) in
          ((if minus then - n else n)%Z, negb (length digits =? 0)%nat, rest)
        else (0%Z, true, l3)
    | [] => (0%Z, true, l3)
    end in
  if int_ok && frac_ok && exp_ok then
    let m := Z.of_N (digits_value (int ++ frac)) in
    Some (decimal (if negative then - m else m)%Z
            (exp - Z.of_nat (length frac))%Z, l4)
  else None.

Definition keyword (word : string) (l : list ascii)
  : option (list ascii) :=
  let w := list_ascii_of_string word in
  if list_eq_dec ascii_dec (firstn (length w) l) w
  then Some (skipn (length w) l) else None.

Fixpoint read_value (fuel : nat) (l : list ascii) {struct fuel}
  : option (Json * list ascii) :=
  match fuel with
  | O => None
  | S fuel' =>
      match skip_ws l with
      | [] => None
      | c :: r =>
          if Ascii.eqb c Rewrite.quote then
            match read_string (S (length r)) r with
            | Some (s, rest) => Some (JStr s, rest)
            | None => None
            end
          else if Ascii.eqb c "[" then
            match skip_ws r with
            | c' :: r' =>
                if Ascii.eqb c' "]" then Some (JArr [], r')
                else read_elements fuel' r []
            | [] => None
            end
          else if Ascii.eqb c "{" then
            match skip_ws r with
            | c' :: r' =>
                if Ascii.eqb c' "}" then Some (JObj [], r')
                else read_members fuel' r []
            | [] => None
            end
          else if Ascii.eqb c "-" || is_digit c then
            match read_number (c :: r) with
            | Some (n, rest) => Some (JNum n, rest)
            | None => None
            end
          else
            match keyword "null" (c :: r), keyword "true" (c :: r),
                  keyword "false" (c :: r) with
            | Some rest, _, _ => Some (JNull, rest)
            | _, Some rest, _ => Some (JBool true, rest)
            | _, _, Some rest => Some (JBool false, rest)
            | _, _, _ => None
            end
      end
  end

with read_elements (fuel : nat) (l : list ascii) (items : list Json)
  {struct fuel} : option (Json * list ascii) :=
  match fuel with
  | O => None
  | S fuel' =>
      match read_value fuel' l with
      | Some (item, rest) =>
          match skip_ws rest with
          | c :: r =>
              if Ascii.eqb c "," then read_elements fuel' r (items ++ [item])
              else if Ascii.eqb c "]" then Some (JArr (items ++ [item]), r)
              else None
          | [] => None
          end
      | None => None
      end
  end

with read_members (fuel : nat) (l : list ascii)
  (members : JsObject.props Json) {struct fuel}
  : option (Json * list ascii) :=
  match fuel with
  | O => None
  | S fuel' =>
      match skip_ws l with
      | q :: r =>
          if Ascii.eqb q Rewrite.quote then
            match read_string (S (length r)) r with
            | Some (key, rest) =>
                match skip_ws rest with
                | colon :: r1 =>
                    if Ascii.eqb colon ":" then
                      match read_value fuel' r1 with
                      | Some (value, rest') =>
                          let members :=
                            JsObject.define members key value in
                          match skip_ws rest' with
                          | c :: r2 =>
                              if Ascii.eqb c ","
                              then read_members fuel' r2 members
                              else if Ascii.eqb c "}"
                              then Some (JObj members, r2)
                              else None
                          | [] => None
                          end
                      | None => None
                      end
                    else None
                | [] => None
                end
            | None => None
            end
          else None
      | [] => None
      end
  end.

(** A whole text: one value between optional white space. *)
Definition JSON_parse (text : string) : completion Json :=
  let l := list_ascii_of_string text in
  match read_value (2 * length l + 2) l with
  | Some (value, rest) =>
      match skip_ws rest with
      | [] => Returns value
      | _ :: _ => Throws "Unexpected non-whitespace character after JSON"
      end
  | None => Throws "Unexpected token in JSON"
  end.

End Reader.

(** ** A reference writer for JSON texts

    [JSON.stringify(v)] on a JSON value, with numbers in positional
    notation. *)

Module Writer.

Import JsString.

Definition hex_digit (n : N) : ascii :=
  if (n <? 10)%N then ascii_of_N (48 + n) else ascii_of_N (87 + n).

Definition escape (c : ascii) : string :=
  let n := code c in
  if Ascii.eqb c Rewrite.quote then String "\" (String Rewrite.quote "")
  else if Ascii.eqb c "\" then "\\"
  else if (n =? 8)%N then "\b"
  else if (n =? 12)%N then "\f"
  else if (n =? 10)%N then "\n"
  else if (n =? 13)%N then "\r"
  else if (n =? 9)%N then "\t"
  else if (n <? 32)%N then
    ("\u00"
     ++ String (hex_digit (n / 16)) (String (hex_digit (n mod 16)) ""))%string
  else String c "".

Fixpoint escape_all (s : string) : string :=
  match s with
  | EmptyString => EmptyString
  | String c r => (escape c ++ escape_all r)%string
  end.

Definition write_string (s : string) : string :=
  String Rewrite.quote (escape_all s ++ String Rewrite.quote "")%string.

Definition write_number (n : number) : string :=
  let m := mantissa n in
  let sign := if (m <? 0)%Z then "-" else "" in
  let digits := of_N (Z.abs_N m) in
  let places := Z.to_nat (- exponent n) in
  match places with
  | O => (sign ++ digits)%string
  | _ =>
      let zeros := repeat "0"%char (S places - String.length digits) in
      let padded := (string_of_list_ascii zeros ++ digits)%string in
      let whole := String.length padded - places in
      (sign ++ substring 0 whole padded ++ "."
       ++ substring whole places padded)%string
  end.

Fixpoint JSON_stringify (v : Json) : string :=
  match v with
  | JNull => "null"
  | JBool true => "true"
  | JBool false => "false"
  | JNum n => write_number n
  | JStr s => write_string s
  | JArr items =>
      ("["
       ++ (fix each (items : list Json) : string :=
             match items with
             | [] => ""
             | [item] => JSON_stringify item
             | item :: rest => JSON_stringify item ++ "," ++ each rest
             end) items
       ++ "]")%string
  | JObj members =>
      ("{"
       ++ (fix each (members : JsObject.props Json) : string :=
             match members with
             | [] => ""
             | [(key, value)] =>
                 write_string key ++ ":" ++ JSON_stringify value
             | (key, value) :: rest =>
                 write_string key ++ ":" ++ JSON_stringify value ++ ","
                 ++ each rest
             end) members
       ++ "}")%string
  end.

(** [JSON.stringify(v, null, 2)]: [indent] is the white space in front of
    the line the value starts on. *)
Fixpoint write_indented (indent : string) (v : Json) : string :=
  let inner := (indent ++ "  ")%string in
  let newline := String "010" "" in
  match v with
  | JArr [] => "[]"
  | JArr items =>
      ("[" ++ newline ++ inner
       ++ (fix each (items : list Json) : string :=
             match items with
             | [] => ""
             | [item] => write_indented inner item
             | item :: rest =>
                 write_indented inner item ++ "," ++ newline ++ inner
                 ++ each rest
             end) items
       ++ newline ++ indent ++ "]")%string
  | JObj [] => "{}"
  | JObj members =>
      ("{" ++ newline ++ inner
       ++ (fix each (members : JsObject.props Json) : string :=
             match members with
             | [] => ""
             | [(key, value)] =>
                 write_string key ++ ": " ++ write_indented inner value
             | (key, value) :: rest =>
                 write_string key ++ ": " ++ write_indented inner value
                 ++ "," ++ newline ++ inner ++ each rest
             end) members
       ++ newline ++ indent ++ "}")%string
  | _ => JSON_stringify v
  end.

Definition JSON_stringify_indented (v : Json) : string :=
  write_indented "" v.

End Writer.

(** ** Sample data *)

Module Samples.

Import JsString.

(** An evaluator that refuses every text, and the serialiser that goes
    with it. *)
Definition refuse_eval (text : string) (jsonStr : Held) : evaluation unit :=
  Ends (Throws "Unexpected token") jsonStr.

Definition refuse_stringify (obj : unit) (jsonStr : Held)
  : evaluation (option string) :=
  Ends (Throws "Converting circular structure to JSON") jsonStr.

(** [processJsonText] with the reference reader and writer. *)
Definition process (options : ProcessingOptions) (text fileName id now : string)
  : option Entry.t :=
  processJsonText options Reader.JSON_parse Writer.JSON_stringify_indented
    unit refuse_eval refuse_stringify text fileName (Some id) "" now.

(** [mergeSelectedEntries] with the reference reader and writer. *)
Definition merge (options : ProcessingOptions) (selected : list string)
  (entries : list Entry.t) : MergeOutcome :=
  mergeSelectedEntries options Reader.JSON_parse Writer.JSON_stringify
    selected entries "dataset-1" "2024-01-03T00:00:00.000Z".

Definition num (n : Z) : Json := JNum (Number n 0).

Definition doc1 : Json :=
  JObj [("a", num 1); ("b", JObj [("c", num 2)])].

Definition doc2 : Json :=
  JObj [("a", num 3); ("b", JObj [("c", num 4)])].

Definition text1 : string := dq "{`a`:1,`b`:{`c`:2}}".
Definition text2 : string := dq "{`a`:3,`b`:{`c`:4}}".

(** The default options with one of them changed. *)
Definition unflattened : ProcessingOptions := {|
  autoFormat := true;
  detectSchemas := true;
  flattenNested := false;
  maxDepth := 3;
  trimLongValues := true;
  maxValueLength := 1000;
  preserveArrays := true
|}.

Definition shallow : ProcessingOptions := {|
  autoFormat := true;
  detectSchemas := true;
  flattenNested := true;
  maxDepth := 1;
  trimLongValues := true;
  maxValueLength := 1000;
  preserveArrays := true
|}.

Definition sampling : ProcessingOptions := {|
  autoFormat := true;
  detectSchemas := true;
  flattenNested := true;
  maxDepth := 3;
  trimLongValues := true;
  maxValueLength := 1000;
  preserveArrays := false
|}.

(** The entries the pipeline makes of the two documents. *)
Definition entry1 : Entry.t := {|
  Entry.id := "e1";
  Entry.fileName := "one.json";
  Entry.originalJson := text1;
  Entry.correctedJson := Text text1;
  Entry.formattedJson := Writer.JSON_stringify_indented doc1;
  Entry.error := None;
  Entry.fields := ["a"; "b.c"];
  Entry.status := StatusProcessed;
  Entry.timestamp := "2024-01-01T00:00:00.000Z"
|}.

Definition entry2 : Entry.t := {|
  Entry.id := "e2";
  Entry.fileName := "two.json";
  Entry.originalJson := text2;
  Entry.correctedJson := Text text2;
  Entry.formattedJson := Writer.JSON_stringify_indented doc2;
  Entry.error := None;
  Entry.fields := ["a"; "b.c"];
  Entry.status := StatusProcessed;
  Entry.timestamp := "2024-01-02T00:00:00.000Z"
|}.

(** The dataset the merge of the two entries returns. *)
Definition merged12 : Dataset.t := {|
  Dataset.id := "dataset-1";
  Dataset.name := "Dataset from 2 files";
  Dataset.records :=
    [PlainRecord
       [("a", num 1); ("b.c", num 2); ("_source", JStr "one.json");
        ("_timestamp", JStr "2024-01-01T00:00:00.000Z")];
     PlainRecord
       [("a", num 3); ("b.c", num 4); ("_source", JStr "two.json");
        ("_timestamp", JStr "2024-01-02T00:00:00.000Z")]];
  Dataset.fields := ["a"; "b.c"];
  Dataset.schema :=
    [("a", "number"); ("b.c", "number"); ("_source", "string");
     ("_timestamp", "string")];
  Dataset.timestamp := "2024-01-03T00:00:00.000Z"
|}.

(** The dataset of the first entry merged without flattening. *)
Definition merged1_unflattened : Dataset.t := {|
  Dataset.id := "dataset-1";
  Dataset.name := "Dataset from 1 files";
  Dataset.records :=
    [PlainRecord
       [("a", num 1); ("b", JObj [("c", num 2)]);
        ("_source", JStr "one.json");
        ("_timestamp", JStr "2024-01-01T00:00:00.000Z")]];
  Dataset.fields := ["a"; "b.c"];
  Dataset.schema :=
    [("a", "number"); ("b", "object"); ("_source", "string");
     ("_timestamp", "string")];
  Dataset.timestamp := "2024-01-03T00:00:00.000Z"
|}.

(** The entry of a document that is an array of numbers. *)
Definition scalars : Json := JArr [num 1; num 2].

Definition entry3 : Entry.t := {|
  Entry.id := "e3";
  Entry.fileName := "three.json";
  Entry.originalJson := "[1, 2]";
  Entry.correctedJson := Text "[1, 2]";
  Entry.formattedJson := Writer.JSON_stringify_indented scalars;
  Entry.error := None;
  Entry.fields := [""];
  Entry.status := StatusProcessed;
  Entry.timestamp := "2024-01-02T12:00:00.000Z"
|}.

(** A document nested three levels deep. *)
Definition text_nested : string := dq "{`a`:{`b`:{`c`:1}}}".
Definition doc_nested : Json :=
  JObj [("a", JObj [("b", JObj [("c", num 1)])])].

(** A document nested four levels deep. *)
Definition doc_deep : Json :=
  JObj [("a", JObj [("b", JObj [("c", JObj [("d", num 1)])])])].

(** A document with a key that contains a dot. *)
Definition doc_dotted : Json :=
  JObj [("a.b", num 1); ("a", JObj [("b", num 2)])].

End Samples.

(** ** The statements of the specification about field paths *)

(** The paths of the values nested at most [n] levels below [v], each
    labelled as the extractor labels a leaf at that place: the keys on the
    way joined by dots, an array element under the path of its array. *)
Fixpoint paths_within (n : nat) (prefix : string) (v : Json) : list string :=
  JsString.strip_dot prefix
  :: match n with
     | O => []
     | S n' =>
         match v with
         | JArr items => flat_map (paths_within n' prefix) items
         | JObj members =>
             flat_map
               (fun kv =>
                  paths_within n' ((prefix ++ fst kv) ++ ".")%string (snd kv))
               members
         | _ => []
         end
     end.

(** A key without a dot. *)
Fixpoint no_dot (k : string) : bool :=
  match k with
  | EmptyString => true
  | String c r => negb (Ascii.eqb c ".") && no_dot r
  end.

Fixpoint distinct (l : list string) : bool :=
  match l with
  | [] => true
  | x :: r => negb (JsSet.has r x) && distinct r
  end.

(** The keys of every object are distinct, as in any parsed value, and
    free of dots. *)
Fixpoint plain_keys (v : Json) : bool :=
  match v with
  | JArr items => forallb plain_keys items
  | JObj members =>
      distinct (JsObject.keys members)
      && (fix each (members : JsObject.props Json) : bool :=
            match members with
            | [] => true
            | (key, value) :: rest =>
                no_dot key && plain_keys value && each rest
            end) members
  | _ => true
  end.

(** ** The statements of the specification about a merged dataset *)

(** Every key of every record is in [fields]. *)
Definition fields_cover_records (dataset : Dataset.t) : Prop :=
  forall record key,
    In record (Dataset.records dataset) ->
    In key (Rec.keys record) ->
    In key (Dataset.fields dataset).

(** Every key in [fields] has an entry in [schema]. *)
Definition schema_covers_fields (dataset : Dataset.t) : Prop :=
  forall key,
    In key (Dataset.fields dataset) ->
    exists tag, JsObject.get (Dataset.schema dataset) key = Some tag.

(** ** Arrays: [slice] *)

Module JsArray.

(** An index of [slice] as a position: a negative one counts from the
    end, and both ends are clamped. *)
Definition relative (index : Z) (len : nat) : nat :=
  if (index <? 0)%Z then Z.to_nat (Z.max (Z.of_nat len + index) 0)
  else Nat.min (Z.to_nat index) len.

(** [l.slice(start, finish)] *)
Definition slice {A : Type} (l : list A) (start finish : Z) : list A :=
  let from := relative start (length l) in
  let to := relative finish (length l) in
  firstn (to - from) (skipn from l).

End JsArray.

(** ** Selection, removal and pages of the entry table *)

(** [toggleEntrySelection(entryId)]: the update of [selectedEntries]. *)
Definition toggleEntrySelection (prevSelected : list string)
  (entryId : string) : list string :=
  if JsSet.has prevSelected entryId
  then JsSet.delete prevSelected entryId
  else JsSet.add prevSelected entryId.

(** [toggleAllEntriesSelection()]: the new [selectedEntries]. *)
Definition toggleAllEntriesSelection (selectedEntries : list string)
  (processedEntries : list Entry.t) : list string :=
  if (length selectedEntries =? length processedEntries)%nat then []
  else JsSet.add_all [] (map Entry.id processedEntries).

(** [removeSelectedEntries()]: the new [processedEntries] and
    [selectedEntries]; [confirmed] is the answer to [window.confirm]. *)
Definition removeSelectedEntries (confirmed : bool)
  (selectedEntries : list string) (processedEntries : list Entry.t)
  : list Entry.t * list string :=
  match selectedEntries with
  | [] => (processedEntries, selectedEntries)
  | _ =>
      if confirmed
      then (filter
              (fun entry => negb (JsSet.has selectedEntries (Entry.id entry)))
              processedEntries,
            [])
      else (processedEntries, selectedEntries)
  end.

Definition rowsPerPage : nat := 5.

(** [Math.ceil(processedEntries.length / rowsPerPage)] *)
Definition totalPages (processedEntries : list Entry.t) : nat :=
  (length processedEntries + (rowsPerPage - 1)) / rowsPerPage.

Definition startIndex (currentPage : Z) : Z :=
  ((currentPage - 1) * Z.of_nat rowsPerPage)%Z.

Definition visibleEntries (processedEntries : list Entry.t)
  (currentPage : Z) : list Entry.t :=
  JsArray.slice processedEntries (startIndex currentPage)
    (startIndex currentPage + Z.of_nat rowsPerPage)%Z.

(** The two page buttons: [Math.max(prev - 1, 1)] and
    [Math.min(prev + 1, totalPages)]. *)
Definition previousPage (prev : Z) : Z := Z.max (prev - 1) 1.

Definition nextPage (processedEntries : list Entry.t) (prev : Z) : Z :=
  Z.min (prev + 1) (Z.of_nat (totalPages processedEntries)).

(** ** The export *)

Module Exporter.

Import JsString.

(** What is handed to the download: the text, the name of the file and
    its type. *)
Record Download : Type := {
  content : string;
  filename : string;
  mimeType : string
}.

(** What a call leaves behind: nothing when there is no dataset, a
    download, or a message passed to [setError]. *)
Inductive Outcome : Type :=
| Nothing
| Saved (download : Download)
| Failed (message : string).

(** A run of white space becomes one dash: the name in
    [name.replace(/\s+/g, '-')]. *)
Definition space_run : Rewrite.matcher := fun text =>
  match text with
  | c :: r =>
      if is_space c then Some (["-"%char], snd (Rewrite.span is_space r))
      else None
  | [] => None
  end.

Definition dashed (name : string) : string :=
  Rewrite.replace_all space_run name.

(** A record as [JSON.stringify] sees it: of an array, the elements. *)
Definition to_json (record : JsRecord) : Json :=
  match record with
  | PlainRecord members => JObj members
  | ArrayRecord items _ => JArr items
  end.

Definition number_of (n : nat) : Json := JNum (Number (Z.of_nat n) 0).

Definition schema_json (schema : JsObject.props string) : Json :=
  JObj (map (fun kv => (fst kv, JStr (snd kv))) schema).

Definition fields_json (fields : list string) : Json :=
  JArr (map JStr fields).

(** [key.startsWith('_')] *)
Definition startsWith_underscore (key : string) : bool :=
  match key with
  | String c _ => Ascii.eqb c "_"
  | EmptyString => false
  end.

(** The value of a content field: a string of more than 100
    characters. *)
Definition long_text (record : JsRecord) (key : string) : option string :=
  match Rec.get record key with
  | Some (JStr s) => if (100 <? String.length s)%nat then Some s else None
  | _ => None
  end.

Definition contentFields (record : JsRecord) : list string :=
  filter
    (fun key =>
       negb (startsWith_underscore key)
       && match long_text record key with Some _ => true | None => false end)
    (Rec.keys record).

Definition metadataFields (record : JsRecord) : list string :=
  filter (fun key => negb (JsSet.has (contentFields record) key))
    (Rec.keys record).

(** [contentFields.map(field => record[field]).join('\n\n')]; every
    content field holds a string. *)
Definition ragText (record : JsRecord) : string :=
  String.concat (String "010" (String "010" ""))
    (map (fun field =>
            match long_text record field with
            | Some s => s
            | None => ""
            end)
       (contentFields record)).

(** [metadataFields.reduce((meta, key) => { meta[key] = record[key];
    return meta }, {})] *)
Definition ragMetadata (record : JsRecord) : JsObject.props Json :=
  JsObject.assign_each (Rec.own record) (metadataFields record).

Definition ragRecord (record : JsRecord) : Json :=
  JObj [("text", JStr (ragText record));
        ("metadata", JObj (ragMetadata record))].

Section ExportDataset.

Variable JSON_stringify : Json -> string.
Variable JSON_stringify_indented : Json -> string.

(** [Papa.unparse(records)] of the CSV library. *)
Variable Papa_unparse : list JsRecord -> completion string.

Definition hfDataset (dataset : Dataset.t) : Json :=
  JObj
    [("data", JArr (map to_json (Dataset.records dataset)));
     ("schema", schema_json (Dataset.schema dataset));
     ("metadata",
      JObj
        [("name", JStr (Dataset.name dataset));
         ("timestamp", JStr (Dataset.timestamp dataset));
         ("record_count", number_of (length (Dataset.records dataset)));
         ("fields", fields_json (Dataset.fields dataset))])].

Definition ragDataset (dataset : Dataset.t) : Json :=
  JObj
    [("name", JStr (Dataset.name dataset));
     ("timestamp", JStr (Dataset.timestamp dataset));
     ("documents", JArr (map ragRecord (Dataset.records dataset)));
     ("metadata",
      JObj
        [("record_count", number_of (length (Dataset.records dataset)));
         ("fields", fields_json (Dataset.fields dataset));
         ("schema", schema_json (Dataset.schema dataset))])].

(** The [switch] on the format. *)
Definition render (dataset : Dataset.t) (format : string)
  : completion Download :=
  let base := dashed (Dataset.name dataset) in
  if format =? "json" then
    Returns
      {| content :=
           JSON_stringify_indented
             (JArr (map to_json (Dataset.records dataset)));
         filename := (base ++ ".json")%string;
         mimeType := "application/json" |}
  else if format =? "jsonl" then
    Returns
      {| content :=
           String.concat (String "010" "")
             (map (fun record => JSON_stringify (to_json record))
                (Dataset.records dataset));
         filename := (base ++ ".jsonl")%string;
         mimeType := "application/x-jsonlines" |}
  else if format =? "csv" then
    text <- Papa_unparse (Dataset.records dataset) ;;
    Returns
      {| content := text;
         filename := (base ++ ".csv")%string;
         mimeType := "text/csv" |}
  else if format =? "huggingface" then
    Returns
      {| content := JSON_stringify_indented (hfDataset dataset);
         filename := (base ++ "-huggingface.json")%string;
         mimeType := "application/json" |}
  else if format =? "rag" then
    Returns
      {| content := JSON_stringify_indented (ragDataset dataset);
         filename := (base ++ "-rag.json")%string;
         mimeType := "application/json" |}
  else Throws ("Unsupported export format: " ++ format)%string.

(** [exportDataset(dataset, format)] *)
Definition exportDataset (dataset : option Dataset.t) (format : string)
  : Outcome :=
  match dataset with
  | None => Nothing
  | Some dataset =>
      match render dataset format with
      | Returns download => Saved download
      | Throws errorMessage =>
          Failed ("Error exporting dataset: " ++ errorMessage)%string
      end
  end.

End ExportDataset.

End Exporter.

(** ** Values whose keys an assignment can copy *)

(** The keys of every object are distinct, as in any parsed value, and
    none is [__proto__], which an assignment does not create. *)
Fixpoint assignable_keys (v : Json) : bool :=
  match v with
  | JArr items => forallb assignable_keys items
  | JObj members =>
      distinct (JsObject.keys members)
      && (fix each (members : JsObject.props Json) : bool :=
            match members with
            | [] => true
            | (key, value) :: rest =>
                JsObject.nonproto key && assignable_keys value && each rest
            end) members
  | _ => true
  end.

(** ** More sample inputs *)

Module MoreSamples.

Import JsString Samples.

(** An object literal that is no JSON text and that the rewrites spoil:
    the key has no quotes and the string holds an apostrophe. *)
Definition text_apostrophe : string := dq "{a: `it's`}".

Definition doc_apostrophe : Json := JObj [("a", JStr "it's")].

(** A text that evaluates to [undefined], which has no JSON text. *)
Definition text_undefined : string := "undefined".

(** A text that assigns to the parameter of the repairer and then calls
    a function that does not exist. *)
Definition text_reassigning : string := dq "jsonStr = `[]`, nosuchfn()".

(** A text that loops. *)
Definition text_looping : string := "function(){for(;;);}()".

(** An evaluator that knows these four texts; [None] is [undefined]. *)
Definition eval_sample (text : string) (jsonStr : Held)
  : evaluation (option Json) :=
  if (text =? "(" ++ text_apostrophe ++ ")")%string
  then Ends (Returns (Some doc_apostrophe)) jsonStr
  else if (text =? "(" ++ text_undefined ++ ")")%string
  then Ends (Returns None) jsonStr
  else if (text =? "(" ++ text_reassigning ++ ")")%string
  then Ends (Throws "nosuchfn is not defined") (Text "[]")
  else if (text =? "(" ++ text_looping ++ ")")%string
  then Hangs
  else Ends (Throws "Unexpected token") jsonStr.

(** [JSON.stringify] on a value that came out of this evaluator. *)
Definition stringify_value (v : option Json) (jsonStr : Held)
  : evaluation (option string) :=
  Ends (Returns (option_map Writer.JSON_stringify v)) jsonStr.

(** The repairer and the pipeline with this evaluator. *)
Definition repair_sample (text : string) : option (completion Correction) :=
  correctJsonSyntax Reader.JSON_parse (option Json) eval_sample
    stringify_value text.

Definition process_sample (text fileName id now : string) : option Entry.t :=
  processJsonText defaultOptions Reader.JSON_parse
    Writer.JSON_stringify_indented (option Json) eval_sample stringify_value
    text fileName (Some id) "" now.

(** The entry stored for the text that assigns to [jsonStr]: the text
    it left there is read, and the message of the last [catch] stays. *)
Definition entry_reassigning : Entry.t := {|
  Entry.id := "e6";
  Entry.fileName := "six.json";
  Entry.originalJson := text_reassigning;
  Entry.correctedJson := Text "[]";
  Entry.formattedJson := Writer.JSON_stringify_indented (JArr []);
  Entry.error :=
    Some ("Could not fix JSON. Original error: "
          ++ "Unexpected token in JSON")%string;
  Entry.fields := [""];
  Entry.status := StatusWarning;
  Entry.timestamp := "2024-01-06T00:00:00.000Z"
|}.

(** The entry the pipeline stores for this text. *)
Definition entry_apostrophe : Entry.t := {|
  Entry.id := "e5";
  Entry.fileName := "five.json";
  Entry.originalJson := text_apostrophe;
  Entry.correctedJson := Text (dq "{`a`:`it's`}");
  Entry.formattedJson := Writer.JSON_stringify_indented doc_apostrophe;
  Entry.error := Some aggressiveNote;
  Entry.fields := ["a"];
  Entry.status := StatusWarning;
  Entry.timestamp := "2024-01-05T00:00:00.000Z"
|}.

(** A CSV library that is not loaded. *)
Definition unparse_unavailable (records : list JsRecord)
  : completion string :=
  Throws "Papa is not defined".

(** The download of the sample dataset for retrieval. *)
Definition download_rag : Exporter.Download := {|
  Exporter.content :=
    Writer.JSON_stringify_indented (Exporter.ragDataset merged12);
  Exporter.filename := "Dataset-from-2-files-rag.json";
  Exporter.mimeType := "application/json"
|}.

(** The first record of the sample dataset. *)
Definition record1 : JsRecord :=
  PlainRecord
    [("a", num 1); ("b.c", num 2); ("_source", JStr "one.json");
     ("_timestamp", JStr "2024-01-01T00:00:00.000Z")].

(** A table of six entries: two pages. *)
Definition six : list Entry.t :=
  [entry1; entry2; entry3; entry1; entry2; entry3].

End MoreSamples.

(** * Properties *)

(** ** Sets of strings *)

Module JsSetFacts.

Lemma has_In (s : list string) (x : string) :
  JsSet.has s x = true <-> In x s.
Proof.
  unfold JsSet.has. rewrite existsb_exists. split.
  - intros (y & Hy & Heq). apply String.eqb_eq in Heq. now subst.
  - intros H. exists x. split; [assumption | apply String.eqb_refl].
Qed.

Lemma In_add (s : list string) (x y : string) :
  In y (JsSet.add s x) <-> In y s \/ y = x.
Proof.
  unfold JsSet.add. destruct (JsSet.has s x) eqn:E.
  - apply has_In in E. split; [tauto | intros [H | ->]; assumption].
  - rewrite in_app_iff. simpl. intuition.
Qed.

Lemma In_add_all (xs s : list string) (y : string) :
  In y (JsSet.add_all s xs) <-> In y s \/ In y xs.
Proof.
  unfold JsSet.add_all. revert s.
  induction xs as [| x xs IH]; intros s; simpl.
  - tauto.
  - rewrite IH, In_add. intuition.
Qed.

Lemma NoDup_add (s : list string) (x : string) :
  NoDup s -> NoDup (JsSet.add s x).
Proof.
  intros H. unfold JsSet.add. destruct (JsSet.has s x) eqn:E; [assumption |].
  assert (~ In x s) by (rewrite <- has_In, E; discriminate).
  apply NoDup_app; [assumption | repeat constructor; simpl; tauto |].
  intros a Ha [<- | []]. contradiction.
Qed.

Lemma NoDup_add_all (xs s : list string) :
  NoDup s -> NoDup (JsSet.add_all s xs).
Proof.
  unfold JsSet.add_all. revert s.
  induction xs as [| x xs IH]; intros s H; simpl; [assumption |].
  apply IH, NoDup_add, H.
Qed.

End JsSetFacts.

(** ** Objects as property lists *)

Module JsObjectFacts.

Import JsObject.

Section Facts.
Context {V : Type}.
Implicit Types (o : props V) (k : string) (v : V).

Lemma has_In_keys o k : has o k = true <-> In k (keys o).
Proof.
  unfold has. rewrite existsb_exists. split.
  - intros (y & Hy & Heq). apply String.eqb_eq in Heq. now subst.
  - intros H. exists k. split; [assumption | apply String.eqb_refl].
Qed.

Lemma get_Some_In o k v : get o k = Some v -> In (k, v) o.
Proof.
  induction o as [| [k' v'] o IH]; simpl; [discriminate |].
  destruct (String.eqb_spec k' k) as [-> | Hne].
  - intros [= ->]. now left.
  - intros H. right. auto.
Qed.

Lemma get_None_iff o k : get o k = None <-> ~ In k (keys o).
Proof.
  induction o as [| [k' v'] o IH]; simpl; [tauto |].
  destruct (String.eqb_spec k' k) as [-> | Hne].
  - split; [discriminate | tauto].
  - rewrite IH. tauto.
Qed.

Lemma In_keys_get o k : In k (keys o) -> exists v, get o k = Some v.
Proof.
  intros H. destruct (get o k) as [v |] eqn:E; [now exists v |].
  apply get_None_iff in E. contradiction.
Qed.

Lemma get_app o o' k :
  get (o ++ o') k = match get o k with Some v => Some v | None => get o' k end.
Proof.
  induction o as [| [k' v'] o IH]; simpl; [reflexivity |].
  destruct (k' =? k)%string; auto.
Qed.

(** *** [replace] *)

Lemma keys_replace o k v : keys (replace o k v) = keys o.
Proof.
  induction o as [| [k' v'] o IH]; simpl; [reflexivity |].
  destruct (k' =? k)%string; simpl; [reflexivity | now rewrite IH].
Qed.

Lemma get_replace o k v k' :
  get (replace o k v) k'
  = if (k =? k')%string
    then match get o k with Some _ => Some v | None => None end
    else get o k'.
Proof.
  induction o as [| [k0 v0] o IH]; simpl.
  - now destruct (k =? k')%string.
  - destruct (String.eqb_spec k0 k) as [-> | Hne]; simpl.
    + destruct (String.eqb_spec k k'); reflexivity.
    + rewrite IH. destruct (String.eqb_spec k k') as [Hkk' | Hkk'].
      * destruct (String.eqb_spec k0 k'); [congruence | reflexivity].
      * reflexivity.
Qed.

Lemma In_replace o k v kv :
  In kv (replace o k v) -> kv = (k, v) \/ In kv o.
Proof.
  induction o as [| [k0 v0] o IH]; simpl; [tauto |].
  destruct (String.eqb_spec k0 k) as [-> | Hne]; simpl.
  - intros [<- | H]; auto.
  - intros [<- | H]; auto. destruct (IH H); auto.
Qed.

Lemma replace_same o k v : get o k = Some v -> replace o k v = o.
Proof.
  induction o as [| [k0 v0] o IH]; simpl; [reflexivity |].
  destruct (String.eqb_spec k0 k) as [-> | Hne].
  - now intros [= ->].
  - intros H. now rewrite IH.
Qed.

(** *** [insert_index] *)

Lemma insert_index_perm o n k v :
  Permutation (insert_index o n k v) ((k, v) :: o).
Proof.
  induction o as [| [k0 v0] o IH]; simpl; [reflexivity |].
  destruct (JsString.array_index k0) as [n' |]; [| reflexivity].
  destruct (n' <? n)%N; [| reflexivity].
  rewrite IH. apply perm_swap.
Qed.

Lemma get_insert_index o n k v k' :
  ~ In k (keys o) ->
  get (insert_index o n k v) k'
  = if (k =? k')%string then Some v else get o k'.
Proof.
  induction o as [| [k0 v0] o IH]; simpl; intros Hnot.
  - reflexivity.
  - assert (Hk0 : k0 <> k) by tauto.
    assert (Hrest : ~ In k (keys o)) by tauto.
    destruct (JsString.array_index k0) as [n' |]; simpl.
    + destruct (n' <? n)%N; simpl; [| reflexivity].
      rewrite (IH Hrest).
      destruct (String.eqb_spec k0 k'), (String.eqb_spec k k');
        congruence.
    + reflexivity.
Qed.

(** *** [define] and [set] *)

Lemma define_perm o k v :
  ~ In k (keys o) -> Permutation (define o k v) ((k, v) :: o).
Proof.
  intros Hnot. unfold define.
  destruct (has o k) eqn:E; [apply has_In_keys in E; contradiction |].
  destruct (JsString.array_index k).
  - apply insert_index_perm.
  - symmetry. apply Permutation_cons_append.
Qed.

Lemma keys_define o k v k' :
  In k' (keys (define o k v)) <-> k' = k \/ In k' (keys o).
Proof.
  unfold define. destruct (has o k) eqn:E.
  - rewrite keys_replace. apply has_In_keys in E.
    split; [tauto | intros [-> | H]; assumption].
  - assert (Hnot : ~ In k (keys o))
      by (rewrite <- has_In_keys, E; discriminate).
    assert (Hp : Permutation (keys (define o k v)) (k :: keys o)).
    { unfold keys. change (k :: map fst o) with (map fst ((k, v) :: o)).
      apply Permutation_map, define_perm, Hnot. }
    unfold define in Hp. rewrite E in Hp.
    split.
    + intros H. apply (Permutation_in _ Hp) in H. simpl in H. intuition.
    + intros H. apply (Permutation_in _ (Permutation_sym Hp)).
      simpl. intuition.
Qed.

Lemma get_define o k v k' :
  get (define o k v) k' = if (k =? k')%string then Some v else get o k'.
Proof.
  unfold define. destruct (has o k) eqn:E.
  - rewrite get_replace. apply has_In_keys, In_keys_get in E.
    destruct E as [v0 ->]. reflexivity.
  - assert (Hnot : ~ In k (keys o))
      by (rewrite <- has_In_keys, E; discriminate).
    destruct (JsString.array_index k).
    + now apply get_insert_index.
    + rewrite get_app. simpl.
      destruct (String.eqb_spec k k') as [<- | Hne].
      * apply get_None_iff in Hnot. now rewrite Hnot.
      * now destruct (get o k').
Qed.

Lemma In_define o k v kv :
  In kv (define o k v) -> kv = (k, v) \/ In kv o.
Proof.
  unfold define. destruct (has o k) eqn:E.
  - apply In_replace.
  - assert (Hnot : ~ In k (keys o))
      by (rewrite <- has_In_keys, E; discriminate).
    intros H.
    assert (Hp := define_perm o k v Hnot).
    unfold define in Hp. rewrite E in Hp.
    apply (Permutation_in _ Hp) in H. simpl in H. intuition.
Qed.

Lemma NoDup_keys_define o k v :
  NoDup (keys o) -> NoDup (keys (define o k v)).
Proof.
  intros Hnd. unfold define. destruct (has o k) eqn:E.
  - now rewrite keys_replace.
  - assert (Hnot : ~ In k (keys o))
      by (rewrite <- has_In_keys, E; discriminate).
    assert (Hp := define_perm o k v Hnot).
    unfold define in Hp. rewrite E in Hp.
    apply (Permutation_map fst) in Hp. simpl in Hp.
    apply (Permutation_NoDup (Permutation_sym Hp)).
    now constructor.
Qed.

Lemma define_same o k v : get o k = Some v -> define o k v = o.
Proof.
  intros H. unfold define.
  assert (E : has o k = true).
  { apply has_In_keys. apply get_Some_In in H.
    change k with (fst (k, v)). now apply in_map. }
  rewrite E. now apply replace_same.
Qed.

Lemma keys_set o k v k' :
  In k' (keys (set o k v))
  <-> (k' = k /\ k <> "__proto__") \/ In k' (keys o).
Proof.
  unfold set. destruct (String.eqb_spec k "__proto__") as [-> | Hne].
  - intuition.
  - rewrite keys_define. intuition.
Qed.

Lemma get_set o k v k' :
  get (set o k v) k'
  = if (k =? k')%string && negb (k =? "__proto__")%string
    then Some v else get o k'.
Proof.
  unfold set. destruct (String.eqb_spec k "__proto__") as [-> | Hne]; simpl.
  - now rewrite andb_false_r.
  - now rewrite get_define, andb_true_r.
Qed.

Lemma In_set o k v kv : In kv (set o k v) -> kv = (k, v) \/ In kv o.
Proof.
  unfold set. destruct (k =? "__proto__")%string; [tauto |].
  apply In_define.
Qed.

Lemma NoDup_keys_set o k v : NoDup (keys o) -> NoDup (keys (set o k v)).
Proof.
  unfold set. destruct (k =? "__proto__")%string; [tauto |].
  apply NoDup_keys_define.
Qed.

Lemma set_same o k v : get o k = Some v -> set o k v = o.
Proof.
  intros H. unfold set. destruct (k =? "__proto__")%string; [reflexivity |].
  now apply define_same.
Qed.

End Facts.

End JsObjectFacts.

(** ** Records and schema inference *)

Module SchemaFacts.

Import JsObjectFacts.

Lemma keys_assign (r : JsRecord) (name : string) (v : Json) (k : string) :
  In k (Rec.keys (Rec.assign r name v))
  <-> (k = name /\ name <> "__proto__") \/ In k (Rec.keys r).
Proof.
  destruct r as [members | items named]; simpl.
  - apply keys_set.
  - rewrite !in_app_iff, keys_set. tauto.
Qed.

(** A key that [Object.keys] lists is a property [in] finds. *)
Lemma keys_get (r : JsRecord) (k : string) :
  In k (Rec.keys r) -> exists v, Rec.get r k = Some v.
Proof.
  unfold Rec.get. intros H. apply In_keys_get.
  destruct r as [members | items named]; simpl in *; [assumption |].
  unfold JsObject.keys in *. rewrite map_app, in_app_iff. simpl.
  rewrite in_app_iff in H. tauto.
Qed.

Lemma In_allKeys (records : list JsRecord) (key : string) :
  In key (Schema.allKeys records)
  <-> exists record, In record records /\ In key (Rec.keys record).
Proof.
  unfold Schema.allKeys.
  assert (H : forall acc,
             In key (fold_left
                       (fun allKeys record =>
                          JsSet.add_all allKeys (Rec.keys record))
                       records acc)
             <-> In key acc
                 \/ exists record,
                      In record records /\ In key (Rec.keys record)).
  { induction records as [| r records IH]; intros acc; simpl.
    - split; [tauto | intros [H | (r & [] & _)]; assumption].
    - rewrite IH, JsSetFacts.In_add_all. split.
      + intros [[H | H] | (r' & Hin & Hk)]; eauto.
      + intros [H | (r' & [<- | Hin] & Hk)]; eauto. }
  rewrite H. simpl. split; [intros [[] | H']; assumption | auto].
Qed.

Lemma In_types (records : list JsRecord) (key tag : string) :
  In tag (Schema.types records key)
  <-> exists record value,
        In record records
        /\ Rec.get record key = Some value
        /\ tag = type_tag value.
Proof.
  unfold Schema.types.
  assert (H : forall acc,
             In tag (fold_left
                       (fun types record =>
                          match Rec.get record key with
                          | Some value => JsSet.add types (type_tag value)
                          | None => types
                          end)
                       records acc)
             <-> In tag acc
                 \/ exists record value,
                      In record records
                      /\ Rec.get record key = Some value
                      /\ tag = type_tag value).
  { induction records as [| r records IH]; intros acc; simpl.
    - split; [tauto | intros [H | (r & v & [] & _)]; assumption].
    - rewrite IH. destruct (Rec.get r key) as [value |] eqn:E.
      + rewrite JsSetFacts.In_add. split.
        * intros [[H | H] | (r' & v' & Hin & Hg & Ht)]; eauto 8.
        * intros [H | (r' & v' & [<- | Hin] & Hg & Ht)]; eauto 8.
          rewrite E in Hg. injection Hg as <-. auto.
      + split.
        * intros [H | (r' & v' & Hin & Hg & Ht)]; eauto 8.
        * intros [H | (r' & v' & [<- | Hin] & Hg & Ht)]; eauto 8.
          congruence. }
  rewrite H. simpl. split; [intros [[] | H']; assumption | auto].
Qed.

Lemma type_tag_known (v : Json) : type_tag v <> "unknown".
Proof. destruct v; discriminate. Qed.

(** The first branch of the assignment is taken for an empty set only. *)
Lemma assigned_unknown (types : list string) :
  (forall tag, In tag types -> tag <> "unknown") ->
  Schema.assigned types = "unknown" -> types = [].
Proof.
  intros Hknown. unfold Schema.assigned.
  destruct types as [| t [| t' rest]]; [reflexivity | |].
  - intros ->. exfalso. apply (Hknown "unknown"); [now left | reflexivity].
  - destruct (JsSet.has _ "string"); [discriminate |].
    destruct (JsSet.has _ "number"); discriminate.
Qed.

(** An object filled by assignments [o[key] = f key] over a list of
    keys. *)
Lemma get_assignments {V : Type} (f : string -> V) (ks : list string)
  (o : JsObject.props V) (key : string) :
  JsObject.get
    (fold_left (fun o key => JsObject.set o key (f key)) ks o) key
  = if JsSet.has ks key && negb (key =? "__proto__")%string
    then Some (f key) else JsObject.get o key.
Proof.
  revert o. induction ks as [| k ks IH]; intros o; simpl; [reflexivity |].
  rewrite IH, get_set. unfold JsSet.has. simpl.
  destruct (String.eqb_spec key k) as [-> | Hne].
  - rewrite String.eqb_refl. simpl.
    destruct (k =? "__proto__")%string; simpl.
    + now rewrite andb_false_r.
    + now rewrite andb_true_r; destruct (existsb _ ks).
  - destruct (String.eqb_spec k key); [congruence |]. reflexivity.
Qed.

Lemma get_infer (records : list JsRecord) (key : string) :
  JsObject.get (Schema.infer records) key
  = if JsSet.has (Schema.allKeys records) key
       && negb (key =? "__proto__")%string
    then Some (Schema.assigned (Schema.types records key)) else None.
Proof.
  unfold Schema.infer.
  apply (get_assignments
           (fun key => Schema.assigned (Schema.types records key))).
Qed.

End SchemaFacts.

(** ** The merge *)

Lemma In_allFields (entries : list Entry.t) (acc : list string) (f : string) :
  In f (fold_left
          (fun allFields entry => JsSet.add_all allFields (Entry.fields entry))
          entries acc)
  <-> In f acc
      \/ exists entry, In entry entries /\ In f (Entry.fields entry).
Proof.
  revert acc. induction entries as [| e entries IH]; intros acc; simpl.
  - split; [tauto | intros [H | (e & [] & _)]; assumption].
  - rewrite IH, JsSetFacts.In_add_all. split.
    + intros [[H | H] | (e' & Hin & Hf)]; eauto.
    + intros [H | (e' & [<- | Hin] & Hf)]; eauto.
Qed.

Section MergeFacts.

Variable processingOptions : ProcessingOptions.
Variable JSON_parse : string -> completion Json.
Variable JSON_stringify : Json -> string.

Local Abbreviation toRecord' :=
  (toRecord processingOptions JSON_stringify).
Local Abbreviation pushItems' :=
  (pushItems processingOptions JSON_stringify).
Local Abbreviation mergeEntry' :=
  (mergeEntry processingOptions JSON_parse JSON_stringify).
Local Abbreviation mergeSelectedEntries' :=
  (mergeSelectedEntries processingOptions JSON_parse JSON_stringify).

(** What the parts of a returned dataset are. *)
Lemma merged_dataset selectedEntries processedEntries generatedId now
  dataset logged :
  mergeSelectedEntries' selectedEntries processedEntries generatedId now
  = Merged dataset logged ->
  let entriesToMerge :=
    filter (isSelected selectedEntries) processedEntries in
  let state := fold_left mergeEntry' entriesToMerge ([], []) in
  Dataset.records dataset = fst state
  /\ logged = snd state
  /\ Dataset.fields dataset
     = fold_left
         (fun allFields entry => JsSet.add_all allFields (Entry.fields entry))
         entriesToMerge []
  /\ Dataset.schema dataset
     = (if detectSchemas processingOptions
           && negb (length (fst state) =? 0)%nat
        then Schema.infer (fst state) else []).
Proof.
  unfold mergeSelectedEntries.
  destruct selectedEntries as [| s sel]; [discriminate |].
  destruct (filter _ processedEntries) as [| e es]; [discriminate |].
  destruct (fold_left _ (e :: es) _) as [records logged'].
  intros [= <- <-]. simpl. auto.
Qed.

(** A merge of a selection that holds a usable entry returns a dataset. *)
Lemma merge_returns selectedEntries processedEntries generatedId now entry :
  In entry processedEntries ->
  isSelected selectedEntries entry = true ->
  exists dataset logged,
    mergeSelectedEntries' selectedEntries processedEntries generatedId now
    = Merged dataset logged.
Proof.
  intros Hin Hsel. unfold mergeSelectedEntries.
  destruct selectedEntries as [| s sel].
  - discriminate.
  - assert (Hf : In entry (filter (isSelected (s :: sel)) processedEntries))
      by (apply filter_In; auto).
    destruct (filter _ processedEntries) as [| e es]; [destruct Hf |].
    destruct (fold_left _ (e :: es) _) as [records logged']. eauto.
Qed.

(** The records a step adds all satisfy what every record made by
    [toRecord'] satisfies. *)
Section Invariant.

Variable P : JsRecord -> Prop.
Hypothesis toRecord_P :
  forall entry item record, toRecord' entry item = Returns record -> P record.

Lemma pushItems_invariant entry items records :
  Forall P records -> Forall P (fst (pushItems' entry items records)).
Proof.
  revert records. induction items as [| item rest IH]; intros records H;
    simpl; [assumption |].
  destruct (toRecord' entry item) as [record |] eqn:E; [| assumption].
  apply IH. apply Forall_app. split; [assumption |].
  constructor; [| constructor]. eapply toRecord_P, E.
Qed.

Lemma mergeEntry_invariant state entry :
  Forall P (fst state) -> Forall P (fst (mergeEntry' state entry)).
Proof.
  destruct state as [records logged]. simpl. intros H.
  unfold mergeEntry.
  assert (Hpush : forall items,
             Forall P (fst (pushItems' entry items records)))
    by (intros; now apply pushItems_invariant).
  destruct (JSON_parse (Entry.formattedJson entry)) as [parsedJson | e].
  - destruct parsedJson;
      match goal with
      | |- context [pushItems' entry ?items records] =>
          specialize (Hpush items);
          destruct (pushItems' entry items records) as [records' [[] | e]]
      | |- context [toRecord' entry ?v] =>
          specialize (Hpush [v]); simpl in Hpush;
          destruct (toRecord' entry v)
      end; assumption.
  - assumption.
Qed.

Lemma merge_invariant entries state :
  Forall P (fst state) -> Forall P (fst (fold_left mergeEntry' entries state)).
Proof.
  revert state. induction entries as [| e entries IH]; intros state H;
    simpl; [assumption |].
  apply IH, mergeEntry_invariant, H.
Qed.

End Invariant.

(** Every record made by [toRecord'] carries the two metadata keys. *)
Lemma toRecord_metadata entry item record :
  toRecord' entry item = Returns record ->
  In "_source" (Rec.keys record) /\ In "_timestamp" (Rec.keys record).
Proof.
  unfold toRecord, bind.
  destruct (if flattenNested processingOptions then _ else _)
    as [base |]; [| discriminate].
  intros [= <-]. rewrite !SchemaFacts.keys_assign.
  split; [right |]; left; (split; [reflexivity | discriminate]).
Qed.

End MergeFacts.

(** ** The order of keys and [sort] *)

Module SortFacts.

Import JsObject.

Definition le (a b : string) : Prop := (a <=? b)%string = true.

Lemma ascii_compare_eq (a b : ascii) : Ascii.compare a b = Eq <-> a = b.
Proof.
  split.
  - apply Ascii.compare_eq_iff.
  - intros ->. unfold Ascii.compare. apply N.compare_refl.
Qed.

Lemma le_trans (a b c : string) : le a b -> le b c -> le a c.
Proof.
  unfold le, String.leb. revert b c.
  induction a as [| x a IH]; intros [| y b] [| z c]; simpl;
    try reflexivity; try discriminate.
  destruct (Ascii.compare x y) eqn:Exy.
  - apply ascii_compare_eq in Exy. subst y.
    destruct (Ascii.compare x z) eqn:Exz.
    + apply IH.
    + reflexivity.
    + intros _ H. exact H.
  - intros _.
    destruct (Ascii.compare y z) eqn:Eyz.
    + apply ascii_compare_eq in Eyz. subst z.
      intros _. now rewrite Exy.
    + intros _.
      assert (H : Ascii.compare x z = Lt).
      { unfold Ascii.compare in *. rewrite N.compare_lt_iff in *. lia. }
      now rewrite H.
    + discriminate.
  - discriminate.
Qed.

Lemma le_antisym (a b : string) : le a b -> le b a -> a = b.
Proof. apply String.leb_antisym. Qed.

Lemma le_total (a b : string) : le a b \/ le b a.
Proof. apply String.leb_total. Qed.

Lemma insert_key_perm (k : string) (l : list string) :
  Permutation (insert_key k l) (k :: l).
Proof.
  induction l as [| k' l IH]; simpl; [reflexivity |].
  destruct (k <=? k')%string; [reflexivity |].
  rewrite IH. apply perm_swap.
Qed.

Lemma sort_keys_perm (l : list string) : Permutation (sort_keys l) l.
Proof.
  induction l as [| k l IH]; simpl; [reflexivity |].
  rewrite insert_key_perm. now constructor.
Qed.

Lemma In_sort_keys (l : list string) (k : string) :
  In k (sort_keys l) <-> In k l.
Proof.
  split; apply Permutation_in;
    [apply sort_keys_perm | apply Permutation_sym, sort_keys_perm].
Qed.

Lemma insert_key_sorted (k : string) (l : list string) :
  StronglySorted le l -> StronglySorted le (insert_key k l).
Proof.
  induction 1 as [| k' l Hs IH Hall]; simpl.
  - repeat constructor.
  - destruct (k <=? k')%string eqn:E.
    + constructor; [now constructor |].
      constructor; [exact E |].
      eapply Forall_impl; [| exact Hall].
      intros x Hx. eapply le_trans; [exact E | exact Hx].
    + constructor; [assumption |].
      assert (Hle : le k' k).
      { destruct (le_total k k') as [H | H]; [| assumption].
        unfold le in H. congruence. }
      apply (Permutation_Forall (Permutation_sym (insert_key_perm k l))).
      now constructor.
Qed.

Lemma sort_keys_sorted (l : list string) : StronglySorted le (sort_keys l).
Proof.
  induction l as [| k l IH]; simpl; [constructor |].
  now apply insert_key_sorted.
Qed.

(** Two sorted lists without repetition that hold the same keys are the
    same list. *)
Lemma sorted_unique (l1 l2 : list string) :
  StronglySorted le l1 -> StronglySorted le l2 ->
  NoDup l1 -> NoDup l2 ->
  (forall k, In k l1 <-> In k l2) ->
  l1 = l2.
Proof.
  intros Hs1. revert l2.
  induction Hs1 as [| a l1 Hs1 IH Ha]; intros l2 Hs2 Hn1 Hn2 Hsame.
  - destruct l2 as [| b l2]; [reflexivity |].
    exfalso. apply (proj2 (Hsame b)). now left.
  - destruct Hs2 as [| b l2 Hs2 Hb].
    + exfalso. apply (proj1 (Hsame a)). now left.
    + inversion Hn1 as [| ? ? Hna Hn1']; subst.
      inversion Hn2 as [| ? ? Hnb Hn2']; subst.
      rewrite Forall_forall in Ha, Hb.
      assert (a = b).
      { destruct (proj1 (Hsame a) (or_introl eq_refl)) as [-> | Hin];
          [reflexivity |].
        destruct (proj2 (Hsame b) (or_introl eq_refl)) as [-> | Hin'];
          [reflexivity |].
        apply le_antisym; auto. }
      subst b. f_equal. apply IH; try assumption.
      intros k. split; intros Hk.
      * destruct (proj1 (Hsame k) (or_intror Hk)) as [-> | H];
          [contradiction | assumption].
      * destruct (proj2 (Hsame k) (or_intror Hk)) as [-> | H];
          [contradiction | assumption].
Qed.

Lemma filter_sorted (p : string -> bool) (l : list string) :
  StronglySorted le l -> StronglySorted le (filter p l).
Proof.
  induction 1 as [| a l Hs IH Ha]; simpl; [constructor |].
  destruct (p a); [| assumption].
  constructor; [assumption |].
  rewrite Forall_forall in *. intros x Hx.
  apply filter_In in Hx. apply Ha, Hx.
Qed.

Lemma nodup_sorted (l : list string) :
  StronglySorted le l -> StronglySorted le (nodup string_dec l).
Proof.
  induction 1 as [| a l Hs IH Ha]; simpl; [constructor |].
  destruct (in_dec string_dec a l); [assumption |].
  constructor; [assumption |].
  rewrite Forall_forall in *. intros x Hx.
  apply nodup_In in Hx. auto.
Qed.

(** In a sorted list a key that occurs again occurs next. *)
Lemma sorted_repeat (a : string) (l : list string) :
  StronglySorted le (a :: l) -> In a l -> exists l', l = a :: l'.
Proof.
  intros Hs Hin. inversion Hs as [| ? ? Hl Ha]; subst.
  destruct l as [| b l']; [destruct Hin |].
  exists l'. f_equal.
  inversion Hl as [| ? ? _ Hb]; subst.
  rewrite Forall_forall in Ha, Hb.
  destruct Hin as [-> | Hin]; [reflexivity |].
  apply le_antisym; [apply Hb, Hin | apply Ha; now left].
Qed.

End SortFacts.

(** ** Objects filled key by key *)

Module AssignFacts.

Import JsObject JsObjectFacts SortFacts.

Section Facts.
Context {V : Type}.
Implicit Types (o source target : props V) (k : string) (ks : list string).

Lemma get_map_values (f : V -> V) o k :
  get (map_values f o) k = option_map f (get o k).
Proof.
  induction o as [| [k' v'] o IH]; simpl; [reflexivity |].
  destruct (k' =? k)%string; [reflexivity | apply IH].
Qed.

Lemma keys_map_values (f : V -> V) o : keys (map_values f o) = keys o.
Proof. unfold keys, map_values. rewrite map_map. reflexivity. Qed.

Lemma assign_from_proto source target :
  assign_from source target "__proto__" = target.
Proof. unfold assign_from. now destruct (get source "__proto__"). Qed.

Lemma assign_from_twice source target k :
  assign_from source (assign_from source target k) k
  = assign_from source target k.
Proof.
  unfold assign_from. destruct (get source k) as [v |]; [| reflexivity].
  destruct (String.eqb_spec k "__proto__") as [-> | Hne];
    [reflexivity |].
  apply set_same. rewrite get_set, String.eqb_refl.
  apply String.eqb_neq in Hne. now rewrite Hne.
Qed.

Lemma get_fold_assign source ks target k :
  get (fold_left (assign_from source) ks target) k
  = if JsSet.has ks k && nonproto k
    then match get source k with
         | Some v => Some v
         | None => get target k
         end
    else get target k.
Proof.
  revert target. induction ks as [| k0 ks IH]; intros target; simpl;
    [reflexivity |].
  rewrite IH. unfold JsSet.has. simpl. unfold assign_from at 1 2.
  destruct (String.eqb_spec k k0) as [<- | Hne]; simpl.
  - destruct (get source k) as [v |] eqn:E.
    + rewrite get_set, String.eqb_refl. unfold nonproto. simpl.
      destruct (negb (k =? "__proto__")%string).
      * now rewrite andb_true_r; destruct (existsb _ ks).
      * now rewrite andb_false_r.
    + now destruct (existsb _ ks && nonproto k), (nonproto k).
  - destruct (get source k0) as [v0 |]; [| reflexivity].
    rewrite get_set.
    destruct (String.eqb_spec k0 k); [congruence |]. reflexivity.
Qed.

Lemma get_assign_each source ks k :
  get (assign_each source ks) k
  = if JsSet.has ks k && nonproto k then get source k else None.
Proof.
  unfold assign_each. rewrite get_fold_assign. simpl.
  now destruct (get source k).
Qed.

Lemma keys_assign_each source ks k :
  In k (keys (assign_each source ks))
  <-> In k ks /\ k <> "__proto__" /\ In k (keys source).
Proof.
  assert (Hget := get_assign_each source ks k).
  destruct (JsSet.has ks k) eqn:Hk; unfold nonproto in Hget;
    destruct (String.eqb_spec k "__proto__") as [Hp | Hp]; simpl in Hget.
  - split.
    + intros H. apply In_keys_get in H. destruct H as [v H]. congruence.
    + tauto.
  - apply JsSetFacts.has_In in Hk. split.
    + intros H. repeat split; try assumption.
      destruct (get source k) eqn:E.
      * apply get_Some_In in E. change k with (fst (k, v)).
        now apply in_map.
      * apply In_keys_get in H. destruct H. congruence.
    + intros (_ & _ & H). apply In_keys_get in H. destruct H as [v H].
      rewrite H in Hget. apply get_Some_In in Hget.
      change k with (fst (k, v)). now apply in_map.
  - split.
    + intros H. apply In_keys_get in H. destruct H as [v H]. congruence.
    + tauto.
  - split.
    + intros H. apply In_keys_get in H. destruct H as [v H]. congruence.
    + intros (H & _). apply JsSetFacts.has_In in H. congruence.
Qed.

Lemma NoDup_keys_fold_assign source ks target :
  NoDup (keys target) ->
  NoDup (keys (fold_left (assign_from source) ks target)).
Proof.
  revert target. induction ks as [| k ks IH]; intros target H; simpl;
    [assumption |].
  apply IH. unfold assign_from. destruct (get source k); [| assumption].
  now apply NoDup_keys_set.
Qed.

Lemma NoDup_keys_assign_each source ks :
  NoDup (keys (assign_each source ks)).
Proof. apply NoDup_keys_fold_assign. constructor. Qed.

(** The result depends on the values of the source at the listed keys
    only. *)
Lemma fold_assign_ext source source' ks target :
  (forall k, In k ks -> get source k = get source' k) ->
  fold_left (assign_from source) ks target
  = fold_left (assign_from source') ks target.
Proof.
  revert target. induction ks as [| k ks IH]; intros target H; simpl;
    [reflexivity |].
  unfold assign_from at 2 4. rewrite <- (H k) by now left.
  apply IH. intros k' Hk'. apply H. now right.
Qed.

(** The keys that count in a sorted list: [__proto__] and repetitions
    left out. *)
Lemma fold_assign_canonical source ks target :
  StronglySorted le ks ->
  fold_left (assign_from source)
    (nodup string_dec (filter nonproto ks)) target
  = fold_left (assign_from source) ks target.
Proof.
  intros Hs. revert target.
  induction Hs as [| a l Hl IH Ha]; intros target; [reflexivity |].
  cbn [filter fold_left]. unfold nonproto at 1.
  destruct (String.eqb_spec a "__proto__") as [-> | Hne]; cbn [negb].
  - rewrite assign_from_proto. apply IH.
  - cbn [nodup].
    destruct (in_dec string_dec a (filter nonproto l)) as [Hin | Hnot].
    + apply filter_In in Hin. destruct Hin as [Hin _].
      destruct (sorted_repeat a l) as [l' ->];
        [now constructor | assumption |].
      rewrite IH. cbn [fold_left]. now rewrite assign_from_twice.
    + cbn [fold_left]. apply IH.
Qed.

End Facts.

End AssignFacts.
(** ** The syntax repairer *)

Section RepairFacts.

Variable JSON_parse : string -> completion Json.
Variable Evaluated : Type.
Variable js_eval : string -> Held -> evaluation Evaluated.
Variable JSON_stringify_any : Evaluated -> Held -> evaluation (option string).

Local Abbreviation repair :=
  (correctJsonSyntax JSON_parse Evaluated js_eval JSON_stringify_any).

(** Every way through the nested [try] blocks that ends, ends in a
    [return]. *)
Lemma correctJsonSyntax_returns jsonStr c :
  repair jsonStr = Some c ->
  exists r, c = Returns r /\ RepairResult jsonStr r.
Proof.
  unfold correctJsonSyntax.
  destruct (JSON_parse jsonStr) as [v | errorMessage].
  - intros [= <-]. eexists; split; [reflexivity | constructor].
  - destruct (JSON_parse (Rewrite.apply_fixes jsonStr)).
    + intros [= <-]. eexists; split; [reflexivity | constructor].
    + destruct (js_eval _ _) as [[obj | e] held |]; [| | discriminate].
      * destruct (JSON_stringify_any obj held) as [[text | e] held' |];
          [| | discriminate];
          intros [= <-]; eexists; split; try reflexivity; constructor.
      * intros [= <-]. eexists; split; [reflexivity | constructor].
Qed.

(** The call does not return exactly when the third stage is reached and
    does not return. *)
Lemma correctJsonSyntax_pending jsonStr :
  repair jsonStr = None
  <-> (exists cause, JSON_parse jsonStr = Throws cause)
      /\ (exists cause,
            JSON_parse (Rewrite.apply_fixes jsonStr) = Throws cause)
      /\ evaluator_hangs Evaluated js_eval JSON_stringify_any jsonStr.
Proof.
  unfold correctJsonSyntax, evaluator_hangs.
  destruct (JSON_parse jsonStr) as [v | errorMessage].
  { split; [discriminate | intros [[c H] _]; discriminate]. }
  destruct (JSON_parse (Rewrite.apply_fixes jsonStr)) as [v | cause'].
  { split; [discriminate | intros (_ & [c H] & _); discriminate]. }
  destruct (js_eval _ _) as [[obj | e] held |].
  - destruct (JSON_stringify_any obj held) as [[text | e] held' |] eqn:E.
    + split; [discriminate |].
      intros (_ & _ & [H | (obj' & held0 & [= <- <-] & H)]);
        [discriminate | congruence].
    + split; [discriminate |].
      intros (_ & _ & [H | (obj' & held0 & [= <- <-] & H)]);
        [discriminate | congruence].
    + split; [| reflexivity]. intros _.
      split; [eauto |]. split; [eauto |]. right. eauto.
  - split; [discriminate |].
    intros (_ & _ & [H | (obj' & held0 & H & _)]); discriminate.
  - split; [| reflexivity]. intros _.
    split; [eauto |]. split; [eauto |]. now left.
Qed.

(** C5.  A text that [JSON.parse] accepts is returned character for
    character, with no error, and the result does not carry the note of
    the aggressive repair. *)
Theorem valid_text_returned_unchanged (t : string) (v : Json) :
  JSON_parse t = Returns v ->
  exists r,
    repair t = Some (Returns r)
    /\ corrected r = Text t
    /\ error r = None
    /\ usedAggressiveRepair r = false.
Proof.
  intros Hparse.
  exists {| corrected := Text t; error := None |}.
  unfold correctJsonSyntax.
  rewrite Hparse. repeat split; reflexivity.
Qed.

(** C6.  On the text [{name: 'Bob', age: 30,}], which [JSON.parse]
    refuses, the rewrites give the text with the keys and the name in
    double quotes and without the trailing comma; it parses, so the result
    is that text without error and without the note of the aggressive
    repair, whatever the evaluator would have answered. *)
Theorem bob_repaired_by_rewrites (cause : string) (v : Json) :
  JSON_parse "{name: 'Bob', age: 30,}" = Throws cause ->
  JSON_parse (JsString.dq "{`name`: `Bob`, `age`: 30}") = Returns v ->
  Rewrite.apply_fixes "{name: 'Bob', age: 30,}"
  = JsString.dq "{`name`: `Bob`, `age`: 30}"
  /\ exists r,
       repair "{name: 'Bob', age: 30,}" = Some (Returns r)
       /\ corrected r = Text (JsString.dq "{`name`: `Bob`, `age`: 30}")
       /\ error r = None
       /\ usedAggressiveRepair r = false.
Proof.
  intros Hdirect Hfixed.
  assert (Hfix : Rewrite.apply_fixes "{name: 'Bob', age: 30,}"
                 = JsString.dq "{`name`: `Bob`, `age`: 30}")
    by (vm_compute; reflexivity).
  split; [exact Hfix |].
  exists {| corrected := Text (JsString.dq "{`name`: `Bob`, `age`: 30}");
            error := None |}.
  unfold correctJsonSyntax.
  rewrite Hdirect, Hfix, Hfixed. repeat split; reflexivity.
Qed.

(** X28.  What the repairer does where the third stage is reached.  It
    never throws: a call that ends returns a result record, of one of the
    four shapes; and a call ends unless the evaluation of the text, or
    the serialisation of its value, does not.  When the direct parse and
    the parse of the rewritten text fail and the third stage throws, the
    record holds what [jsonStr] then holds, the original text unless the
    evaluated text assigned to it, and the message
    [Could not fix JSON. Original error: ] followed by the message of the
    first parse failure.  When the third stage returns, the record holds
    what the serialiser gave, [undefined] for a value without JSON text,
    and the note of the aggressive repair. *)
Theorem repair_never_throws (jsonStr : string) :
  (forall c,
      repair jsonStr = Some c ->
      exists r, c = Returns r /\ RepairResult jsonStr r)
  /\ (repair jsonStr = None
      <-> (exists cause, JSON_parse jsonStr = Throws cause)
          /\ (exists cause,
                JSON_parse (Rewrite.apply_fixes jsonStr) = Throws cause)
          /\ evaluator_hangs Evaluated js_eval JSON_stringify_any jsonStr)
  /\ (forall cause cause' jsonStr',
        JSON_parse jsonStr = Throws cause ->
        JSON_parse (Rewrite.apply_fixes jsonStr) = Throws cause' ->
        evaluator_throws Evaluated js_eval JSON_stringify_any jsonStr
          jsonStr' ->
        repair jsonStr
        = Some
            (Returns
               {| corrected := jsonStr';
                  error := Some ("Could not fix JSON. Original error: "
                                 ++ cause)%string |}))
  /\ (forall cause cause' obj held text held',
        JSON_parse jsonStr = Throws cause ->
        JSON_parse (Rewrite.apply_fixes jsonStr) = Throws cause' ->
        js_eval ("(" ++ jsonStr ++ ")")%string (Text jsonStr)
        = Ends (Returns obj) held ->
        JSON_stringify_any obj held = Ends (Returns text) held' ->
        repair jsonStr
        = Some
            (Returns
               {| corrected := of_serialised text;
                  error := Some aggressiveNote |})).
Proof.
  split; [| split; [| split]].
  - apply correctJsonSyntax_returns.
  - apply correctJsonSyntax_pending.
  - intros cause cause' jsonStr' Hdirect Hfixed Heval.
    unfold correctJsonSyntax.
    rewrite Hdirect, Hfixed.
    destruct Heval as [[e He] | (obj & held & e & Hobj & He)].
    + rewrite He; reflexivity.
    + rewrite Hobj, He; reflexivity.
  - intros cause cause' obj held text held' Hdirect Hfixed Hobj Htext.
    unfold correctJsonSyntax.
    now rewrite Hdirect, Hfixed, Hobj, Htext.
Qed.

End RepairFacts.

(** ** Strings *)

Module StringFacts.

Import JsString.

Lemma length_append (a b : string) :
  String.length (a ++ b) = String.length a + String.length b.
Proof. induction a as [| c a IH]; simpl; [reflexivity | now rewrite IH]. Qed.

Lemma append_assoc (a b c : string) :
  ((a ++ b) ++ c = a ++ b ++ c)%string.
Proof. induction a as [| x a IH]; simpl; [reflexivity | now rewrite IH]. Qed.

Lemma append_empty_r (a : string) : (a ++ "")%string = a.
Proof. induction a as [| x a IH]; simpl; [reflexivity | now rewrite IH]. Qed.

Lemma append_inj_l (a b c : string) :
  (a ++ b)%string = (a ++ c)%string -> b = c.
Proof.
  induction a as [| x a IH]; simpl; [tauto |].
  intros [= H]. auto.
Qed.

Lemma length_substring_0 (n : nat) (s : string) :
  String.length (substring 0 n s) = Nat.min n (String.length s).
Proof.
  revert s. induction n as [| n IH]; intros [| c s]; simpl; try reflexivity.
  now rewrite IH.
Qed.

Lemma substring_0_append (p q : string) :
  substring 0 (String.length p) (p ++ q) = p.
Proof.
  induction p as [| c p IH]; simpl.
  - now destruct q.
  - now rewrite IH.
Qed.

End StringFacts.

(** ** The formatter *)

Section FormatFacts.

Import JsString JsObject JsObjectFacts SortFacts AssignFacts.

Variable processingOptions : ProcessingOptions.

Local Abbreviation format := (formatJsonStructure processingOptions).
Local Abbreviation member := (formatMember processingOptions).
Local Abbreviation trim := (trimValue processingOptions).

(** A truncated string is longer than the limit and is truncated to
    itself. *)
Lemma trimValue_idempotent (value : Json) : trim (trim value) = trim value.
Proof.
  destruct value as [| | | s | |]; try reflexivity.
  unfold trimValue.
  destruct (trimLongValues processingOptions) eqn:Hon; [| reflexivity].
  cbn [andb].
  destruct (Z.of_nat (String.length s) >? maxValueLength processingOptions)%Z
    eqn:Hlong; [| now rewrite Hlong].
  set (n := Z.to_nat (maxValueLength processingOptions)).
  assert (Hn : String.length (substring_to (maxValueLength processingOptions) s)
               = n).
  { unfold substring_to. fold n. rewrite StringFacts.length_substring_0.
    apply Z.gtb_lt in Hlong. lia. }
  assert (Hlong' :
            (Z.of_nat
               (String.length
                  (substring_to (maxValueLength processingOptions) s ++ "..."))
             >? maxValueLength processingOptions)%Z = true).
  { rewrite StringFacts.length_append, Hn. simpl String.length.
    apply Z.gtb_lt. lia. }
  rewrite Hlong'. f_equal. f_equal.
  unfold substring_to at 1. fold n. rewrite <- Hn.
  apply StringFacts.substring_0_append.
Qed.

(** The formatter on an object, by its two loops. *)
Lemma format_object (members : props Json) :
  format (JObj members)
  = JObj (assign_each (map_values member members)
            (sort_keys (keys members))).
Proof.
  simpl. f_equal. f_equal.
  induction members as [| [key value] rest IH]; simpl; [reflexivity |].
  now rewrite IH.
Qed.

Lemma trim_string (s : string) : exists s', trim (JStr s) = JStr s'.
Proof. unfold trimValue. destruct (_ && _); eauto. Qed.

Lemma member_idempotent (value : Json) :
  format (format value) = format value ->
  member (member value) = member value.
Proof.
  intros IH. destruct value as [| b | n | s | items | members];
    try reflexivity.
  - change (member (JStr s)) with (trim (JStr s)).
    destruct (trim_string s) as [s' E]. rewrite E.
    change (member (JStr s')) with (trim (JStr s')).
    rewrite <- E. apply trimValue_idempotent.
  - change (member (JArr items)) with (format (JArr items)).
    change (format (JArr items)) with (JArr (map format items)) at 1.
    change (member (JArr (map format items)))
      with (format (JArr (map format items))).
    exact IH.
  - change (member (JObj members)) with (format (JObj members)).
    rewrite format_object in *.
    exact IH.
Qed.

(** C8.  The formatter is idempotent, for every value and every setting
    of [trimLongValues] and [maxValueLength]. *)
Theorem formatJsonStructure_idempotent (value : Json) :
  formatJsonStructure processingOptions
    (formatJsonStructure processingOptions value)
  = formatJsonStructure processingOptions value.
Proof.
  induction value as [| b | n | s | items IH | members IH]
    using json_induction; try reflexivity.
  - simpl. f_equal. rewrite map_map.
    apply map_ext_Forall. exact IH.
  - rewrite format_object.
    set (source := map_values member members).
    set (ks := sort_keys (keys members)).
    set (result := assign_each source ks).
    rewrite format_object. f_equal.
    assert (Hkeys : forall k, In k ks -> In k (keys source)).
    { intros k Hk. unfold source. rewrite keys_map_values.
      now apply In_sort_keys. }
    assert (Hsorted : sort_keys (keys result)
                      = nodup string_dec (filter nonproto ks)).
    { apply sorted_unique.
      - apply sort_keys_sorted.
      - apply nodup_sorted, filter_sorted, sort_keys_sorted.
      - apply (Permutation_NoDup (Permutation_sym (sort_keys_perm _))).
        apply NoDup_keys_assign_each.
      - apply NoDup_nodup.
      - intros k. rewrite In_sort_keys, nodup_In, filter_In.
        unfold result. rewrite keys_assign_each. unfold nonproto.
        rewrite negb_true_iff, String.eqb_neq.
        split; [tauto |]. intros [Hk Hp]. auto. }
    rewrite Hsorted. unfold assign_each.
    rewrite (fold_assign_ext (map_values member result) source).
    + apply fold_assign_canonical, sort_keys_sorted.
    + intros k Hk. apply nodup_In, filter_In in Hk.
      destruct Hk as [Hk Hp].
      rewrite get_map_values. unfold result.
      rewrite get_assign_each.
      apply JsSetFacts.has_In in Hk. rewrite Hk, Hp. simpl.
      unfold source. rewrite get_map_values.
      destruct (get members k) as [v |] eqn:E; [| reflexivity].
      simpl. f_equal. apply member_idempotent.
      apply get_Some_In in E. rewrite Forall_forall in IH.
      apply (IH (k, v) E).
Qed.

End FormatFacts.

(** ** The field extractor *)

Section ExtractFacts.

Import JsString.

Variable processingOptions : ProcessingOptions.

Local Abbreviation extract := (extractFieldsFromJson processingOptions).

(** The step of the loop over the sampled elements of an array. *)
Local Abbreviation sample prefix depth maxDepth :=
  (fun arrayFields item =>
     if is_object item
     then JsSet.add_all arrayFields (extract item prefix (depth + 1)%Z maxDepth)
     else JsSet.add arrayFields (strip_dot prefix)).

(** What the loop over the members of an object pushes for a member. *)
Local Abbreviation pushed prefix depth maxDepth :=
  (fun kv : string * Json =>
     if is_object (snd kv)
     then extract (snd kv) ((prefix ++ fst kv) ++ ".")%string
            (depth + 1)%Z maxDepth
     else [(prefix ++ fst kv)%string]).

Lemma extract_cutoff json prefix depth maxDepth :
  (depth >? maxDepth)%Z = true ->
  extract json prefix depth maxDepth = [strip_dot prefix].
Proof. intros H. destruct json; simpl; now rewrite H. Qed.

Lemma extract_array items prefix depth maxDepth :
  (depth >? maxDepth)%Z = false ->
  extract (JArr items) prefix depth maxDepth
  = if preserveArrays processingOptions || (length items =? 0)%nat
    then [strip_dot prefix]
    else fold_left (sample prefix depth maxDepth) (firstn 3 items) [].
Proof.
  intros H. cbn -[firstn fold_left]. rewrite H.
  destruct (preserveArrays processingOptions || _); [reflexivity |].
  generalize (@nil string) as arrayFields. generalize 3%nat as n.
  induction items as [| item rest IH]; intros n arrayFields.
  - now destruct n.
  - destruct n as [| n]; [reflexivity |]. cbn [firstn fold_left]. apply IH.
Qed.

Lemma extract_object members prefix depth maxDepth :
  (depth >? maxDepth)%Z = false ->
  extract (JObj members) prefix depth maxDepth
  = flat_map (pushed prefix depth maxDepth) members.
Proof.
  intros H. simpl. rewrite H.
  induction members as [| [key value] rest IH]; simpl; [reflexivity |].
  now rewrite IH.
Qed.

Lemma extract_scalar json prefix depth maxDepth :
  is_object json = false ->
  forall path,
    In path (extract json prefix depth maxDepth) -> path = strip_dot prefix.
Proof.
  intros H path. destruct json; try discriminate; simpl;
    destruct (depth >? maxDepth)%Z; simpl; intuition.
Qed.

(** A path found by the loop over the samples comes from one of them. *)
Lemma In_samples prefix depth maxDepth items arrayFields path :
  In path (fold_left (sample prefix depth maxDepth) items arrayFields) ->
  In path arrayFields
  \/ path = strip_dot prefix
  \/ exists item,
       In item items
       /\ In path (extract item prefix (depth + 1)%Z maxDepth).
Proof.
  revert arrayFields. induction items as [| item rest IH];
    intros arrayFields; simpl; [tauto |].
  intros H. apply IH in H. destruct H as [H | [H | (x & Hx & H)]].
  - destruct (is_object item).
    + apply JsSetFacts.In_add_all in H. destruct H as [H | H];
        [now left |].
      right. right. exists item. split; [now left | assumption].
    + apply JsSetFacts.In_add in H. tauto.
  - tauto.
  - right. right. exists x. split; [now right | assumption].
Qed.

Lemma NoDup_samples prefix depth maxDepth items arrayFields :
  NoDup arrayFields ->
  NoDup (fold_left (sample prefix depth maxDepth) items arrayFields).
Proof.
  revert arrayFields. induction items as [| item rest IH];
    intros arrayFields H; simpl; [assumption |].
  apply IH. destruct (is_object item).
  - now apply JsSetFacts.NoDup_add_all.
  - now apply JsSetFacts.NoDup_add.
Qed.

Lemma strip_dot_append (q : string) : strip_dot (q ++ ".") = q.
Proof.
  unfold strip_dot.
  assert (H : endsWith_dot (q ++ ".") = true /\ slice_last (q ++ ".") = q).
  { induction q as [| c q [IH1 IH2]]; [split; reflexivity |].
    cbn [append]. destruct (q ++ ".")%string eqn:E.
    - destruct q; discriminate.
    - change (endsWith_dot (String c (String a s)))
        with (endsWith_dot (String a s)).
      change (slice_last (String c (String a s)))
        with (String c (slice_last (String a s))).
      rewrite IH1, IH2. now split. }
  destruct H as [-> ->]. reflexivity.
Qed.

Lemma paths_within_label n prefix v :
  In (strip_dot prefix) (paths_within n prefix v).
Proof. destruct n; now left. Qed.

Lemma In_firstn {A : Type} (n : nat) (l : list A) (x : A) :
  In x (firstn n l) -> In x l.
Proof.
  intros H. rewrite <- (firstn_skipn n l). apply in_or_app. now left.
Qed.

(** Every path the extractor returns labels a value nested no deeper
    than the ceiling allows, counted from the current depth. *)
Lemma extract_within json :
  forall prefix depth maxDepth n path,
    (maxDepth + 1 - depth <= Z.of_nat n)%Z ->
    In path (extract json prefix depth maxDepth) ->
    In path (paths_within n prefix json).
Proof.
  induction json as [| b | x | s | items IH | members IH]
    using json_induction;
    intros prefix depth maxDepth n path Hn Hin;
    destruct (depth >? maxDepth)%Z eqn:Hcut;
    try (rewrite extract_cutoff in Hin by assumption;
         destruct Hin as [<- | []]; apply paths_within_label);
    try (apply extract_scalar in Hin; [| reflexivity];
         subst path; apply paths_within_label).
  - rewrite extract_array in Hin by assumption.
    destruct (preserveArrays processingOptions || _).
    { destruct Hin as [<- | []]. apply paths_within_label. }
    apply In_samples in Hin.
    destruct Hin as [[] | [-> | (item & Hitem & Hin)]];
      [apply paths_within_label |].
    apply In_firstn in Hitem.
    rewrite Z.gtb_ltb in Hcut. apply Z.ltb_ge in Hcut.
    destruct n as [| n']; [lia |].
    cbn [paths_within]. right. apply in_flat_map. exists item.
    split; [assumption |].
    rewrite Forall_forall in IH.
    apply (IH item Hitem prefix (depth + 1)%Z maxDepth); [lia | assumption].
  - rewrite extract_object in Hin by assumption.
    apply in_flat_map in Hin. destruct Hin as ([key value] & Hkv & Hin).
    rewrite Z.gtb_ltb in Hcut. apply Z.ltb_ge in Hcut.
    destruct n as [| n']; [lia |].
    cbn [paths_within]. right. apply in_flat_map. exists (key, value).
    split; [assumption |]. cbn [fst snd] in *.
    destruct (is_object value).
    + rewrite Forall_forall in IH.
      apply (IH (key, value) Hkv _ (depth + 1)%Z maxDepth);
        [lia | assumption].
    + destruct Hin as [<- | []].
      rewrite <- (strip_dot_append (prefix ++ key)) at 1.
      apply paths_within_label.
Qed.

(** Under a prefix that ends with a dot, every path is the prefix
    without the dot or continues the prefix. *)
Lemma extract_extends json :
  forall q depth maxDepth path,
    In path (extract json (q ++ ".") depth maxDepth) ->
    path = q \/ exists s, path = (q ++ "." ++ s)%string.
Proof.
  induction json as [| b | x | s | items IH | members IH]
    using json_induction;
    intros q depth maxDepth path Hin;
    destruct (depth >? maxDepth)%Z eqn:Hcut;
    try (rewrite extract_cutoff in Hin by assumption;
         destruct Hin as [<- | []]; left; apply strip_dot_append);
    try (apply extract_scalar in Hin; [| reflexivity];
         subst path; left; apply strip_dot_append).
  - rewrite extract_array in Hin by assumption.
    destruct (preserveArrays processingOptions || _).
    { destruct Hin as [<- | []]. left. apply strip_dot_append. }
    apply In_samples in Hin.
    destruct Hin as [[] | [-> | (item & Hitem & Hin)]];
      [left; apply strip_dot_append |].
    apply In_firstn in Hitem. rewrite Forall_forall in IH.
    apply (IH item Hitem q _ _ _ Hin).
  - rewrite extract_object in Hin by assumption.
    apply in_flat_map in Hin. destruct Hin as ([key value] & Hkv & Hin).
    cbn [fst snd] in Hin. right.
    destruct (is_object value).
    + rewrite Forall_forall in IH.
      apply (IH (key, value) Hkv) in Hin. cbn [snd] in Hin.
      destruct Hin as [-> | (s & ->)].
      * exists key. apply StringFacts.append_assoc.
      * exists (key ++ "." ++ s)%string.
        now rewrite !StringFacts.append_assoc.
    + destruct Hin as [<- | []]. exists key.
      apply StringFacts.append_assoc.
Qed.

(** What is pushed for the member [key] starts with the path of the
    member, and goes on, if it does, with a dot. *)
Lemma pushed_shape prefix depth maxDepth key value path :
  In path (pushed prefix depth maxDepth (key, value)) ->
  exists t,
    path = (prefix ++ key ++ t)%string
    /\ (t = "" \/ exists s, t = ("." ++ s)%string).
Proof.
  cbn [fst snd]. intros Hin.
  assert (H : path = (prefix ++ key)%string
              \/ exists s, path = ((prefix ++ key) ++ "." ++ s)%string).
  { destruct (is_object value).
    - now apply extract_extends in Hin.
    - destruct Hin as [<- | []]. now left. }
  destruct H as [-> | (s & ->)].
  - exists "". split; [| now left].
    now rewrite StringFacts.append_empty_r.
  - exists ("." ++ s)%string. split; [| right; now exists s].
    apply StringFacts.append_assoc.
Qed.

(** A key without dots is determined by a path that starts with it. *)
Lemma key_unique (k k' t t' : string) :
  (k ++ t)%string = (k' ++ t')%string ->
  no_dot k = true -> no_dot k' = true ->
  (t = "" \/ exists s, t = ("." ++ s)%string) ->
  (t' = "" \/ exists s, t' = ("." ++ s)%string) ->
  k = k'.
Proof.
  revert k'. induction k as [| c k IH]; intros [| c' k']; simpl;
    intros Heq Hk Hk' Ht Ht'.
  - reflexivity.
  - apply andb_prop in Hk'. destruct Hk' as [Hc' _].
    destruct Ht as [-> | (s & ->)]; [discriminate |].
    injection Heq as <- _. discriminate.
  - apply andb_prop in Hk. destruct Hk as [Hc _].
    destruct Ht' as [-> | (s & ->)]; [discriminate |].
    injection Heq as -> _. discriminate.
  - apply andb_prop in Hk, Hk'. destruct Hk as [_ Hk], Hk' as [_ Hk'].
    injection Heq as -> Heq. f_equal. now apply IH.
Qed.

Lemma distinct_NoDup (l : list string) : distinct l = true -> NoDup l.
Proof.
  induction l as [| x l IH]; simpl; [constructor |].
  intros H. apply andb_prop in H. destruct H as [Hx Hl].
  constructor; [| now apply IH].
  rewrite <- JsSetFacts.has_In. now destruct (JsSet.has l x).
Qed.

Lemma plain_keys_object (members : JsObject.props Json) :
  plain_keys (JObj members) = true ->
  NoDup (JsObject.keys members)
  /\ Forall (fun kv => no_dot (fst kv) = true /\ plain_keys (snd kv) = true)
       members.
Proof.
  simpl. intros H. apply andb_prop in H. destruct H as [Hd H].
  split; [now apply distinct_NoDup |]. clear Hd.
  induction members as [| [key value] rest IH]; [constructor |].
  apply andb_prop in H. destruct H as [H Hrest].
  apply andb_prop in H. destruct H as [Hkey Hvalue].
  constructor; [now split | now apply IH].
Qed.

(** With distinct keys free of dots the extractor returns no path
    twice. *)
Lemma extract_NoDup json :
  forall prefix depth maxDepth,
    plain_keys json = true ->
    NoDup (extract json prefix depth maxDepth).
Proof.
  induction json as [| b | x | s | items IH | members IH]
    using json_induction;
    intros prefix depth maxDepth Hplain;
    destruct (depth >? maxDepth)%Z eqn:Hcut;
    try (rewrite extract_cutoff by assumption;
         repeat constructor; simpl; tauto);
    try (simpl; rewrite Hcut; repeat constructor; simpl; tauto).
  - rewrite extract_array by assumption.
    destruct (preserveArrays processingOptions || _);
      [repeat constructor; simpl; tauto |].
    apply NoDup_samples. constructor.
  - rewrite extract_object by assumption.
    apply plain_keys_object in Hplain. destruct Hplain as [Hkeys Hplain].
    induction members as [| [key value] rest IHrest]; [constructor |].
    inversion IH as [| ? ? IHvalue IH']; subst.
    inversion Hplain as [| ? ? [Hkey Hvalue] Hplain']; subst.
    inversion Hkeys as [| ? ? Hfresh Hkeys']; subst.
    cbn [fst snd] in *. cbn [flat_map]. apply NoDup_app.
    + cbn [fst snd]. destruct (is_object value).
      * now apply IHvalue.
      * repeat constructor; simpl; tauto.
    + now apply IHrest.
    + intros path Hin Hin'.
      apply pushed_shape in Hin. destruct Hin as (t & -> & Ht).
      apply in_flat_map in Hin'.
      destruct Hin' as ([key' value'] & Hkv' & Hin').
      apply pushed_shape in Hin'. destruct Hin' as (t' & Heq & Ht').
      apply StringFacts.append_inj_l in Heq.
      rewrite Forall_forall in Hplain'.
      destruct (Hplain' _ Hkv') as [Hkey' _]. cbn [fst] in Hkey'.
      assert (key = key') by (eapply key_unique; eassumption).
      subst key'. apply Hfresh.
      change key with (fst (key, value')). now apply in_map.
Qed.

(** C9, as the code has it.  Every path returned labels a value nested
    at most [maxDepth + 1] levels below the root, one level more than the
    ceiling; the list has no repetition when the keys of the document
    hold no dot; and it has none when the document is an array, whose
    samples go through a set. *)
Theorem extract_paths_and_repetitions (json : Json) (maxDepth : Z) :
  (forall path,
      In path (extractFieldsFromJson processingOptions json "" 0 maxDepth) ->
      In path (paths_within (Z.to_nat (maxDepth + 1)) "" json))
  /\ (plain_keys json = true ->
      NoDup (extractFieldsFromJson processingOptions json "" 0 maxDepth))
  /\ (forall items,
        json = JArr items ->
        NoDup (extractFieldsFromJson processingOptions json "" 0 maxDepth)).
Proof.
  split; [| split].
  - intros path. apply extract_within. lia.
  - apply extract_NoDup.
  - intros items ->. destruct (0 >? maxDepth)%Z eqn:Hcut.
    + rewrite extract_cutoff by assumption. repeat constructor. simpl. tauto.
    + rewrite extract_array by assumption.
      destruct (preserveArrays processingOptions || _);
        [repeat constructor; simpl; tauto |].
      apply NoDup_samples. constructor.
Qed.

End ExtractFacts.

(** ** The depth ceiling of the pipeline *)

Section PipelineFacts.

Variable processingOptions : ProcessingOptions.
Variable JSON_parse : string -> completion Json.
Variable JSON_stringify_indented : Json -> string.
Variable Evaluated : Type.
Variable js_eval : string -> Held -> evaluation Evaluated.
Variable JSON_stringify_any : Evaluated -> Held -> evaluation (option string).

(** The fields of an entry that is not in error are extracted with the
    ceiling 3, whatever [maxDepth] is in the options. *)
Lemma fields_use_fixed_ceiling text fileName queueItemId generatedId now
  entry :
  processJsonText processingOptions JSON_parse JSON_stringify_indented
    Evaluated js_eval JSON_stringify_any text fileName queueItemId
    generatedId now = Some entry ->
  Entry.status entry <> StatusError ->
  exists formattedJson,
    Entry.fields entry
    = extractFieldsFromJson processingOptions formattedJson "" 0 3.
Proof.
  unfold processJsonText. destruct (JsString.is_blank text); [discriminate |].
  destruct (correctJsonSyntax _ _ _ _ text) as [[correction | e] |];
    [| | discriminate].
  - destruct (parse_held _ _) as [[parsed | e] |]; [| | discriminate];
      cbn [try_catch bind].
    + intros [= <-] _. simpl. eauto.
    + intros [= <-]. simpl. congruence.
  - intros [= <-]. simpl. congruence.
Qed.

End PipelineFacts.

(** C3 on the document [{a: {b: {c: 1}}}] with [maxDepth] set to 1: the
    pipeline stores the path [a.b.c], found below the ceiling of the
    option; the extractor called with that ceiling stops at [a.b], where
    the flattener stops as well. *)
Theorem pipeline_ignores_maxDepth_option (now : string) :
  option_map Entry.fields
    (Samples.process Samples.shallow Samples.text_nested "nested.json" "e4"
       now)
  = Some ["a.b.c"]
  /\ extractFieldsFromJson Samples.shallow Samples.doc_nested "" 0
       (maxDepth Samples.shallow)
     = ["a.b"]
  /\ flattenObject Samples.shallow Writer.JSON_stringify Samples.doc_nested
       "" [] 0
     = [("a.b", JStr (JsString.dq "{`c`:1}"))].
Proof. repeat split; vm_compute; reflexivity. Qed.

(** ** The merged dataset *)

Section DatasetFacts.

Variable processingOptions : ProcessingOptions.
Variable JSON_parse : string -> completion Json.
Variable JSON_stringify : Json -> string.

(** C10.  A schema produced by a merge maps no field to ['unknown']: a
    key of the schema is a key of some record of the dataset, so its set
    of observed types is not empty and the branch for an empty set is not
    taken. *)
Theorem schema_has_no_unknown
  selectedEntries processedEntries generatedId now dataset logged key tag :
  mergeSelectedEntries processingOptions JSON_parse JSON_stringify
    selectedEntries processedEntries generatedId now
  = Merged dataset logged ->
  detectSchemas processingOptions = true ->
  JsObject.get (Dataset.schema dataset) key = Some tag ->
  tag <> "unknown"
  /\ Schema.types (Dataset.records dataset) key <> []
  /\ exists record,
       In record (Dataset.records dataset) /\ In key (Rec.keys record).
Proof.
  intros Hmerge Hdetect Hget.
  apply merged_dataset in Hmerge. cbv zeta in Hmerge.
  destruct Hmerge as (Hrecords & _ & _ & Hschema).
  rewrite <- Hrecords in Hschema. rewrite Hschema in Hget.
  destruct (detectSchemas processingOptions && _); [| discriminate].
  rewrite SchemaFacts.get_infer in Hget.
  destruct (JsSet.has _ key) eqn:Hkey; [| discriminate].
  destruct (negb _); [| discriminate]. simpl in Hget.
  injection Hget as <-.
  apply JsSetFacts.has_In, SchemaFacts.In_allKeys in Hkey.
  destruct Hkey as (record & Hin & Hk).
  destruct (SchemaFacts.keys_get _ _ Hk) as [value Hvalue].
  assert (Hobserved : In (type_tag value)
                        (Schema.types (Dataset.records dataset) key)).
  { apply SchemaFacts.In_types. eauto. }
  assert (Hnonempty : Schema.types (Dataset.records dataset) key <> []).
  { intros E. rewrite E in Hobserved. destruct Hobserved. }
  repeat split; eauto.
  intros Hunknown. apply Hnonempty.
  apply SchemaFacts.assigned_unknown; [| assumption].
  intros t Ht. apply SchemaFacts.In_types in Ht.
  destruct Ht as (r & v & _ & _ & ->). apply SchemaFacts.type_tag_known.
Qed.

(** C1, as the code has it.  [fields] is the union of the field lists the
    merged entries carry, nothing else; every record has the keys
    [_source] and [_timestamp]; and with [detectSchemas] every key of
    every record has an entry in [schema], but for the key [__proto__],
    which an assignment cannot create. *)
Theorem dataset_fields_and_schema
  selectedEntries processedEntries generatedId now dataset logged :
  mergeSelectedEntries processingOptions JSON_parse JSON_stringify
    selectedEntries processedEntries generatedId now
  = Merged dataset logged ->
  (forall field,
      In field (Dataset.fields dataset)
      <-> exists entry,
            In entry processedEntries
            /\ isSelected selectedEntries entry = true
            /\ In field (Entry.fields entry))
  /\ (forall record,
        In record (Dataset.records dataset) ->
        In "_source" (Rec.keys record) /\ In "_timestamp" (Rec.keys record))
  /\ (detectSchemas processingOptions = true ->
      forall record key,
        In record (Dataset.records dataset) ->
        In key (Rec.keys record) ->
        key <> "__proto__" ->
        exists tag, JsObject.get (Dataset.schema dataset) key = Some tag).
Proof.
  intros Hmerge. apply merged_dataset in Hmerge. cbv zeta in Hmerge.
  destruct Hmerge as (Hrecords & _ & Hfields & Hschema).
  rewrite <- Hrecords in Hschema.
  split; [| split].
  - intros field. rewrite Hfields, In_allFields. simpl. split.
    + intros [[] | (entry & Hin & Hf)].
      apply filter_In in Hin. destruct Hin. exists entry. auto.
    + intros (entry & Hin & Hsel & Hf). right. exists entry.
      split; [apply filter_In; auto | assumption].
  - rewrite Hrecords.
    apply Forall_forall.
    apply (merge_invariant processingOptions JSON_parse JSON_stringify
             (fun record =>
                In "_source" (Rec.keys record)
                /\ In "_timestamp" (Rec.keys record))).
    + intros entry item record. apply toRecord_metadata.
    + constructor.
  - intros Hdetect record key Hin Hk Hproto.
    rewrite Hschema, Hdetect. simpl.
    destruct (Dataset.records dataset) as [| r rs] eqn:E; [destruct Hin |].
    simpl. rewrite SchemaFacts.get_infer.
    assert (Hall : JsSet.has (Schema.allKeys (r :: rs)) key = true).
    { apply JsSetFacts.has_In, SchemaFacts.In_allKeys. eauto. }
    rewrite Hall. apply String.eqb_neq in Hproto. rewrite Hproto. simpl.
    eauto.
Qed.

End DatasetFacts.

(** ** Merging the two sample documents *)

Section TwoDocuments.

Import Samples.

Variable processingOptions : ProcessingOptions.
Variable JSON_parse : string -> completion Json.
Variable JSON_stringify : Json -> string.

Hypothesis flatten : flattenNested processingOptions = true.
Hypothesis deep_enough : (1 <= maxDepth processingOptions)%Z.

Lemma within_depth (depth : Z) :
  (depth <= 1)%Z -> (depth >? maxDepth processingOptions)%Z = false.
Proof. intros H. rewrite Z.gtb_ltb. apply Z.ltb_ge. lia. Qed.

(** A document [{a: x, b: {c: y}}] flattens to [{a: x, "b.c": y}]. *)
Lemma flatten_document (x y : Z) :
  flattenObject processingOptions JSON_stringify
    (JObj [("a", num x); ("b", JObj [("c", num y)])]) "" [] 0
  = [("a", num x); ("b.c", num y)].
Proof.
  simpl. rewrite (within_depth 0) by lia. rewrite flatten. simpl.
  rewrite (within_depth 1) by lia. reflexivity.
Qed.

(** The extractor finds the same two paths in such a document under all
    options. *)
Lemma fields_of_document (options : ProcessingOptions) (x y : Z) :
  extractFieldsFromJson options
    (JObj [("a", num x); ("b", JObj [("c", num y)])]) "" 0 3
  = ["a"; "b.c"].
Proof. reflexivity. Qed.

(** C2, as the code has it.  With [flattenNested] and [detectSchemas] and
    a depth ceiling of at least 1, the merge of the entries of
    [{a: 1, b: {c: 2}}] and [{a: 3, b: {c: 4}}] has the two records
    [{a, "b.c", _source, _timestamp}], the schema [number, number,
    string, string] for these four keys, and the fields [a] and [b.c]
    only: the fields are those the entries carry. *)
Theorem merge_of_two_documents
  (selectedEntries : list string) (first second : Entry.t)
  (options1 options2 : ProcessingOptions) (generatedId now : string) :
  detectSchemas processingOptions = true ->
  JSON_parse (Entry.formattedJson first) = Returns doc1 ->
  JSON_parse (Entry.formattedJson second) = Returns doc2 ->
  Entry.fields first = extractFieldsFromJson options1 doc1 "" 0 3 ->
  Entry.fields second = extractFieldsFromJson options2 doc2 "" 0 3 ->
  isSelected selectedEntries first = true ->
  isSelected selectedEntries second = true ->
  mergeSelectedEntries processingOptions JSON_parse JSON_stringify
    selectedEntries [first; second] generatedId now
  = Merged
      {| Dataset.id := generatedId;
         Dataset.name := "Dataset from 2 files";
         Dataset.records :=
           [PlainRecord
              [("a", num 1); ("b.c", num 2);
               ("_source", JStr (Entry.fileName first));
               ("_timestamp", JStr (Entry.timestamp first))];
            PlainRecord
              [("a", num 3); ("b.c", num 4);
               ("_source", JStr (Entry.fileName second));
               ("_timestamp", JStr (Entry.timestamp second))]];
         Dataset.fields := ["a"; "b.c"];
         Dataset.schema :=
           [("a", "number"); ("b.c", "number"); ("_source", "string");
            ("_timestamp", "string")];
         Dataset.timestamp := now |}
      [].
Proof.
  intros Hdetect Hparse1 Hparse2 Hfields1 Hfields2 Hsel1 Hsel2.
  unfold doc1, doc2 in *.
  rewrite fields_of_document in Hfields1, Hfields2.
  unfold mergeSelectedEntries.
  destruct selectedEntries as [| s sel]; [discriminate |].
  cbn [filter]. rewrite Hsel1, Hsel2.
  cbn [fold_left]. unfold mergeEntry at 2. rewrite Hparse1.
  cbn [pushItems]. unfold toRecord at 1. rewrite flatten. cbn [bind].
  rewrite flatten_document.
  unfold mergeEntry. rewrite Hparse2.
  cbn [pushItems]. unfold toRecord. rewrite flatten. cbn [bind].
  rewrite flatten_document.
  rewrite Hfields1, Hfields2, Hdetect.
  reflexivity.
Qed.

End TwoDocuments.

(** ** Entries that are arrays of scalars *)

Section ScalarArrays.

Variable processingOptions : ProcessingOptions.
Variable JSON_parse : string -> completion Json.
Variable JSON_stringify : Json -> string.

Local Abbreviation mergeEntry' :=
  (mergeEntry processingOptions JSON_parse JSON_stringify).

(** The records of a step do not depend on the log. *)
Lemma mergeEntry_records records logged logged' entry :
  fst (mergeEntry' (records, logged) entry)
  = fst (mergeEntry' (records, logged') entry).
Proof.
  unfold mergeEntry.
  destruct (JSON_parse (Entry.formattedJson entry)) as [[] |]; simpl;
    try match goal with
      | |- context [pushItems ?o ?s entry ?items records] =>
          destruct (pushItems o s entry items records) as [r [[] |]]
      | |- context [toRecord ?o ?s entry ?v] =>
          destruct (toRecord o s entry v)
      end; reflexivity.
Qed.

Lemma merge_records entries records logged logged' :
  fst (fold_left mergeEntry' entries (records, logged))
  = fst (fold_left mergeEntry' entries (records, logged')).
Proof.
  revert records logged logged'.
  induction entries as [| e entries IH]; intros records logged logged';
    cbn [fold_left]; [reflexivity |].
  assert (H := mergeEntry_records records logged logged' e).
  destruct (mergeEntry' (records, logged) e) as [r1 l1].
  destruct (mergeEntry' (records, logged') e) as [r2 l2].
  simpl in H. subst r2. apply IH.
Qed.

(** A step only adds to the log. *)
Lemma mergeEntry_log state entry id :
  In id (snd state) -> In id (snd (mergeEntry' state entry)).
Proof.
  destruct state as [records logged]. unfold mergeEntry. simpl.
  intros H.
  destruct (match JSON_parse (Entry.formattedJson entry) with
            | Returns _ => _ | Throws e => _ end) as [r [[] |]]; simpl;
    [assumption | apply in_or_app; now left].
Qed.

Lemma merge_log entries state id :
  In id (snd state) -> In id (snd (fold_left mergeEntry' entries state)).
Proof.
  revert state. induction entries as [| e entries IH]; intros state H;
    cbn [fold_left]; [assumption |].
  apply IH, mergeEntry_log, H.
Qed.

Hypothesis unflattened : flattenNested processingOptions = false.

(** Without flattening an element that is no object makes the assignment
    of [_source] throw. *)
Lemma toRecord_scalar entry item :
  is_object item = false ->
  exists e, toRecord processingOptions JSON_stringify entry item = Throws e.
Proof.
  intros H. unfold toRecord. rewrite unflattened.
  destruct item; try discriminate; simpl; eauto.
Qed.

(** The step of an entry that is a non-empty array of scalars: no record
    is pushed and the entry is reported. *)
Lemma mergeEntry_scalars records logged entry items :
  JSON_parse (Entry.formattedJson entry) = Returns (JArr items) ->
  items <> [] ->
  Forall (fun item => is_object item = false) items ->
  mergeEntry' (records, logged) entry
  = (records, logged ++ [Entry.id entry]).
Proof.
  intros Hparse Hne Hscalar. unfold mergeEntry. rewrite Hparse.
  destruct items as [| item rest]; [congruence |].
  inversion Hscalar as [| ? ? Hitem _]; subst.
  destruct (toRecord_scalar entry item Hitem) as [e He].
  simpl. rewrite He. reflexivity.
Qed.

(** C4, as the code has it.  When [flattenNested] is off, a selected
    entry whose document is a non-empty array of scalars gives no record
    and is reported once by its step, and the merge still returns the
    dataset with the records of the other entries. *)
Theorem scalar_array_entry_is_skipped
  (selectedEntries : list string) (before after : list Entry.t)
  (entry : Entry.t) (items : list Json) (generatedId now : string) :
  isSelected selectedEntries entry = true ->
  JSON_parse (Entry.formattedJson entry) = Returns (JArr items) ->
  items <> [] ->
  Forall (fun item => is_object item = false) items ->
  (forall records logged,
      mergeEntry processingOptions JSON_parse JSON_stringify
        (records, logged) entry
      = (records, logged ++ [Entry.id entry]))
  /\ exists dataset logged,
       mergeSelectedEntries processingOptions JSON_parse JSON_stringify
         selectedEntries (before ++ entry :: after) generatedId now
       = Merged dataset logged
       /\ In (Entry.id entry) logged
       /\ Dataset.records dataset
          = fst (fold_left
                   (mergeEntry processingOptions JSON_parse JSON_stringify)
                   (filter (isSelected selectedEntries) (before ++ after))
                   ([], [])).
Proof.
  intros Hsel Hparse Hne Hscalar.
  assert (Hstep := fun records logged =>
            mergeEntry_scalars records logged entry items
              Hparse Hne Hscalar).
  split; [exact Hstep |].
  destruct (merge_returns processingOptions JSON_parse JSON_stringify
              selectedEntries (before ++ entry :: after) generatedId now
              entry) as (dataset & logged & Hmerge);
    [apply in_or_app; right; now left | assumption |].
  exists dataset, logged. split; [assumption |].
  apply merged_dataset in Hmerge. cbv zeta in Hmerge.
  destruct Hmerge as (Hrecords & Hlogged & _).
  rewrite Hrecords, Hlogged. clear Hrecords Hlogged.
  rewrite !filter_app. cbn [filter]. rewrite Hsel.
  rewrite !fold_left_app. cbn [fold_left].
  destruct (fold_left mergeEntry' (filter _ before) ([], []))
    as [records0 logged0].
  rewrite Hstep. split.
  - apply merge_log. simpl. apply in_or_app. right. now left.
  - apply merge_records.
Qed.

End ScalarArrays.

(** ** The flattener *)

Section FlattenFacts.

Import JsString JsObject JsObjectFacts.

Variable processingOptions : ProcessingOptions.
Variable JSON_stringify : Json -> string.

Local Abbreviation flatten := (flattenObject processingOptions JSON_stringify).

(** The step of the loop over the elements of an array of objects, on
    the index and the result. *)
Local Abbreviation element prefix depth :=
  (fun (state : nat * props Json) (item : Json) =>
     (S (fst state),
      flatten item (prefix ++ of_nat (fst state) ++ ".")%string (snd state)
        (depth + 1)%Z)).

(** The step of the loop over the members of an object. *)
Local Abbreviation member prefix depth :=
  (fun (result : props Json) (kv : string * Json) =>
     if is_object (snd kv) && flattenNested processingOptions
     then flatten (snd kv) ((prefix ++ fst kv) ++ ".")%string result
            (depth + 1)%Z
     else set result (prefix ++ fst kv)%string (snd kv)).

Lemma flatten_cutoff obj prefix result depth :
  (depth >? maxDepth processingOptions)%Z = true ->
  flatten obj prefix result depth
  = set result (slice_last prefix) (JStr (JSON_stringify obj)).
Proof. intros H. destruct obj; simpl; now rewrite H. Qed.

Lemma flatten_scalar obj prefix result depth :
  (depth >? maxDepth processingOptions)%Z = false ->
  is_object obj = false ->
  flatten obj prefix result depth = set result (slice_last prefix) obj.
Proof. intros H Hs. destruct obj; try discriminate; simpl; now rewrite H. Qed.

Lemma flatten_array items prefix result depth :
  (depth >? maxDepth processingOptions)%Z = false ->
  flatten (JArr items) prefix result depth
  = if preserveArrays processingOptions
    then set result (slice_last prefix) (JArr items)
    else match items with
         | [] => set result (slice_last prefix) (JArr [])
         | first :: _ =>
             if is_object first
             then snd (fold_left (element prefix depth) items (0%nat, result))
             else set result (slice_last prefix) (JArr items)
         end.
Proof.
  intros H. cbn -[fold_left]. rewrite H.
  destruct (preserveArrays processingOptions); [reflexivity |].
  destruct items as [| first rest]; [reflexivity |].
  destruct (is_object first); [| reflexivity].
  cbn [fold_left fst snd].
  generalize (flatten first (prefix ++ of_nat 0 ++ ".")%string result
                (depth + 1)%Z) as r.
  generalize 1%nat as index.
  induction rest as [| item l IH]; intros index r; [reflexivity |].
  cbn [fold_left fst snd]. apply IH.
Qed.

Lemma flatten_object members prefix result depth :
  (depth >? maxDepth processingOptions)%Z = false ->
  flatten (JObj members) prefix result depth
  = fold_left (member prefix depth) members result.
Proof.
  intros H. cbn -[fold_left]. rewrite H. revert result.
  induction members as [| [key value] rest IH]; intros result;
    [reflexivity |].
  cbn [fold_left fst snd]. apply IH.
Qed.

(** What holds of the result and is kept by every assignment the
    flattener makes is kept by the flattener.  With [flattenNested] the
    values assigned are never plain objects. *)
Section Invariant.

Variable P : props Json -> Prop.
Hypothesis set_P :
  forall result key value,
    P result ->
    (flattenNested processingOptions = true ->
     forall members, value <> JObj members) ->
    P (set result key value).

Lemma flatten_invariant obj :
  forall prefix result depth,
    P result -> P (flatten obj prefix result depth).
Proof.
  induction obj as [| b | x | s | items IH | members IH]
    using json_induction;
    intros prefix result depth HP;
    destruct (depth >? maxDepth processingOptions)%Z eqn:Hcut;
    try (rewrite flatten_cutoff by assumption; apply set_P;
         [assumption | discriminate]);
    try (rewrite flatten_scalar by (assumption || reflexivity);
         apply set_P; [assumption | discriminate]).
  - rewrite flatten_array by assumption.
    destruct (preserveArrays processingOptions);
      [apply set_P; [assumption | discriminate] |].
    destruct items as [| first rest];
      [apply set_P; [assumption | discriminate] |].
    destruct (is_object first);
      [| apply set_P; [assumption | discriminate]].
    generalize 0%nat as index. revert result HP.
    induction IH as [| item l Hitem _ IHl]; intros result HP index;
      [exact HP |].
    cbn [fold_left fst snd]. apply IHl. now apply Hitem.
  - rewrite flatten_object by assumption. revert result HP.
    induction IH as [| [key value] l Hvalue _ IHl]; intros result HP;
      [exact HP |].
    cbn [fold_left fst snd]. apply IHl.
    destruct (is_object value) eqn:Hobj; cbn [andb].
    + destruct (flattenNested processingOptions) eqn:Hflat.
      * now apply Hvalue.
      * apply set_P; [assumption | discriminate].
    + apply set_P; [assumption |].
      intros _ m ->. discriminate.
Qed.

End Invariant.

Lemma slice_last_append (q : string) : slice_last (q ++ ".") = q.
Proof.
  induction q as [| c q IH]; [reflexivity |].
  cbn [append]. destruct (q ++ ".")%string eqn:E.
  - destruct q; discriminate.
  - change (slice_last (String c (String a s)))
      with (String c (slice_last (String a s))).
    now rewrite IH.
Qed.

(** X1.  With [flattenNested] no value the flattener stores is a plain
    object: a nested object is entered, or stored as text below the depth
    ceiling. *)
Theorem flatten_stores_no_object obj prefix result depth :
  flattenNested processingOptions = true ->
  (forall key value members, In (key, value) result -> value <> JObj members) ->
  forall key value members,
    In (key, value)
      (flattenObject processingOptions JSON_stringify obj prefix result
         depth) ->
    value <> JObj members.
Proof.
  intros Hflat Hresult.
  apply (flatten_invariant
           (fun result =>
              forall key value members,
                In (key, value) result -> value <> JObj members));
    [| exact Hresult].
  intros r k v Hr Hv key value members Hin.
  apply In_set in Hin. destruct Hin as [[= -> ->] | Hin].
  - now apply Hv.
  - now apply (Hr key).
Qed.

(** The keys the flattener adds are the paths the extractor returns,
    when both keep arrays whole and stop at the same depth. *)
Lemma flatten_keys_extract obj :
  preserveArrays processingOptions = true ->
  flattenNested processingOptions = true ->
  forall prefix result depth key,
    strip_dot prefix = slice_last prefix ->
    obj <> JNull ->
    In key (keys (flatten obj prefix result depth))
    <-> In key (keys result)
        \/ (key <> "__proto__"
            /\ In key
                 (extractFieldsFromJson processingOptions obj prefix depth
                    (maxDepth processingOptions))).
Proof.
  intros Hkeep Hflat.
  assert (Hleaf : forall json prefix (result : props Json) depth key value,
             strip_dot prefix = slice_last prefix ->
             extractFieldsFromJson processingOptions json prefix depth
               (maxDepth processingOptions) = [strip_dot prefix] ->
             In key (keys (set result (slice_last prefix) value))
             <-> In key (keys result)
                 \/ (key <> "__proto__"
                     /\ In key
                          (extractFieldsFromJson processingOptions json
                             prefix depth (maxDepth processingOptions)))).
  { intros json prefix result depth key value Hgood ->.
    rewrite keys_set, Hgood. simpl. split.
    - intros [[-> Hp] | H]; auto.
    - intros [H | [Hp [<- | []]]]; auto. }
  induction obj as [| b | x | s | items IH | members IH]
    using json_induction;
    intros prefix result depth key Hgood Hnull;
    [congruence | | | | |];
    destruct (depth >? maxDepth processingOptions)%Z eqn:Hcut;
    try (rewrite flatten_cutoff by assumption;
         apply Hleaf; [assumption | now apply extract_cutoff]);
    try (rewrite flatten_scalar by (assumption || reflexivity);
         apply Hleaf; [assumption | simpl; now rewrite Hcut]).
  - rewrite flatten_array by assumption. rewrite Hkeep.
    apply Hleaf; [assumption |].
    rewrite extract_array by assumption. now rewrite Hkeep.
  - rewrite flatten_object, extract_object by assumption.
    clear Hnull. revert result.
    induction IH as [| [k v] l Hv _ IHl]; intros result.
    + simpl. tauto.
    + cbn [snd] in Hv. cbn [fold_left flat_map fst snd].
      rewrite IHl, in_app_iff.
      rewrite Hflat, andb_true_r.
      destruct (is_object v) eqn:Hobj.
      * rewrite (Hv ((prefix ++ k) ++ ".")%string result (depth + 1)%Z key).
        -- tauto.
        -- now rewrite strip_dot_append, slice_last_append.
        -- intros ->. discriminate.
      * rewrite keys_set. simpl. intuition (subst; auto).
Qed.

(** X2.  With [preserveArrays] and [flattenNested], the keys of the
    flattened record of a document other than [null] are the paths the
    extractor returns with the ceiling of the option, but for a key
    [__proto__]. *)
Theorem flattened_keys_are_fields obj key :
  preserveArrays processingOptions = true ->
  flattenNested processingOptions = true ->
  obj <> JNull ->
  In key (keys (flatten obj "" [] 0))
  <-> key <> "__proto__"
      /\ In key
           (extractFieldsFromJson processingOptions obj "" 0
              (maxDepth processingOptions)).
Proof.
  intros Hkeep Hflat Hnull.
  rewrite (flatten_keys_extract obj Hkeep Hflat "" [] 0%Z key eq_refl Hnull).
  simpl. tauto.
Qed.

(** X3.  When, besides, the keys of every object of the document are
    distinct and free of dots, no two paths meet in one key: the keys of
    the flattened record are the extracted paths, each once. *)
Theorem flattened_keys_without_collision obj :
  preserveArrays processingOptions = true ->
  flattenNested processingOptions = true ->
  obj <> JNull ->
  plain_keys obj = true ->
  Permutation (keys (flatten obj "" [] 0))
    (filter nonproto
       (extractFieldsFromJson processingOptions obj "" 0
          (maxDepth processingOptions))).
Proof.
  intros Hkeep Hflat Hnull Hplain. apply NoDup_Permutation.
  - apply (flatten_invariant (fun result => NoDup (keys result))).
    + intros result key value H _. now apply NoDup_keys_set.
    + constructor.
  - now apply NoDup_filter, extract_NoDup.
  - intros key.
    rewrite (flatten_keys_extract obj Hkeep Hflat "" [] 0%Z key eq_refl Hnull).
    rewrite filter_In. unfold nonproto.
    rewrite negb_true_iff, String.eqb_neq. simpl. tauto.
Qed.

End FlattenFacts.
(** ** Records and their metadata *)

Module RecFacts.

Import JsString JsObjectFacts.

Lemma of_uint_no_underscore (d : Decimal.uint) :
  Exporter.startsWith_underscore (NilEmpty.string_of_uint d) = false.
Proof. destruct d; reflexivity. Qed.

(** No index of an array starts with an underscore. *)
Lemma get_indexed_underscore (items : list Json) (k : string) :
  Exporter.startsWith_underscore k = true ->
  JsObject.get (Rec.indexed items) k = None.
Proof.
  intros Hk. apply get_None_iff. intros Hin.
  unfold JsObject.keys, Rec.indexed in Hin.
  apply in_map_iff in Hin. destruct Hin as ([k' v] & Hfst & Hin).
  simpl in Hfst. subst k'.
  apply in_combine_l, in_map_iff in Hin. destruct Hin as (n & <- & _).
  unfold of_nat in Hk. now rewrite of_uint_no_underscore in Hk.
Qed.

(** Reading a record after the assignment of a metadata property. *)
Lemma get_assign (r : JsRecord) (name : string) (v : Json) (k : string) :
  Exporter.startsWith_underscore name = true ->
  name <> "__proto__" ->
  Rec.get (Rec.assign r name v) k
  = if (name =? k)%string then Some v else Rec.get r k.
Proof.
  intros Hu Hp. apply String.eqb_neq in Hp.
  destruct r as [members | items named]; unfold Rec.get;
    cbn [Rec.assign Rec.own].
  - now rewrite get_set, Hp, andb_true_r.
  - rewrite !get_app. cbn [JsObject.get].
    rewrite get_set, Hp, andb_true_r.
    destruct (String.eqb_spec name k) as [<- | Hne].
    + rewrite get_indexed_underscore by assumption.
      destruct (String.eqb_spec "length" name) as [<- | _];
        [discriminate | reflexivity].
    + reflexivity.
Qed.

End RecFacts.

(** ** More on the merge *)

Section MergeMore.

Import JsObjectFacts.

Variable processingOptions : ProcessingOptions.
Variable JSON_parse : string -> completion Json.
Variable JSON_stringify : Json -> string.

Local Abbreviation toRecord'' :=
  (toRecord processingOptions JSON_stringify).
Local Abbreviation pushItems'' :=
  (pushItems processingOptions JSON_stringify).
Local Abbreviation mergeEntry'' :=
  (mergeEntry processingOptions JSON_parse JSON_stringify).
Local Abbreviation merge'' :=
  (mergeSelectedEntries processingOptions JSON_parse JSON_stringify).

(** X4.  A merge is refused exactly when no processed entry is both
    selected and free of an error status; otherwise it returns a
    dataset. *)
Theorem merge_refused_without_usable_entry
  selectedEntries processedEntries generatedId now :
  (exists message,
      merge'' selectedEntries processedEntries generatedId now
      = MergeRefused message)
  <-> forall entry,
        In entry processedEntries -> isSelected selectedEntries entry = false.
Proof.
  unfold mergeSelectedEntries.
  destruct selectedEntries as [| s sel].
  - split; [reflexivity | eauto].
  - destruct (filter (isSelected (s :: sel)) processedEntries)
      as [| e es] eqn:E.
    + split; [| eauto]. intros _ entry Hin.
      destruct (isSelected (s :: sel) entry) eqn:Hsel; [| reflexivity].
      assert (H : In entry (filter (isSelected (s :: sel)) processedEntries))
        by (apply filter_In; auto).
      rewrite E in H. destruct H.
    + assert (He : In e (filter (isSelected (s :: sel)) processedEntries))
        by (rewrite E; now left).
      apply filter_In in He. destruct He as [Hin Hsel].
      destruct (fold_left _ (e :: es) _) as [records logged].
      split.
      * intros [message H]. discriminate.
      * intros H. rewrite (H e Hin) in Hsel. discriminate.
Qed.

(** The records of a merge come from the merged entries. *)
Section Provenance.

Variable Q : Entry.t -> JsRecord -> Prop.
Hypothesis toRecord_Q :
  forall entry item record, toRecord'' entry item = Returns record ->
                            Q entry record.

Local Abbreviation from entries :=
  (fun record => exists entry : Entry.t, In entry entries /\ Q entry record).

Lemma pushItems_provenance entries entry items records :
  In entry entries ->
  Forall (from entries) records ->
  Forall (from entries) (fst (pushItems'' entry items records)).
Proof.
  intros Hin. revert records.
  induction items as [| item rest IH]; intros records H;
    simpl; [assumption |].
  destruct (toRecord'' entry item) as [record |] eqn:E; [| assumption].
  apply IH. apply Forall_app. split; [assumption |].
  constructor; [| constructor]. exists entry. split; [assumption |].
  eapply toRecord_Q, E.
Qed.

Lemma mergeEntry_provenance entries state entry :
  In entry entries ->
  Forall (from entries) (fst state) ->
  Forall (from entries) (fst (mergeEntry'' state entry)).
Proof.
  destruct state as [records logged]. simpl. intros Hin H.
  unfold mergeEntry.
  assert (Hpush : forall items,
             Forall (from entries) (fst (pushItems'' entry items records)))
    by (intros; now apply pushItems_provenance).
  destruct (JSON_parse (Entry.formattedJson entry)) as [parsedJson | e].
  - destruct parsedJson;
      match goal with
      | |- context [pushItems'' entry ?items records] =>
          specialize (Hpush items);
          destruct (pushItems'' entry items records) as [records' [[] | e]]
      | |- context [toRecord'' entry ?v] =>
          specialize (Hpush [v]); simpl in Hpush;
          destruct (toRecord'' entry v)
      end; assumption.
  - assumption.
Qed.

Lemma merge_provenance entries merged state :
  incl merged entries ->
  Forall (from entries) (fst state) ->
  Forall (from entries) (fst (fold_left mergeEntry'' merged state)).
Proof.
  revert state. induction merged as [| e merged IH]; intros state Hincl H;
    simpl; [assumption |].
  apply IH.
  - intros x Hx. apply Hincl. now right.
  - apply mergeEntry_provenance; [apply Hincl; now left | assumption].
Qed.

End Provenance.

Lemma toRecord_source entry item record :
  toRecord'' entry item = Returns record ->
  Rec.get record "_source" = Some (JStr (Entry.fileName entry))
  /\ Rec.get record "_timestamp" = Some (JStr (Entry.timestamp entry)).
Proof.
  unfold toRecord, bind.
  destruct (if flattenNested processingOptions then _ else _)
    as [base |]; [| discriminate].
  intros [= <-].
  rewrite !RecFacts.get_assign by (reflexivity || discriminate).
  split; reflexivity.
Qed.

(** X5.  Every record of a merged dataset names its origin: [_source]
    and [_timestamp] hold the file name and the time of one of the merged
    entries, whatever the document had under these keys. *)
Theorem records_carry_their_source
  selectedEntries processedEntries generatedId now dataset logged record :
  merge'' selectedEntries processedEntries generatedId now
  = Merged dataset logged ->
  In record (Dataset.records dataset) ->
  exists entry,
    In entry processedEntries
    /\ isSelected selectedEntries entry = true
    /\ Rec.get record "_source" = Some (JStr (Entry.fileName entry))
    /\ Rec.get record "_timestamp" = Some (JStr (Entry.timestamp entry)).
Proof.
  intros Hmerge Hin. apply merged_dataset in Hmerge. cbv zeta in Hmerge.
  destruct Hmerge as (Hrecords & _).
  rewrite Hrecords in Hin.
  pose proof
    (merge_provenance
       (fun entry record =>
          Rec.get record "_source" = Some (JStr (Entry.fileName entry))
          /\ Rec.get record "_timestamp"
             = Some (JStr (Entry.timestamp entry)))
       toRecord_source
       (filter (isSelected selectedEntries) processedEntries)
       (filter (isSelected selectedEntries) processedEntries)
       ([], []) (incl_refl _) (Forall_nil _)) as H.
  rewrite Forall_forall in H.
  destruct (H record Hin) as (entry & He & Hs & Ht).
  apply filter_In in He. destruct He. exists entry. auto.
Qed.

(** X6.  The field list of a merged dataset has no field twice. *)
Theorem dataset_fields_are_distinct
  selectedEntries processedEntries generatedId now dataset logged :
  mergeSelectedEntries processingOptions JSON_parse JSON_stringify
    selectedEntries processedEntries generatedId now
  = Merged dataset logged ->
  NoDup (Dataset.fields dataset).
Proof.
  intros Hmerge. apply merged_dataset in Hmerge. cbv zeta in Hmerge.
  destruct Hmerge as (_ & _ & -> & _).
  generalize (filter (isSelected selectedEntries) processedEntries).
  assert (H : forall entries acc,
             NoDup acc ->
             NoDup (fold_left
                      (fun allFields entry =>
                         JsSet.add_all allFields (Entry.fields entry))
                      entries acc)).
  { induction entries as [| e entries IH]; intros acc Hacc; simpl;
      [assumption |].
    apply IH, JsSetFacts.NoDup_add_all, Hacc. }
  intros entries. apply H. constructor.
Qed.

(** *** The schema *)


(** What a key of the schema of a merged dataset is mapped to. *)
Lemma schema_tag selectedEntries processedEntries generatedId now
  dataset logged key tag :
  merge'' selectedEntries processedEntries generatedId now
  = Merged dataset logged ->
  JsObject.get (Dataset.schema dataset) key = Some tag ->
  tag = Schema.assigned (Schema.types (Dataset.records dataset) key)
  /\ Schema.types (Dataset.records dataset) key <> [].
Proof.
  intros Hmerge Hget. apply merged_dataset in Hmerge. cbv zeta in Hmerge.
  destruct Hmerge as (Hrecords & _ & _ & Hschema).
  rewrite <- Hrecords in Hschema. rewrite Hschema in Hget.
  destruct (detectSchemas processingOptions && _); [| discriminate].
  rewrite SchemaFacts.get_infer in Hget.
  destruct (JsSet.has _ key) eqn:Hkey; [| discriminate].
  destruct (negb _); [| discriminate]. simpl in Hget.
  injection Hget as <-. split; [reflexivity |].
  apply JsSetFacts.has_In, SchemaFacts.In_allKeys in Hkey.
  destruct Hkey as (record & Hin & Hk).
  destruct (SchemaFacts.keys_get _ _ Hk) as [value Hvalue].
  assert (Hobserved : In (type_tag value)
                        (Schema.types (Dataset.records dataset) key)).
  { apply SchemaFacts.In_types. eauto. }
  intros E. rewrite E in Hobserved. destruct Hobserved.
Qed.

(** With [flattenNested] no record holds a plain object. *)
Lemma toRecord_no_object entry item record :
  flattenNested processingOptions = true ->
  toRecord'' entry item = Returns record ->
  forall key value members,
    Rec.get record key = Some value -> value <> JObj members.
Proof.
  intros Hflat. unfold toRecord, bind. rewrite Hflat.
  cbn [bind]. intros [= <-] key value members.
  unfold Rec.get. cbn [Rec.own]. intros Hget. apply get_Some_In in Hget.
  apply In_set in Hget. destruct Hget as [[= _ ->] | Hget]; [discriminate |].
  apply In_set in Hget. destruct Hget as [[= _ ->] | Hget]; [discriminate |].
  revert key value members Hget.
  apply (flatten_invariant processingOptions JSON_stringify
           (fun result =>
              forall key value members,
                In (key, value) result -> value <> JObj members)).
  - intros r k v Hr Hv key value members Hin.
    apply In_set in Hin. destruct Hin as [[= -> ->] | Hin].
    + now apply Hv.
    + now apply (Hr key).
  - intros key value members [].
Qed.

(** X7.  Every tag in the schema of a merged dataset is one of seven
    names, and with [flattenNested] it is not ['object']. *)
Theorem schema_tags_are_known
  selectedEntries processedEntries generatedId now dataset logged key tag :
  merge'' selectedEntries processedEntries generatedId now
  = Merged dataset logged ->
  JsObject.get (Dataset.schema dataset) key = Some tag ->
  In tag ["string"; "number"; "boolean"; "object"; "array"; "null"; "mixed"]
  /\ (flattenNested processingOptions = true -> tag <> "object").
Proof.
  intros Hmerge Hget.
  destruct (schema_tag _ _ _ _ _ _ _ _ Hmerge Hget) as [-> Hnonempty].
  assert (Hvalues :
            flattenNested processingOptions = true ->
            forall t, In t (Schema.types (Dataset.records dataset) key) ->
                      t <> "object").
  { intros Hflat t Ht. apply SchemaFacts.In_types in Ht.
    destruct Ht as (record & value & Hin & Hvalue & ->).
    apply merged_dataset in Hmerge. cbv zeta in Hmerge.
    destruct Hmerge as (Hrecords & _). rewrite Hrecords in Hin.
    pose proof
      (merge_invariant processingOptions JSON_parse JSON_stringify
         (fun record =>
            forall key value members,
              Rec.get record key = Some value -> value <> JObj members)
         (fun entry item record =>
            toRecord_no_object entry item record Hflat)
         (filter (isSelected selectedEntries) processedEntries)
         ([], []) (Forall_nil _)) as H.
    rewrite Forall_forall in H. specialize (H record Hin key value).
    destruct value; try discriminate. now destruct (H members Hvalue). }
  assert (Htags :
            forall t, In t (Schema.types (Dataset.records dataset) key) ->
                      In t ["string"; "number"; "boolean"; "object"; "array";
                            "null"; "mixed"]).
  { intros t Ht. apply SchemaFacts.In_types in Ht.
    destruct Ht as (record & value & _ & _ & ->).
    destruct value; simpl; tauto. }
  unfold Schema.assigned.
  destruct (Schema.types (Dataset.records dataset) key)
    as [| only [| other rest]]; [congruence | |].
  - split; [apply Htags | intros Hflat; apply Hvalues]; auto; now left.
  - destruct (JsSet.has _ "string");
      [| destruct (JsSet.has _ "number")];
      (split; [simpl; tauto | discriminate]).
Qed.

(** The tags observed for a key over the records of a dataset. *)
Local Abbreviation observed dataset key t :=
  (exists record value,
      In record (Dataset.records dataset)
      /\ Rec.get record key = Some value
      /\ type_tag value = t).


(** *** The merge with flattening *)

(** The record the flattener and the two assignments make of a value. *)
Local Abbreviation flattened entry item :=
  (Rec.assign
     (Rec.assign
        (PlainRecord
           (flattenObject processingOptions JSON_stringify item "" [] 0))
        "_source" (JStr (Entry.fileName entry)))
     "_timestamp" (JStr (Entry.timestamp entry))).

(** What an entry contributes: a record for each element of an array, or
    one record for another value. *)
Local Abbreviation contribution :=
  (fun entry : Entry.t =>
     match JSON_parse (Entry.formattedJson entry) with
     | Returns (JArr items) => map (fun item => flattened entry item) items
     | Returns parsedJson => [flattened entry parsedJson]
     | Throws _ => []
     end).

Local Abbreviation unreadable :=
  (fun entry : Entry.t =>
     match JSON_parse (Entry.formattedJson entry) with
     | Returns _ => false
     | Throws _ => true
     end).

Lemma pushItems_flattened entry items records :
  flattenNested processingOptions = true ->
  pushItems'' entry items records
  = (records ++ map (fun item => flattened entry item) items, Returns tt).
Proof.
  intros Hflat. revert records.
  induction items as [| item rest IH]; intros records; simpl.
  - now rewrite app_nil_r.
  - unfold toRecord at 1. rewrite Hflat. cbn [bind].
    rewrite IH, <- app_assoc. reflexivity.
Qed.

Lemma mergeEntry_flattened records logged entry :
  flattenNested processingOptions = true ->
  mergeEntry'' (records, logged) entry
  = (records ++ contribution entry,
     logged ++ (if unreadable entry then [Entry.id entry] else [])).
Proof.
  intros Hflat. unfold mergeEntry.
  destruct (JSON_parse (Entry.formattedJson entry)) as [parsedJson | e].
  - destruct parsedJson; rewrite pushItems_flattened by assumption;
      now rewrite app_nil_r.
  - now rewrite app_nil_r.
Qed.

Lemma merge_flattened entries records logged :
  flattenNested processingOptions = true ->
  fold_left mergeEntry'' entries (records, logged)
  = (records ++ flat_map contribution entries,
     logged ++ map Entry.id (filter unreadable entries)).
Proof.
  intros Hflat. revert records logged.
  induction entries as [| e entries IH]; intros records logged.
  - simpl. now rewrite !app_nil_r.
  - cbn [fold_left flat_map filter]. rewrite mergeEntry_flattened, IH
      by assumption.
    rewrite <- !app_assoc. destruct (unreadable e); reflexivity.
Qed.

(** X9.  With [flattenNested] a merge drops no element: every selected
    entry that is not in error and whose formatted text can be read
    gives one record for each element of its array, or one record for
    another document, in order; the entries reported are those whose text
    cannot be read. *)
Theorem merge_with_flattening_keeps_every_element
  selectedEntries processedEntries generatedId now dataset logged :
  flattenNested processingOptions = true ->
  merge'' selectedEntries processedEntries generatedId now
  = Merged dataset logged ->
  Dataset.records dataset
  = flat_map contribution
      (filter (isSelected selectedEntries) processedEntries)
  /\ logged
     = map Entry.id
         (filter unreadable
            (filter (isSelected selectedEntries) processedEntries)).
Proof.
  intros Hflat Hmerge. apply merged_dataset in Hmerge. cbv zeta in Hmerge.
  destruct Hmerge as (-> & -> & _).
  rewrite merge_flattened by assumption. split; reflexivity.
Qed.

End MergeMore.
(** ** More on the rewrites of the repairer *)

Module RewriteFacts.

Import JsString Rewrite.

Lemma chars_replace_all (m : matcher) (text : string) :
  list_ascii_of_string (replace_all m text)
  = replace_from m (S (length (list_ascii_of_string text)))
      (list_ascii_of_string text).
Proof. unfold replace_all. apply list_ascii_of_string_of_list_ascii. Qed.

Lemma length_span (q : ascii -> bool) (l : list ascii) :
  length (snd (span q l)) <= length l.
Proof.
  induction l as [| c r IH]; simpl; [lia |].
  destruct (q c); [| simpl; lia].
  destruct (span q r) as [run rest]. simpl in *. lia.
Qed.

(** *** Rewrites that keep a property of the characters *)

Section Keeps.

Variable p : ascii -> bool.

Lemma span_keeps (q : ascii -> bool) (l : list ascii) :
  forallb p l = true -> forallb p (snd (span q l)) = true.
Proof.
  induction l as [| c r IH]; simpl; [reflexivity |].
  intros H. apply andb_prop in H. destruct H as [Hc Hr].
  destruct (q c).
  - destruct (span q r) as [run rest]. simpl in *. auto.
  - simpl. now rewrite Hc, Hr.
Qed.

Lemma around_spaces_keeps open close replacement text replacement' rest :
  forallb p replacement = true ->
  around_spaces open close replacement text = Some (replacement', rest) ->
  forallb p text = true ->
  forallb p replacement' = true /\ forallb p rest = true.
Proof.
  intros Hreplacement. unfold around_spaces.
  destruct text as [| c r]; [discriminate |].
  destruct (Ascii.eqb c open); [| discriminate].
  destruct (snd (span is_space r)) as [| c' rest'] eqn:E; [discriminate |].
  destruct (Ascii.eqb c' close); [| discriminate].
  intros [= <- <-] H. simpl in H. apply andb_prop in H. destruct H as [_ Hr].
  apply (span_keeps is_space) in Hr. rewrite E in Hr. simpl in Hr.
  apply andb_prop in Hr. tauto.
Qed.

Lemma lone_backslash_keeps text replacement rest :
  p backslash = true ->
  lone_backslash text = Some (replacement, rest) ->
  forallb p text = true ->
  forallb p replacement = true /\ forallb p rest = true.
Proof.
  intros Hb. unfold lone_backslash.
  destruct text as [| c1 [| b [| c2 rest']]]; try discriminate.
  destruct (_ && _); [| discriminate].
  intros [= <- <-]. simpl. rewrite Hb.
  intros H. apply andb_prop in H. destruct H as [H1 H].
  apply andb_prop in H. destruct H as [_ H].
  apply andb_prop in H. destruct H as [H2 H]. now rewrite H1, H2.
Qed.

Variable m : matcher.
Hypothesis m_keeps :
  forall text replacement rest,
    m text = Some (replacement, rest) ->
    forallb p text = true ->
    forallb p replacement = true /\ forallb p rest = true.

Lemma replace_from_keeps fuel text :
  forallb p text = true -> forallb p (replace_from m fuel text) = true.
Proof.
  revert text. induction fuel as [| fuel IH]; intros text H; simpl;
    [assumption |].
  destruct (m text) as [[replacement rest] |] eqn:E.
  - destruct (m_keeps _ _ _ E H) as [H1 H2].
    rewrite forallb_app, H1. simpl. auto.
  - destruct text as [| c r]; [reflexivity |]. simpl in *.
    apply andb_prop in H. destruct H as [Hc Hr]. rewrite Hc. simpl. auto.
Qed.

Lemma replace_all_keeps text :
  forallb p (list_ascii_of_string text) = true ->
  forallb p (list_ascii_of_string (replace_all m text)) = true.
Proof. rewrite chars_replace_all. apply replace_from_keeps. Qed.

End Keeps.

(** *** Rewrites that find nothing to do *)

Section Idle.

Variable q : ascii -> bool.
Variable m : matcher.
Hypothesis m_idle : forall text, forallb q text = true -> m text = None.

Lemma replace_from_idle fuel text :
  forallb q text = true -> replace_from m fuel text = text.
Proof.
  revert text. induction fuel as [| fuel IH]; intros text H; simpl;
    [reflexivity |].
  rewrite (m_idle text H). destruct text as [| c r]; [reflexivity |].
  simpl in H. apply andb_prop in H. destruct H as [_ Hr].
  now rewrite IH.
Qed.

Lemma replace_all_idle text :
  forallb q (list_ascii_of_string text) = true -> replace_all m text = text.
Proof.
  intros H. unfold replace_all. rewrite replace_from_idle by assumption.
  apply string_of_list_ascii_of_string.
Qed.

End Idle.

(** A character other than the single quote. *)
Local Abbreviation unquoted := (fun c : ascii => negb (Ascii.eqb c "'")).

Lemma single_quote_removed fuel text :
  length text < fuel ->
  forallb unquoted (replace_from single_quote fuel text) = true.
Proof.
  revert text. induction fuel as [| fuel IH]; intros text H; [lia |].
  destruct text as [| c r]; [reflexivity |].
  simpl in H. cbn [replace_from single_quote].
  destruct (Ascii.eqb c "'") eqn:E.
  - cbn [app forallb]. rewrite IH by lia. reflexivity.
  - cbn [forallb]. rewrite E, IH by lia. reflexivity.
Qed.

(** X10.  The text the rewrites give holds no single quote: each one is
    turned into a double quote, also an apostrophe inside a string, and
    the later rewrites bring none back. *)
Theorem rewritten_text_has_no_single_quote (jsonStr : string) :
  forallb unquoted (list_ascii_of_string (apply_fixes jsonStr)) = true.
Proof.
  unfold apply_fixes.
  apply replace_all_keeps;
    [intros text replacement rest; now apply lone_backslash_keeps |].
  do 3 (apply replace_all_keeps;
        [intros text replacement rest; now apply around_spaces_keeps |]).
  rewrite chars_replace_all. apply single_quote_removed. lia.
Qed.

(** A character none of the rewrites looks for: no brace, comma, single
    quote or backslash. *)
Local Abbreviation inert :=
  (fun c : ascii =>
     negb (Ascii.eqb c "{" || Ascii.eqb c "}" || Ascii.eqb c ","
           || Ascii.eqb c "'" || Ascii.eqb c backslash)).

Lemma around_spaces_idle (q : ascii -> bool) open close replacement text :
  (forall c, q c = true -> Ascii.eqb c open = false) ->
  forallb q text = true ->
  around_spaces open close replacement text = None.
Proof.
  intros Hq. destruct text as [| c r]; [reflexivity |]. simpl.
  intros H. apply andb_prop in H. destruct H as [Hc _].
  now rewrite (Hq c Hc).
Qed.

(** X11.  A text without a brace, a comma, a single quote and a
    backslash is left as it is by the rewrites. *)
Theorem rewrites_leave_inert_text (jsonStr : string) :
  forallb inert (list_ascii_of_string jsonStr) = true ->
  apply_fixes jsonStr = jsonStr.
Proof.
  intros H. unfold apply_fixes.
  assert (Hidle : forall m,
             (forall text, forallb inert text = true -> m text = None) ->
             replace_all m jsonStr = jsonStr)
    by (intros m Hm; now apply (replace_all_idle inert)).
  rewrite (Hidle unquoted_key).
  rewrite (Hidle single_quote).
  rewrite (Hidle adjacent_objects).
  rewrite (Hidle trailing_comma_object).
  rewrite (Hidle trailing_comma_array).
  rewrite (Hidle lone_backslash).
  - reflexivity.
  - intros [| c1 [| b [| c2 rest]]]; try reflexivity. simpl.
    intros Ht. apply andb_prop in Ht. destruct Ht as [_ Ht].
    apply andb_prop in Ht. destruct Ht as [Hb _].
    destruct (Ascii.eqb b backslash);
      [now rewrite !orb_true_r in Hb | now rewrite andb_false_r].
  - intros text Ht. apply (around_spaces_idle inert); [| exact Ht].
    intros c Hc.
    destruct (Ascii.eqb c ","); [now rewrite !orb_true_r in Hc | reflexivity].
  - intros text Ht. apply (around_spaces_idle inert); [| exact Ht].
    intros c Hc.
    destruct (Ascii.eqb c ","); [now rewrite !orb_true_r in Hc | reflexivity].
  - intros text Ht. apply (around_spaces_idle inert); [| exact Ht].
    intros c Hc.
    destruct (Ascii.eqb c "}"); [now rewrite !orb_true_r in Hc | reflexivity].
  - intros [| c r]; [reflexivity |]. simpl.
    intros Ht. apply andb_prop in Ht. destruct Ht as [Hc _].
    destruct (Ascii.eqb c "'"); [now rewrite !orb_true_r in Hc | reflexivity].
  - intros [| c r]; [reflexivity |]. simpl.
    intros Ht. apply andb_prop in Ht. destruct Ht as [Hc _].
    destruct (Ascii.eqb c "{"); [discriminate |].
    destruct (Ascii.eqb c ","); [now rewrite !orb_true_r in Hc | reflexivity].
Qed.

End RewriteFacts.

(** ** More on the repairer and on [processJsonText] *)

Section ProcessMore.

Variable processingOptions : ProcessingOptions.
Variable JSON_parse : string -> completion Json.
Variable JSON_stringify_indented : Json -> string.
Variable Evaluated : Type.
Variable js_eval : string -> Held -> evaluation Evaluated.
Variable JSON_stringify_any : Evaluated -> Held -> evaluation (option string).

Local Abbreviation repair' :=
  (correctJsonSyntax JSON_parse Evaluated js_eval JSON_stringify_any).
Local Abbreviation process' :=
  (processJsonText processingOptions JSON_parse JSON_stringify_indented
     Evaluated js_eval JSON_stringify_any).

(** X12.  The result of the repairer carries the note of the aggressive
    repair exactly when the text and the rewritten text are both refused
    by the parser and the evaluation and the serialisation of its value
    succeed; the corrected text is then what the serialiser gave. *)
Theorem aggressive_repair_is_last_resort (jsonStr : string) (r : Correction) :
  repair' jsonStr = Some (Returns r) ->
  usedAggressiveRepair r = true
  <-> (exists cause, JSON_parse jsonStr = Throws cause)
      /\ (exists cause,
            JSON_parse (Rewrite.apply_fixes jsonStr) = Throws cause)
      /\ exists obj held text held',
           js_eval ("(" ++ jsonStr ++ ")")%string (Text jsonStr)
           = Ends (Returns obj) held
           /\ JSON_stringify_any obj held = Ends (Returns text) held'
           /\ corrected r = of_serialised text.
Proof.
  unfold correctJsonSyntax.
  destruct (JSON_parse jsonStr) as [v | cause].
  - intros [= <-]. split; [discriminate |].
    intros [[c H] _]. discriminate.
  - destruct (JSON_parse (Rewrite.apply_fixes jsonStr)) as [v | cause'].
    + intros [= <-]. split; [discriminate |].
      intros (_ & [c H] & _). discriminate.
    + destruct (js_eval _ _) as [[obj | e] held |]; [| | discriminate].
      * destruct (JSON_stringify_any obj held) as [[text | e] held' |] eqn:E;
          [| | discriminate].
        -- intros [= <-]. split; [| reflexivity].
           intros _. split; [eauto |]. split; [eauto |].
           exists obj, held, text, held'. auto.
        -- intros [= <-]. split; [discriminate |].
           intros (_ & _ & obj' & held0 & text & held1 & [= <- <-] & H & _).
           congruence.
      * intros [= <-]. split; [discriminate |].
        intros (_ & _ & obj' & held0 & text & held1 & H & _). discriminate.
Qed.

(** X13.  A repair without message is stable: the corrected text is one
    the parser reads, and the repairer returns it as it is. *)
Theorem repaired_text_is_stable (jsonStr : string) (r : Correction) :
  repair' jsonStr = Some (Returns r) ->
  error r = None ->
  exists text parsedJson,
    corrected r = Text text
    /\ JSON_parse text = Returns parsedJson
    /\ repair' text = Some (Returns r).
Proof.
  unfold correctJsonSyntax.
  destruct (JSON_parse jsonStr) as [v | cause] eqn:Hdirect.
  - intros [= <-] _. exists jsonStr, v. now rewrite Hdirect.
  - destruct (JSON_parse (Rewrite.apply_fixes jsonStr)) as [v | cause']
      eqn:Hfix.
    + intros [= <-] _. exists (Rewrite.apply_fixes jsonStr), v.
      now rewrite Hfix.
    + destruct (js_eval _ _) as [[obj | e] held |]; [| | discriminate].
      * destruct (JSON_stringify_any obj held) as [[text | e] held' |];
          [| | discriminate]; intros [= <-]; discriminate.
      * intros [= <-]. discriminate.
Qed.


(** X15.  A text that the parser reads is stored as it is: the entry has
    the status [processed], no message and the text itself as corrected
    text, whatever the rewrites or the evaluator would have made of
    it. *)
Theorem valid_text_is_processed
  text fileName queueItemId generatedId now parsedJson :
  JsString.is_blank text = false ->
  JSON_parse text = Returns parsedJson ->
  exists entry,
    process' text fileName queueItemId generatedId now = Some entry
    /\ Entry.status entry = StatusProcessed
    /\ Entry.error entry = None
    /\ Entry.correctedJson entry = Text text
    /\ Entry.fileName entry = fileName
    /\ Entry.id entry
       = (if truthy queueItemId then text_of queueItemId else generatedId).
Proof.
  intros Hblank Hparse. unfold processJsonText. rewrite Hblank.
  unfold correctJsonSyntax. rewrite Hparse.
  cbn [corrected]. unfold parse_held. cbn [printed_of bind]. rewrite Hparse.
  cbn [try_catch bind]. eexists. split; [reflexivity |]. cbn. auto.
Qed.

End ProcessMore.
(** ** The export *)

Module ExportFacts.

Import JsString Exporter JsObjectFacts.

(** A character that is no white space. *)
Local Abbreviation solid := (fun c : ascii => negb (is_space c)).

Lemma chars_append (a b : string) :
  list_ascii_of_string (a ++ b)
  = list_ascii_of_string a ++ list_ascii_of_string b.
Proof. induction a as [| c a IH]; simpl; [reflexivity | now rewrite IH]. Qed.

Lemma dashed_from fuel text :
  length text < fuel ->
  forallb solid (Rewrite.replace_from space_run fuel text) = true.
Proof.
  revert text. induction fuel as [| fuel IH]; intros text H; [lia |].
  destruct text as [| c r]; [reflexivity |].
  simpl in H. cbn [Rewrite.replace_from space_run].
  destruct (is_space c) eqn:E.
  - cbn [app forallb snd]. rewrite IH; [reflexivity |].
    pose proof (RewriteFacts.length_span is_space r). lia.
  - cbn [forallb]. rewrite E, IH by lia. reflexivity.
Qed.

Lemma dashed_solid (name : string) :
  forallb solid (list_ascii_of_string (dashed name)) = true.
Proof.
  unfold dashed. rewrite RewriteFacts.chars_replace_all.
  apply dashed_from. lia.
Qed.

Section ExportFacts.

Variable JSON_stringify : Json -> string.
Variable JSON_stringify_indented : Json -> string.
Variable Papa_unparse : list JsRecord -> completion string.

(** X16.  The name of an exported file holds no white space, whatever
    the name of the dataset. *)
Theorem export_file_name_has_no_space dataset format download :
  exportDataset JSON_stringify JSON_stringify_indented Papa_unparse
    (Some dataset) format
  = Saved download ->
  forallb solid (list_ascii_of_string (filename download)) = true.
Proof.
  unfold exportDataset, render.
  repeat
    match goal with
    | |- context [if ?format =? ?name then _ else _] =>
        destruct (format =? name)%string
    end;
    try destruct (Papa_unparse _); try discriminate;
    cbn [bind]; intros [= <-]; cbn [filename];
    rewrite chars_append, forallb_app, dashed_solid; reflexivity.
Qed.

(** X17.  An export fails in two cases only: the format is none of the
    five, and the message names it; or the format is [csv] and the CSV
    library throws, and the message is the one of the library. *)
Theorem export_fails_on_format_or_csv dataset format message :
  exportDataset JSON_stringify JSON_stringify_indented Papa_unparse
    (Some dataset) format
  = Failed message
  <-> (~ In format ["json"; "jsonl"; "csv"; "huggingface"; "rag"]
       /\ message
          = ("Error exporting dataset: Unsupported export format: "
             ++ format)%string)
      \/ (format = "csv"
          /\ exists cause,
               Papa_unparse (Dataset.records dataset) = Throws cause
               /\ message = ("Error exporting dataset: " ++ cause)%string).
Proof.
  unfold exportDataset, render.
  destruct (String.eqb_spec format "json") as [-> | Hjson].
  { split; [discriminate |].
    intros [[H _] | [H _]]; [simpl in H; tauto | discriminate]. }
  destruct (String.eqb_spec format "jsonl") as [-> | Hjsonl].
  { split; [discriminate |].
    intros [[H _] | [H _]]; [simpl in H; tauto | discriminate]. }
  destruct (String.eqb_spec format "csv") as [-> | Hcsv].
  { destruct (Papa_unparse (Dataset.records dataset)) as [text | cause];
      cbn [bind].
    - split; [discriminate |].
      intros [[H _] | [_ (cause & H' & _)]];
        [simpl in H; tauto | discriminate].
    - split.
      + intros [= <-]. right. eauto.
      + intros [[H _] | [_ (cause' & [= <-] & ->)]];
          [simpl in H; tauto | reflexivity]. }
  destruct (String.eqb_spec format "huggingface") as [-> | Hhf].
  { split; [discriminate |].
    intros [[H _] | [H _]]; [simpl in H; tauto | discriminate]. }
  destruct (String.eqb_spec format "rag") as [-> | Hrag].
  { split; [discriminate |].
    intros [[H _] | [H _]]; [simpl in H; tauto | discriminate]. }
  split.
  - intros [= <-]. left. split; [| reflexivity].
    simpl. intuition congruence.
  - intros [[_ ->] | [H _]]; [reflexivity | contradiction].
Qed.

End ExportFacts.

(** *** The documents for retrieval *)

Lemma In_contentFields record key :
  In key (contentFields record)
  <-> In key (Rec.keys record)
      /\ startsWith_underscore key = false
      /\ exists s,
           Rec.get record key = Some (JStr s) /\ 100 < String.length s.
Proof.
  unfold contentFields, long_text. rewrite filter_In.
  destruct (startsWith_underscore key); simpl.
  - split; [intros [_ H]; discriminate | intros (_ & H & _); discriminate].
  - destruct (Rec.get record key) as [[| b | n | s | items | members] |];
      try (split; [intros [_ H]; discriminate
                  | intros (_ & _ & s' & H & _); discriminate]).
    destruct (Nat.ltb_spec 100 (String.length s)) as [Hlt | Hge].
    + split; [intros [H _]; eauto 6 | tauto].
    + split; [intros [_ H]; discriminate |].
      intros (_ & _ & s' & [= <-] & H'). lia.
Qed.

Lemma In_metadataFields record key :
  In key (metadataFields record)
  <-> In key (Rec.keys record) /\ ~ In key (contentFields record).
Proof.
  unfold metadataFields. rewrite filter_In, negb_true_iff.
  split; intros [H H']; split; try assumption.
  - intros Hc. apply JsSetFacts.has_In in Hc. congruence.
  - destruct (JsSet.has _ key) eqn:E; [| reflexivity].
    apply JsSetFacts.has_In in E. contradiction.
Qed.

(** Every key with an underscore in front is metadata, with its value. *)
Lemma metadata_underscore record key :
  In key (Rec.keys record) ->
  startsWith_underscore key = true ->
  key <> "__proto__" ->
  JsObject.get (ragMetadata record) key = Rec.get record key.
Proof.
  intros Hin Hu Hp. unfold ragMetadata.
  rewrite AssignFacts.get_assign_each.
  assert (Hm : JsSet.has (metadataFields record) key = true).
  { apply JsSetFacts.has_In, In_metadataFields. split; [assumption |].
    rewrite In_contentFields. intros (_ & H & _). congruence. }
  apply String.eqb_neq in Hp. unfold JsObject.nonproto.
  now rewrite Hm, Hp.
Qed.

(** X18.  The split of a record for retrieval.  Every key is either a
    content field or a metadata field; the content fields are those
    without an underscore in front that hold a string of more than 100
    characters; and the metadata object holds, under each metadata key
    but [__proto__], the value of the record. *)
Theorem rag_split_of_a_record record key :
  In key (Rec.keys record) ->
  (In key (contentFields record) <-> ~ In key (metadataFields record))
  /\ (In key (contentFields record)
      <-> startsWith_underscore key = false
          /\ exists s,
               Rec.get record key = Some (JStr s) /\ 100 < String.length s)
  /\ (In key (metadataFields record) ->
      key <> "__proto__" ->
      JsObject.get (ragMetadata record) key = Rec.get record key).
Proof.
  intros Hin. split; [| split].
  - rewrite In_metadataFields.
    destruct (in_dec string_dec key (contentFields record)); tauto.
  - rewrite In_contentFields. tauto.
  - intros Hm Hp. unfold ragMetadata.
    rewrite AssignFacts.get_assign_each.
    apply JsSetFacts.has_In in Hm. apply String.eqb_neq in Hp.
    unfold JsObject.nonproto. now rewrite Hm, Hp.
Qed.

End ExportFacts.

Section ExportOfMerge.

Variable processingOptions : ProcessingOptions.
Variable JSON_parse : string -> completion Json.
Variable JSON_stringify : Json -> string.

(** X19.  In the export for retrieval of a merged dataset the metadata of
    every document names its origin: [_source] and [_timestamp] are
    there, with the file name and the time of one of the merged
    entries. *)
Theorem rag_metadata_names_the_source
  selectedEntries processedEntries generatedId now dataset logged record :
  mergeSelectedEntries processingOptions JSON_parse JSON_stringify
    selectedEntries processedEntries generatedId now
  = Merged dataset logged ->
  In record (Dataset.records dataset) ->
  exists entry,
    In entry processedEntries
    /\ isSelected selectedEntries entry = true
    /\ JsObject.get (Exporter.ragMetadata record) "_source"
       = Some (JStr (Entry.fileName entry))
    /\ JsObject.get (Exporter.ragMetadata record) "_timestamp"
       = Some (JStr (Entry.timestamp entry)).
Proof.
  intros Hmerge Hin. apply merged_dataset in Hmerge. cbv zeta in Hmerge.
  destruct Hmerge as (Hrecords & _).
  rewrite Hrecords in Hin.
  pose proof
    (merge_provenance processingOptions JSON_parse JSON_stringify
       (fun entry record =>
          JsObject.get (Exporter.ragMetadata record) "_source"
          = Some (JStr (Entry.fileName entry))
          /\ JsObject.get (Exporter.ragMetadata record) "_timestamp"
             = Some (JStr (Entry.timestamp entry)))) as H.
  specialize (H
    (fun entry item record Hrecord =>
       let (Hs, Ht) :=
         toRecord_source processingOptions JSON_stringify entry item record
           Hrecord in
       let (Ks, Kt) :=
         toRecord_metadata processingOptions JSON_stringify entry item
           record Hrecord in
       conj
         (eq_trans
            (ExportFacts.metadata_underscore record "_source" Ks eq_refl
               ltac:(discriminate))
            Hs)
         (eq_trans
            (ExportFacts.metadata_underscore record "_timestamp" Kt eq_refl
               ltac:(discriminate))
            Ht))
    (filter (isSelected selectedEntries) processedEntries)
    (filter (isSelected selectedEntries) processedEntries)
    ([], []) (incl_refl _) (Forall_nil _)).
  rewrite Forall_forall in H.
  destruct (H record Hin) as (entry & He & Hs & Ht).
  apply filter_In in He. destruct He. exists entry. auto.
Qed.

End ExportOfMerge.
(** ** The selection and the pages of the entry table *)

Section TableFacts.

Lemma has_delete (s : list string) (x y : string) :
  JsSet.has (JsSet.delete s x) y
  = JsSet.has s y && negb (y =? x)%string.
Proof.
  unfold JsSet.has, JsSet.delete.
  induction s as [| z s IH]; [reflexivity |]. cbn [filter existsb].
  destruct (String.eqb_spec z x) as [Hzx | Hzx]; cbn [negb existsb];
    rewrite IH;
    destruct (String.eqb_spec y z) as [Hyz | Hyz];
    destruct (String.eqb_spec y x) as [Hyx | Hyx]; simpl;
    rewrite ?andb_false_r, ?andb_true_r; try reflexivity; congruence.
Qed.

Lemma has_add (s : list string) (x y : string) :
  JsSet.has (JsSet.add s x) y = JsSet.has s y || (y =? x)%string.
Proof.
  unfold JsSet.add. destruct (JsSet.has s x) eqn:E.
  - destruct (String.eqb_spec y x) as [Hyx | _].
    + rewrite Hyx, E. reflexivity.
    + now rewrite orb_false_r.
  - unfold JsSet.has. rewrite existsb_app. simpl.
    now rewrite orb_false_r.
Qed.

(** X20.  A click on the box of an entry flips the selection of that
    entry and of no other. *)
Theorem toggle_flips_one_entry (prevSelected : list string)
  (entryId other : string) :
  JsSet.has (toggleEntrySelection prevSelected entryId) other
  = if (other =? entryId)%string
    then negb (JsSet.has prevSelected entryId)
    else JsSet.has prevSelected other.
Proof.
  unfold toggleEntrySelection.
  destruct (JsSet.has prevSelected entryId) eqn:E.
  - rewrite has_delete.
    destruct (other =? entryId)%string; simpl.
    + now rewrite andb_false_r.
    + now rewrite andb_true_r.
  - rewrite has_add.
    destruct (String.eqb_spec other entryId) as [Heq | _]; simpl.
    + now rewrite orb_true_r.
    + now rewrite orb_false_r.
Qed.

Lemma add_all_distinct (xs s : list string) :
  NoDup (s ++ xs) -> JsSet.add_all s xs = s ++ xs.
Proof.
  unfold JsSet.add_all. revert s.
  induction xs as [| x xs IH]; intros s H; simpl.
  - now rewrite app_nil_r.
  - assert (Hx : JsSet.has s x = false).
    { destruct (JsSet.has s x) eqn:E; [| reflexivity].
      apply JsSetFacts.has_In in E. apply NoDup_remove_2 in H.
      destruct H. apply in_or_app. now left. }
    unfold JsSet.add at 2. rewrite Hx, IH.
    + now rewrite <- app_assoc.
    + now rewrite <- app_assoc.
Qed.

Lemma selects_all (selectedEntries : list string)
  (processedEntries : list Entry.t) (entry : Entry.t) :
  length selectedEntries <> length processedEntries ->
  In entry processedEntries ->
  JsSet.has (toggleAllEntriesSelection selectedEntries processedEntries)
    (Entry.id entry)
  = true.
Proof.
  intros Hsize Hin. unfold toggleAllEntriesSelection.
  apply Nat.eqb_neq in Hsize. rewrite Hsize.
  apply JsSetFacts.has_In, JsSetFacts.In_add_all. right.
  now apply in_map.
Qed.

(** X21.  When the entries have distinct ids and not as many are
    selected as there are entries, the box in the head of the table
    selects every entry, and a second click clears the selection. *)
Theorem select_all_twice_clears (selectedEntries : list string)
  (processedEntries : list Entry.t) :
  NoDup (map Entry.id processedEntries) ->
  length selectedEntries <> length processedEntries ->
  (forall entry,
      In entry processedEntries ->
      JsSet.has (toggleAllEntriesSelection selectedEntries processedEntries)
        (Entry.id entry)
      = true)
  /\ toggleAllEntriesSelection
       (toggleAllEntriesSelection selectedEntries processedEntries)
       processedEntries
     = [].
Proof.
  intros Hids Hsize. split.
  - intros entry. now apply selects_all.
  - unfold toggleAllEntriesSelection at 2.
    apply Nat.eqb_neq in Hsize. rewrite Hsize.
    rewrite add_all_distinct by assumption. cbn [app].
    unfold toggleAllEntriesSelection.
    now rewrite length_map, Nat.eqb_refl.
Qed.

(** X22.  Selecting every entry with the box in the head of the table
    and confirming the removal leaves no entry and no selection. *)
Theorem select_all_then_remove_empties_the_table
  (selectedEntries : list string) (processedEntries : list Entry.t) :
  length selectedEntries <> length processedEntries ->
  removeSelectedEntries true
    (toggleAllEntriesSelection selectedEntries processedEntries)
    processedEntries
  = ([], []).
Proof.
  intros Hsize.
  pose proof (fun entry => selects_all _ _ entry Hsize) as Hall.
  unfold removeSelectedEntries.
  destruct (toggleAllEntriesSelection selectedEntries processedEntries)
    as [| s sel].
  - destruct processedEntries as [| e rest]; [reflexivity |].
    specialize (Hall e (or_introl eq_refl)). discriminate.
  - f_equal. clear Hsize. revert Hall.
    induction processedEntries as [| e rest IH]; intros Hall;
      [reflexivity |].
    cbn [filter]. rewrite (Hall e (or_introl eq_refl)). cbn [negb].
    apply IH. intros entry Hin. apply Hall. now right.
Qed.

(** *** Pages *)

Lemma firstn_plus {A : Type} (n m : nat) (l : list A) :
  firstn (n + m) l = firstn n l ++ firstn m (skipn n l).
Proof.
  revert l. induction n as [| n IH]; intros l; [reflexivity |].
  destruct l as [| x l]; simpl.
  - now rewrite firstn_nil.
  - now rewrite IH.
Qed.

(** The rows of page [i + 1]. *)
Lemma visible_page (entries : list Entry.t) (i : nat) :
  visibleEntries entries (Z.of_nat (S i))
  = firstn 5 (skipn (5 * i) entries).
Proof.
  assert (Hs : startIndex (Z.of_nat (S i)) = Z.of_nat (5 * i))
    by (unfold startIndex, rowsPerPage; lia).
  unfold visibleEntries. rewrite Hs.
  replace (Z.of_nat (5 * i) + Z.of_nat rowsPerPage)%Z
    with (Z.of_nat (5 * i + 5)) by (unfold rowsPerPage; lia).
  unfold JsArray.slice, JsArray.relative.
  destruct (Z.ltb_spec (Z.of_nat (5 * i)) 0); [lia |].
  destruct (Z.ltb_spec (Z.of_nat (5 * i + 5)) 0); [lia |].
  rewrite !Nat2Z.id.
  destruct (Nat.le_gt_cases (length entries) (5 * i)) as [Hle | Hgt].
  - rewrite (Nat.min_r (5 * i)) by assumption.
    rewrite skipn_all, (skipn_all2 entries Hle). now rewrite !firstn_nil.
  - rewrite (Nat.min_l (5 * i)) by lia.
    replace (Nat.min (5 * i + 5) (length entries) - 5 * i)
      with (Nat.min 5 (length (skipn (5 * i) entries)))
      by (rewrite length_skipn; lia).
    now rewrite <- firstn_firstn, firstn_all.
Qed.

Lemma page_bound (entries : list Entry.t) (i : nat) :
  i < totalPages entries <-> 5 * i < length entries.
Proof.
  unfold totalPages, rowsPerPage.
  pose proof (Nat.div_mod_eq (length entries + (5 - 1)) 5) as Hd.
  pose proof (Nat.mod_upper_bound (length entries + (5 - 1)) 5) as Hm.
  lia.
Qed.

Lemma visible_nonempty (entries : list Entry.t) (i : nat) :
  visibleEntries entries (Z.of_nat (S i)) <> [] <-> i < totalPages entries.
Proof.
  rewrite visible_page, page_bound.
  pose proof (length_skipn (5 * i) entries) as Hlen.
  destruct (skipn (5 * i) entries) as [| e rest]; simpl in *.
  - split; [congruence | lia].
  - split; [lia | discriminate].
Qed.

(** X23.  The pages 1 to [totalPages] show every entry once, in
    order. *)
Theorem pages_show_every_entry_once (entries : list Entry.t) :
  concat
    (map (visibleEntries entries)
       (map Z.of_nat (seq 1 (totalPages entries))))
  = entries.
Proof.
  assert (H : forall n,
             concat
               (map (visibleEntries entries) (map Z.of_nat (seq 1 n)))
             = firstn (5 * n) entries).
  { induction n as [| n IH]; [reflexivity |].
    rewrite seq_S, !map_app, concat_app, IH. cbn [map concat plus].
    rewrite visible_page, app_nil_r.
    replace (5 * S n) with (5 * n + 5) by lia.
    now rewrite firstn_plus. }
  rewrite H. apply firstn_all2.
  destruct (Nat.le_gt_cases (length entries) (5 * totalPages entries))
    as [Hle | Hgt]; [assumption |].
  apply page_bound in Hgt. lia.
Qed.

(** X24.  A page from 1 on shows a row exactly when it is no later than
    the last page, and then it shows the rows the range under the table
    announces: from [startIndex + 1] to the smaller of
    [startIndex + rowsPerPage] and the number of entries. *)
Theorem page_shows_the_announced_rows (entries : list Entry.t)
  (currentPage : Z) :
  (1 <= currentPage)%Z ->
  (visibleEntries entries currentPage <> []
   <-> (currentPage <= Z.of_nat (totalPages entries))%Z)
  /\ ((currentPage <= Z.of_nat (totalPages entries))%Z ->
      Z.of_nat (length (visibleEntries entries currentPage))
      = (Z.min (startIndex currentPage + Z.of_nat rowsPerPage)
           (Z.of_nat (length entries))
         - startIndex currentPage)%Z).
Proof.
  intros Hp.
  replace currentPage with (Z.of_nat (S (Z.to_nat (currentPage - 1))))
    by lia.
  set (i := Z.to_nat (currentPage - 1)).
  split.
  - rewrite visible_nonempty. lia.
  - intros Hlast.
    assert (Hi : 5 * i < length entries) by (apply page_bound; lia).
    rewrite visible_page, length_firstn, length_skipn.
    unfold startIndex, rowsPerPage. lia.
Qed.

(** X25.  From a page between 1 and the last one, both page buttons
    lead to a page between 1 and the last one, which shows a row. *)
Theorem page_buttons_stay_in_range (entries : list Entry.t)
  (currentPage : Z) :
  (1 <= currentPage <= Z.of_nat (totalPages entries))%Z ->
  (1 <= previousPage currentPage <= Z.of_nat (totalPages entries))%Z
  /\ (1 <= nextPage entries currentPage
      <= Z.of_nat (totalPages entries))%Z
  /\ visibleEntries entries (previousPage currentPage) <> []
  /\ visibleEntries entries (nextPage entries currentPage) <> [].
Proof.
  intros Hp.
  assert (Hprev :
            (1 <= previousPage currentPage
             <= Z.of_nat (totalPages entries))%Z)
    by (unfold previousPage; lia).
  assert (Hnext :
            (1 <= nextPage entries currentPage
             <= Z.of_nat (totalPages entries))%Z)
    by (unfold nextPage; lia).
  assert (Hshown : forall page,
             (1 <= page <= Z.of_nat (totalPages entries))%Z ->
             visibleEntries entries page <> []).
  { intros page Hpage.
    replace page with (Z.of_nat (S (Z.to_nat (page - 1)))) by lia.
    apply visible_nonempty. lia. }
  auto.
Qed.

End TableFacts.
(** ** The formatter and the fields *)

Section FormatFields.

Import JsString JsObject JsObjectFacts SortFacts AssignFacts.

Variable processingOptions : ProcessingOptions.

Local Abbreviation format' := (formatJsonStructure processingOptions).
Local Abbreviation member' := (formatMember processingOptions).
Local Abbreviation extract' := (extractFieldsFromJson processingOptions).

Local Abbreviation sample' prefix depth maxDepth :=
  (fun arrayFields item =>
     if is_object item
     then JsSet.add_all arrayFields
            (extract' item prefix (depth + 1)%Z maxDepth)
     else JsSet.add arrayFields (strip_dot prefix)).

Local Abbreviation pushed' prefix depth maxDepth :=
  (fun kv : string * Json =>
     if is_object (snd kv)
     then extract' (snd kv) ((prefix ++ fst kv) ++ ".")%string
            (depth + 1)%Z maxDepth
     else [(prefix ++ fst kv)%string]).

(** What a sampled element adds to the fields of its array. *)
Local Abbreviation adds prefix depth maxDepth path :=
  (fun item =>
     if is_object item
     then In path (extract' item prefix (depth + 1)%Z maxDepth)
     else path = strip_dot prefix).

Lemma In_samples_iff prefix depth maxDepth items arrayFields path :
  In path (fold_left (sample' prefix depth maxDepth) items arrayFields)
  <-> In path arrayFields
      \/ exists item,
           In item items /\ adds prefix depth maxDepth path item.
Proof.
  revert arrayFields. induction items as [| item rest IH];
    intros arrayFields; cbn [fold_left].
  - split; [tauto | intros [H | (item & [] & _)]; assumption].
  - rewrite IH. split.
    + intros [H | (x & Hx & H)].
      * destruct (is_object item) eqn:E.
        -- apply JsSetFacts.In_add_all in H. destruct H as [H | H];
             [now left |].
           right. exists item. rewrite E. split; [now left | assumption].
        -- apply JsSetFacts.In_add in H. destruct H as [H | H];
             [now left |].
           right. exists item. rewrite E. split; [now left | assumption].
      * right. exists x. split; [now right | assumption].
    + intros [H | (x & [<- | Hx] & H)].
      * left. destruct (is_object item).
        -- apply JsSetFacts.In_add_all. now left.
        -- apply JsSetFacts.In_add. now left.
      * left. destruct (is_object item).
        -- apply JsSetFacts.In_add_all. now right.
        -- apply JsSetFacts.In_add. now right.
      * right. exists x. split; assumption.
Qed.

Lemma is_object_format (value : Json) :
  is_object (format' value) = is_object value.
Proof. now destruct value. Qed.

Lemma is_object_member (value : Json) :
  is_object (member' value) = is_object value.
Proof.
  destruct value as [| | | s | |]; try reflexivity.
  change (member' (JStr s)) with (trimValue processingOptions (JStr s)).
  now destruct (trim_string processingOptions s) as [s' ->].
Qed.

Lemma member_object (value : Json) :
  is_object value = true -> member' value = format' value.
Proof. now destruct value. Qed.

Lemma In_NoDup_get {V : Type} (o : props V) (k : string) (v : V) :
  NoDup (keys o) -> In (k, v) o -> get o k = Some v.
Proof.
  induction o as [| [k' v'] o IH]; simpl; [tauto |].
  intros Hnodup [[= -> ->] | Hin].
  - now rewrite String.eqb_refl.
  - inversion Hnodup as [| ? ? Hnot Hrest]. subst.
    destruct (String.eqb_spec k' k) as [-> | _]; [| now apply IH].
    destruct Hnot. change k with (fst (k, v)). now apply in_map.
Qed.

Lemma assignable_keys_object (members : props Json) :
  assignable_keys (JObj members) = true ->
  NoDup (keys members)
  /\ Forall
       (fun kv => fst kv <> "__proto__" /\ assignable_keys (snd kv) = true)
       members.
Proof.
  simpl. intros H. apply andb_prop in H. destruct H as [Hd H].
  split; [now apply distinct_NoDup |]. clear Hd.
  induction members as [| [key value] rest IH]; [constructor |].
  apply andb_prop in H. destruct H as [H Hrest].
  apply andb_prop in H. destruct H as [Hkey Hvalue].
  constructor; [| now apply IH]. split; [| assumption].
  unfold nonproto in Hkey. apply negb_true_iff, String.eqb_neq in Hkey.
  exact Hkey.
Qed.

(** The members of a formatted object. *)
Lemma In_formatted (members : props Json) (k : string) (v' : Json) :
  In (k, v')
    (assign_each (map_values member' members) (sort_keys (keys members)))
  <-> k <> "__proto__"
      /\ exists v, get members k = Some v /\ v' = member' v.
Proof.
  split.
  - intros Hin.
    apply In_NoDup_get in Hin; [| apply NoDup_keys_assign_each].
    rewrite get_assign_each, get_map_values in Hin.
    destruct (JsSet.has _ k); [| discriminate].
    unfold nonproto in Hin.
    destruct (String.eqb_spec k "__proto__") as [| Hp]; [discriminate |].
    simpl in Hin. split; [assumption |].
    destruct (get members k) as [v |]; [| discriminate].
    injection Hin as <-. eauto.
  - intros (Hp & v & Hget & ->). apply get_Some_In.
    rewrite get_assign_each, get_map_values, Hget.
    assert (Hk : JsSet.has (sort_keys (keys members)) k = true).
    { apply JsSetFacts.has_In, In_sort_keys.
      apply get_Some_In in Hget. change k with (fst (k, v)).
      now apply in_map. }
    apply String.eqb_neq in Hp. unfold nonproto. now rewrite Hk, Hp.
Qed.

Lemma format_keeps_fields json :
  forall prefix depth maxDepth path,
    (In path (extract' (format' json) prefix depth maxDepth) ->
     In path (extract' json prefix depth maxDepth))
    /\ (assignable_keys json = true ->
        In path (extract' json prefix depth maxDepth) ->
        In path (extract' (format' json) prefix depth maxDepth)).
Proof.
  induction json as [| b | x | s | items IH | members IH]
    using json_induction;
    intros prefix depth maxDepth path; try (split; intros; assumption).
  - (* an array *)
    change (format' (JArr items)) with (JArr (map format' items)).
    destruct (depth >? maxDepth)%Z eqn:Hcut.
    { rewrite !extract_cutoff by assumption. tauto. }
    rewrite !extract_array by assumption. rewrite length_map.
    destruct (preserveArrays processingOptions || _); [tauto |].
    rewrite firstn_map, !In_samples_iff.
    assert (Hstep : forall item,
               In item (firstn 3 items) ->
               (adds prefix depth maxDepth path (format' item) ->
                adds prefix depth maxDepth path item)
               /\ (assignable_keys item = true ->
                   adds prefix depth maxDepth path item ->
                   adds prefix depth maxDepth path (format' item))).
    { intros item Hitem. apply In_firstn in Hitem.
      rewrite Forall_forall in IH. specialize (IH item Hitem).
      cbv beta. rewrite is_object_format.
      destruct (is_object item); [apply IH | tauto]. }
    split.
    + intros [[] | (item' & Hin & H)]. right.
      apply in_map_iff in Hin. destruct Hin as (item & <- & Hin).
      exists item. split; [assumption |]. now apply Hstep.
    + intros Hkeys [[] | (item & Hin & H)]. right.
      exists (format' item). split; [now apply in_map |].
      apply Hstep; try assumption.
      simpl in Hkeys. rewrite forallb_forall in Hkeys.
      apply Hkeys. eapply In_firstn, Hin.
  - (* an object *)
    rewrite format_object.
    destruct (depth >? maxDepth)%Z eqn:Hcut.
    { rewrite !extract_cutoff by assumption. tauto. }
    rewrite !extract_object by assumption. rewrite !in_flat_map.
    rewrite Forall_forall in IH.
    assert (Hstep : forall k v,
               In (k, v) members ->
               (In path (pushed' prefix depth maxDepth (k, member' v)) ->
                In path (pushed' prefix depth maxDepth (k, v)))
               /\ (assignable_keys v = true ->
                   In path (pushed' prefix depth maxDepth (k, v)) ->
                   In path (pushed' prefix depth maxDepth (k, member' v)))).
    { intros k v Hin. specialize (IH (k, v) Hin). cbn [fst snd] in *.
      rewrite is_object_member.
      destruct (is_object v) eqn:Hobj; [| tauto].
      rewrite member_object by assumption. apply IH. }
    split.
    + intros ([k v'] & Hin & H). apply In_formatted in Hin.
      destruct Hin as (_ & v & Hget & ->). apply get_Some_In in Hget.
      exists (k, v). split; [assumption |]. now apply Hstep.
    + intros Hkeys ([k v] & Hin & H).
      apply assignable_keys_object in Hkeys.
      destruct Hkeys as [Hnodup Hall]. rewrite Forall_forall in Hall.
      destruct (Hall (k, v) Hin) as [Hp Hv]. cbn [fst snd] in *.
      exists (k, member' v). split.
      * apply In_formatted. split; [assumption |].
        exists v. split; [now apply In_NoDup_get | reflexivity].
      * now apply Hstep.
Qed.

(** X26.  The formatter invents no field: every path extracted from the
    formatted value is extracted from the value itself.  And it loses
    none when the keys of every object are distinct and different from
    [__proto__]: then sorting and trimming leave the set of fields as it
    is. *)
Theorem formatting_keeps_the_fields json prefix depth maxDepth path :
  (In path (extract' (format' json) prefix depth maxDepth) ->
   In path (extract' json prefix depth maxDepth))
  /\ (assignable_keys json = true ->
      (In path (extract' (format' json) prefix depth maxDepth)
       <-> In path (extract' json prefix depth maxDepth))).
Proof.
  destruct (format_keeps_fields json prefix depth maxDepth path) as [H1 H2].
  split; [assumption |]. intros Hkeys. split; auto.
Qed.

End FormatFields.
(** ** From a text to the columns of its record *)

Section EndToEnd.

Import JsObjectFacts.

Variable processingOptions : ProcessingOptions.
Variable JSON_parse : string -> completion Json.
Variable JSON_stringify : Json -> string.
Variable JSON_stringify_indented : Json -> string.
Variable Evaluated : Type.
Variable js_eval : string -> Held -> evaluation Evaluated.
Variable JSON_stringify_any : Evaluated -> Held -> evaluation (option string).

(** The value whose text an entry stores. *)
Local Abbreviation stored parsedJson :=
  (if autoFormat processingOptions
   then formatJsonStructure processingOptions parsedJson
   else parsedJson).

(** X27.  With [maxDepth] at 3, [preserveArrays] and [flattenNested],
    the fields of the entry of an object are the columns of the record
    the merge makes of it, next to the two metadata columns and but for a
    key [__proto__]; the text is one the parser reads, and the parser
    reads the stored text back. *)
Theorem fields_are_the_columns_at_depth_3
  text fileName queueItemId generatedId now members :
  JsString.is_blank text = false ->
  JSON_parse text = Returns (JObj members) ->
  JSON_parse (JSON_stringify_indented (stored (JObj members)))
  = Returns (stored (JObj members)) ->
  maxDepth processingOptions = 3%Z ->
  preserveArrays processingOptions = true ->
  flattenNested processingOptions = true ->
  exists entry record,
    processJsonText processingOptions JSON_parse JSON_stringify_indented
      Evaluated js_eval JSON_stringify_any text fileName queueItemId
      generatedId now
    = Some entry
    /\ mergeEntry processingOptions JSON_parse JSON_stringify ([], []) entry
       = ([record], [])
    /\ forall key,
         In key (Rec.keys record)
         <-> (key <> "__proto__" /\ In key (Entry.fields entry))
             \/ key = "_source" \/ key = "_timestamp".
Proof.
  intros Hblank Hparse Hround Hdepth Hkeep Hflat.
  assert (HF : exists members', stored (JObj members) = JObj members').
  { destruct (autoFormat processingOptions); [| eauto].
    rewrite format_object. eauto. }
  destruct HF as [members' HF].
  eexists. eexists. split; [| split].
  - unfold processJsonText. rewrite Hblank.
    unfold correctJsonSyntax. rewrite Hparse.
    cbn [corrected]. unfold parse_held. cbn [printed_of bind].
    rewrite Hparse. cbn [try_catch bind]. reflexivity.
  - unfold mergeEntry. cbn [Entry.formattedJson]. rewrite Hround, HF.
    cbn [pushItems]. unfold toRecord. rewrite Hflat. cbn [bind].
    reflexivity.
  - intros key. cbn [Entry.fields]. rewrite HF.
    rewrite !SchemaFacts.keys_assign. cbn [Rec.keys].
    rewrite (flatten_keys_extract processingOptions JSON_stringify
               (JObj members') Hkeep Hflat "" [] 0%Z key eq_refl)
      by discriminate.
    rewrite Hdepth. simpl. intuition (subst; auto; discriminate).
Qed.

End EndToEnd.

(** * Worked examples *)

Module Examples.

Import Samples.

(** The pipeline makes the sample entries of the sample texts. *)
Lemma process_text1 :
  process defaultOptions text1 "one.json" "e1" "2024-01-01T00:00:00.000Z"
  = Some entry1.
Proof. vm_compute. reflexivity. Qed.

Lemma process_text2 :
  process defaultOptions text2 "two.json" "e2" "2024-01-02T00:00:00.000Z"
  = Some entry2.
Proof. vm_compute. reflexivity. Qed.

Lemma process_scalars :
  process defaultOptions "[1, 2]" "three.json" "e3" "2024-01-02T12:00:00.000Z"
  = Some entry3.
Proof. vm_compute. reflexivity. Qed.

Lemma merge_entries :
  merge defaultOptions ["e1"; "e2"] [entry1; entry2] = Merged merged12 [].
Proof. vm_compute. reflexivity. Qed.

Lemma merge_unflattened :
  merge unflattened ["e1"] [entry1] = Merged merged1_unflattened [].
Proof. vm_compute. reflexivity. Qed.

(** C1: [_source] is a key of the first record and is not in [fields];
    and without flattening [b.c] is in [fields] and not in [schema]. *)
Lemma fields_do_not_cover_records :
  merge defaultOptions ["e1"; "e2"] [entry1; entry2] = Merged merged12 []
  /\ ~ fields_cover_records merged12
  /\ merge unflattened ["e1"] [entry1] = Merged merged1_unflattened []
  /\ ~ schema_covers_fields merged1_unflattened.
Proof.
  split; [exact merge_entries |]. split; [| split; [exact merge_unflattened |]].
  - intros H.
    assert (Hin : In "_source" (Dataset.fields merged12)).
    { eapply H; [left; reflexivity |]. simpl. tauto. }
    simpl in Hin. intuition discriminate.
  - intros H. destruct (H "b.c") as [tag Htag].
    + simpl. tauto.
    + discriminate.
Qed.

(** C2: the fields of the merged dataset are [a] and [b.c]; the two
    metadata keys are not among them. *)
Lemma merged_fields_lack_metadata :
  exists dataset,
    merge defaultOptions ["e1"; "e2"] [entry1; entry2] = Merged dataset []
    /\ Dataset.fields dataset = ["a"; "b.c"]
    /\ ~ In "_source" (Dataset.fields dataset)
    /\ ~ In "_timestamp" (Dataset.fields dataset).
Proof.
  exists merged12. split; [exact merge_entries |].
  split; [reflexivity |]. split; simpl; intuition discriminate.
Qed.

(** C4: with the default options the elements of [[1, 2]] become two
    records under the empty key, and nothing is reported. *)
Lemma scalars_become_records :
  exists dataset,
    merge defaultOptions ["e3"] [entry3] = Merged dataset []
    /\ Dataset.records dataset
       = [PlainRecord
            [("", num 1); ("_source", JStr "three.json");
             ("_timestamp", JStr "2024-01-02T12:00:00.000Z")];
          PlainRecord
            [("", num 2); ("_source", JStr "three.json");
             ("_timestamp", JStr "2024-01-02T12:00:00.000Z")]].
Proof. eexists. split; vm_compute; reflexivity. Qed.

(** C9: the path [a.b] is returned twice for a document with the keys
    [a.b] and [a]; and with the ceiling 3 the path [a.b.c.d], four levels
    down, is returned. *)
Lemma extract_repeats_a_path :
  extractFieldsFromJson defaultOptions doc_dotted "" 0 3 = ["a.b"; "a.b"]
  /\ ~ NoDup (extractFieldsFromJson defaultOptions doc_dotted "" 0 3)
  /\ In "a.b.c.d" (extractFieldsFromJson defaultOptions doc_deep "" 0 3)
  /\ ~ In "a.b.c.d" (paths_within 3 "" doc_deep).
Proof.
  split; [reflexivity |]. split; [| split].
  - intros H. inversion H as [| ? ? Hnot _]. apply Hnot. now left.
  - simpl. tauto.
  - simpl. intuition discriminate.
Qed.

(** C7 at three texts on which no stage gives a JSON text.  The text
    [undefined] is refused by the parser as it is and rewritten, and its
    value has no JSON text: the record holds [undefined] and the note of
    the aggressive repair, not the original text and the parse failure.
    The text that assigns to [jsonStr] before it throws gets the
    assigned text back, not the original one.  The text that loops gets
    no record. *)
Lemma repair_depends_on_the_evaluated_text :
  Reader.JSON_parse MoreSamples.text_undefined
  = Throws "Unexpected token in JSON"
  /\ Reader.JSON_parse (Rewrite.apply_fixes MoreSamples.text_undefined)
     = Throws "Unexpected token in JSON"
  /\ MoreSamples.repair_sample MoreSamples.text_undefined
     = Some
         (Returns {| corrected := Undefined; error := Some aggressiveNote |})
  /\ MoreSamples.repair_sample MoreSamples.text_reassigning
     = Some
         (Returns
            {| corrected := Text "[]";
               error := Some ("Could not fix JSON. Original error: "
                              ++ "Unexpected token in JSON")%string |})
  /\ Text "[]" <> Text MoreSamples.text_reassigning
  /\ MoreSamples.repair_sample MoreSamples.text_looping = None.
Proof. repeat split; try (vm_compute; reflexivity). discriminate. Qed.

(** *** The theorems at sample inputs *)

Lemma valid_text_returned_unchanged_at_text1 :
  exists r,
    correctJsonSyntax Reader.JSON_parse unit refuse_eval refuse_stringify
      text1 = Some (Returns r)
    /\ corrected r = Text text1
    /\ error r = None
    /\ usedAggressiveRepair r = false.
Proof.
  apply (valid_text_returned_unchanged Reader.JSON_parse unit refuse_eval
           refuse_stringify text1 doc1).
  vm_compute. reflexivity.
Defined.

Lemma bob_repaired_with_reader :
  Rewrite.apply_fixes "{name: 'Bob', age: 30,}"
  = JsString.dq "{`name`: `Bob`, `age`: 30}"
  /\ exists r,
       correctJsonSyntax Reader.JSON_parse unit refuse_eval refuse_stringify
         "{name: 'Bob', age: 30,}" = Some (Returns r)
       /\ corrected r = Text (JsString.dq "{`name`: `Bob`, `age`: 30}")
       /\ error r = None
       /\ usedAggressiveRepair r = false.
Proof.
  apply (bob_repaired_by_rewrites Reader.JSON_parse unit refuse_eval
           refuse_stringify "Unexpected token in JSON"
           (JObj [("name", JStr "Bob"); ("age", num 30)]));
    vm_compute; reflexivity.
Defined.

Lemma repair_gives_up_on_brace :
  correctJsonSyntax Reader.JSON_parse unit refuse_eval refuse_stringify "{"
  = Some
      (Returns
         {| corrected := Text "{";
            error := Some ("Could not fix JSON. Original error: "
                           ++ "Unexpected token in JSON")%string |}).
Proof.
  apply (proj1 (proj2 (proj2 (repair_never_throws Reader.JSON_parse unit
                                refuse_eval refuse_stringify "{")))
           "Unexpected token in JSON" "Unexpected token in JSON" (Text "{")).
  - vm_compute. reflexivity.
  - vm_compute. reflexivity.
  - left. exists "Unexpected token". reflexivity.
Defined.

Lemma schema_of_merged12_has_no_unknown :
  "number" <> "unknown"
  /\ Schema.types (Dataset.records merged12) "a" <> []
  /\ exists record,
       In record (Dataset.records merged12) /\ In "a" (Rec.keys record).
Proof.
  apply (schema_has_no_unknown defaultOptions Reader.JSON_parse
           Writer.JSON_stringify ["e1"; "e2"] [entry1; entry2]
           "dataset-1" "2024-01-03T00:00:00.000Z" merged12 [] "a" "number").
  - vm_compute. reflexivity.
  - reflexivity.
  - reflexivity.
Defined.

Lemma fields_and_schema_of_merged12 :
  (forall field,
      In field (Dataset.fields merged12)
      <-> exists entry,
            In entry [entry1; entry2]
            /\ isSelected ["e1"; "e2"] entry = true
            /\ In field (Entry.fields entry))
  /\ (forall record,
        In record (Dataset.records merged12) ->
        In "_source" (Rec.keys record) /\ In "_timestamp" (Rec.keys record))
  /\ (detectSchemas defaultOptions = true ->
      forall record key,
        In record (Dataset.records merged12) ->
        In key (Rec.keys record) ->
        key <> "__proto__" ->
        exists tag, JsObject.get (Dataset.schema merged12) key = Some tag).
Proof.
  apply (dataset_fields_and_schema defaultOptions Reader.JSON_parse
           Writer.JSON_stringify ["e1"; "e2"] [entry1; entry2]
           "dataset-1" "2024-01-03T00:00:00.000Z" merged12 []).
  vm_compute. reflexivity.
Defined.

Lemma merge_of_sample_entries :
  merge defaultOptions ["e1"; "e2"] [entry1; entry2] = Merged merged12 [].
Proof.
  apply (merge_of_two_documents defaultOptions Reader.JSON_parse
           Writer.JSON_stringify eq_refl ltac:(simpl; lia)
           ["e1"; "e2"] entry1 entry2 defaultOptions defaultOptions
           "dataset-1" "2024-01-03T00:00:00.000Z");
    vm_compute; reflexivity.
Defined.

Lemma scalars_skipped_without_flattening :
  (forall records logged,
      mergeEntry unflattened Reader.JSON_parse Writer.JSON_stringify
        (records, logged) entry3
      = (records, logged ++ ["e3"]))
  /\ exists dataset logged,
       mergeSelectedEntries unflattened Reader.JSON_parse
         Writer.JSON_stringify ["e1"; "e3"] ([entry1] ++ entry3 :: [])
         "dataset-1" "2024-01-03T00:00:00.000Z"
       = Merged dataset logged
       /\ In "e3" logged
       /\ Dataset.records dataset
          = fst (fold_left
                   (mergeEntry unflattened Reader.JSON_parse
                      Writer.JSON_stringify)
                   (filter (isSelected ["e1"; "e3"]) ([entry1] ++ []))
                   ([], [])).
Proof.
  apply (scalar_array_entry_is_skipped unflattened Reader.JSON_parse
           Writer.JSON_stringify eq_refl ["e1"; "e3"] [entry1] [] entry3
           [num 1; num 2] "dataset-1" "2024-01-03T00:00:00.000Z").
  - reflexivity.
  - vm_compute. reflexivity.
  - discriminate.
  - repeat constructor.
Defined.

Lemma extract_doc1_without_repetition :
  NoDup (extractFieldsFromJson defaultOptions doc1 "" 0 3).
Proof.
  apply (proj1 (proj2 (extract_paths_and_repetitions defaultOptions doc1 3))).
  reflexivity.
Defined.

End Examples.

(** * More worked examples *)

Module MoreExamples.

Import Samples MoreSamples.

Lemma flatten_doc1_stores_no_object :
  In ("b.c", num 2)
    (flattenObject defaultOptions Writer.JSON_stringify doc1 "" [] 0)
  /\ num 2 <> JObj [].
Proof.
  assert (H : In ("b.c", num 2)
                (flattenObject defaultOptions Writer.JSON_stringify doc1 ""
                   [] 0))
    by (vm_compute; tauto).
  split; [exact H |].
  apply (flatten_stores_no_object defaultOptions Writer.JSON_stringify doc1
           "" [] 0%Z eq_refl (fun key value members H' => match H' with end)
           "b.c" (num 2) [] H).
Defined.

Lemma flattened_keys_of_doc1 :
  In "b.c"
    (JsObject.keys
       (flattenObject defaultOptions Writer.JSON_stringify doc1 "" [] 0))
  <-> "b.c" <> "__proto__"
      /\ In "b.c" (extractFieldsFromJson defaultOptions doc1 "" 0 3).
Proof.
  apply (flattened_keys_are_fields defaultOptions Writer.JSON_stringify doc1
           "b.c").
  - reflexivity.
  - reflexivity.
  - discriminate.
Defined.

Lemma flattened_keys_of_doc1_once :
  Permutation
    (JsObject.keys
       (flattenObject defaultOptions Writer.JSON_stringify doc1 "" [] 0))
    (filter JsObject.nonproto
       (extractFieldsFromJson defaultOptions doc1 "" 0 3)).
Proof.
  apply (flattened_keys_without_collision defaultOptions
           Writer.JSON_stringify doc1).
  - reflexivity.
  - reflexivity.
  - discriminate.
  - reflexivity.
Defined.

Lemma source_of_record1 :
  exists entry,
    In entry [entry1; entry2]
    /\ isSelected ["e1"; "e2"] entry = true
    /\ Rec.get record1 "_source" = Some (JStr (Entry.fileName entry))
    /\ Rec.get record1 "_timestamp" = Some (JStr (Entry.timestamp entry)).
Proof.
  apply (records_carry_their_source defaultOptions Reader.JSON_parse
           Writer.JSON_stringify ["e1"; "e2"] [entry1; entry2]
           "dataset-1" "2024-01-03T00:00:00.000Z" merged12 [] record1).
  - vm_compute. reflexivity.
  - simpl. left. reflexivity.
Defined.

Lemma fields_of_merged12_are_distinct : NoDup (Dataset.fields merged12).
Proof.
  apply (dataset_fields_are_distinct defaultOptions Reader.JSON_parse
           Writer.JSON_stringify ["e1"; "e2"] [entry1; entry2]
           "dataset-1" "2024-01-03T00:00:00.000Z" merged12 []).
  vm_compute. reflexivity.
Defined.

Lemma tag_of_a_is_known :
  In "number"
    ["string"; "number"; "boolean"; "object"; "array"; "null"; "mixed"]
  /\ (flattenNested defaultOptions = true -> "number" <> "object").
Proof.
  apply (schema_tags_are_known defaultOptions Reader.JSON_parse
           Writer.JSON_stringify ["e1"; "e2"] [entry1; entry2]
           "dataset-1" "2024-01-03T00:00:00.000Z" merged12 [] "a" "number").
  - vm_compute. reflexivity.
  - reflexivity.
Defined.

(** The types observed under a key over the records of the sample
    dataset. *)
Local Abbreviation seen key t :=
  (exists record value,
      In record (Dataset.records merged12)
      /\ Rec.get record key = Some value
      /\ type_tag value = t).


Lemma merged12_keeps_every_element :
  Dataset.records merged12
  = flat_map
      (fun entry =>
         match Reader.JSON_parse (Entry.formattedJson entry) with
         | Returns (JArr items) =>
             map
               (fun item =>
                  Rec.assign
                    (Rec.assign
                       (PlainRecord
                          (flattenObject defaultOptions
                             Writer.JSON_stringify item "" [] 0))
                       "_source" (JStr (Entry.fileName entry)))
                    "_timestamp" (JStr (Entry.timestamp entry)))
               items
         | Returns parsedJson =>
             [Rec.assign
                (Rec.assign
                   (PlainRecord
                      (flattenObject defaultOptions Writer.JSON_stringify
                         parsedJson "" [] 0))
                   "_source" (JStr (Entry.fileName entry)))
                "_timestamp" (JStr (Entry.timestamp entry))]
         | Throws _ => []
         end)
      (filter (isSelected ["e1"; "e2"]) [entry1; entry2])
  /\ [] = map Entry.id
            (filter
               (fun entry =>
                  match Reader.JSON_parse (Entry.formattedJson entry) with
                  | Returns _ => false
                  | Throws _ => true
                  end)
               (filter (isSelected ["e1"; "e2"]) [entry1; entry2])).
Proof.
  apply (merge_with_flattening_keeps_every_element defaultOptions
           Reader.JSON_parse Writer.JSON_stringify ["e1"; "e2"]
           [entry1; entry2] "dataset-1" "2024-01-03T00:00:00.000Z"
           merged12 []).
  - reflexivity.
  - vm_compute. reflexivity.
Defined.

Lemma rewrites_leave_a_list : Rewrite.apply_fixes "[1 2]" = "[1 2]".
Proof.
  apply (RewriteFacts.rewrites_leave_inert_text "[1 2]"). reflexivity.
Defined.

(** The apostrophe: the rewrites turn it into a double quote, the text
    they give is refused, and the evaluator is the last resort. *)
Lemma apostrophe_needs_the_evaluator :
  usedAggressiveRepair
    {| corrected := Text (JsString.dq "{`a`:`it's`}");
       error := Some aggressiveNote |} = true
  <-> (exists cause, Reader.JSON_parse text_apostrophe = Throws cause)
      /\ (exists cause,
            Reader.JSON_parse (Rewrite.apply_fixes text_apostrophe)
            = Throws cause)
      /\ exists obj held text held',
           eval_sample ("(" ++ text_apostrophe ++ ")")%string
             (Text text_apostrophe)
           = Ends (Returns obj) held
           /\ stringify_value obj held = Ends (Returns text) held'
           /\ Text (JsString.dq "{`a`:`it's`}") = of_serialised text.
Proof.
  apply (aggressive_repair_is_last_resort Reader.JSON_parse (option Json)
           eval_sample stringify_value text_apostrophe
           {| corrected := Text (JsString.dq "{`a`:`it's`}");
              error := Some aggressiveNote |}).
  vm_compute. reflexivity.
Defined.

Lemma repaired_text1_is_stable :
  exists text parsedJson,
    corrected {| corrected := Text text1; error := None |} = Text text
    /\ Reader.JSON_parse text = Returns parsedJson
    /\ correctJsonSyntax Reader.JSON_parse unit refuse_eval refuse_stringify
         text
       = Some (Returns {| corrected := Text text1; error := None |}).
Proof.
  apply (repaired_text_is_stable Reader.JSON_parse unit refuse_eval
           refuse_stringify text1 {| corrected := Text text1; error := None |}).
  - vm_compute. reflexivity.
  - reflexivity.
Defined.


(** The pipeline with the sample evaluator: the entry of the text with
    the apostrophe, the entry of the text that assigns to [jsonStr], and
    no entry for the text that loops. *)
Lemma process_sample_texts :
  process_sample text_apostrophe "five.json" "e5" "2024-01-05T00:00:00.000Z"
  = Some entry_apostrophe
  /\ process_sample text_reassigning "six.json" "e6"
       "2024-01-06T00:00:00.000Z"
     = Some entry_reassigning
  /\ process_sample text_looping "seven.json" "e7"
       "2024-01-07T00:00:00.000Z"
     = None.
Proof. repeat split; vm_compute; reflexivity. Qed.

Lemma text1_is_processed :
  exists entry,
    process defaultOptions text1 "one.json" "e1" "2024-01-01T00:00:00.000Z"
    = Some entry
    /\ Entry.status entry = StatusProcessed
    /\ Entry.error entry = None
    /\ Entry.correctedJson entry = Text text1
    /\ Entry.fileName entry = "one.json"
    /\ Entry.id entry = "e1".
Proof.
  apply (valid_text_is_processed defaultOptions Reader.JSON_parse
           Writer.JSON_stringify_indented unit refuse_eval refuse_stringify
           text1 "one.json" (Some "e1") "" "2024-01-01T00:00:00.000Z" doc1).
  - reflexivity.
  - vm_compute. reflexivity.
Defined.

Lemma file_name_of_the_rag_export :
  forallb (fun c => negb (JsString.is_space c))
    (list_ascii_of_string (Exporter.filename download_rag))
  = true.
Proof.
  apply (ExportFacts.export_file_name_has_no_space Writer.JSON_stringify
           Writer.JSON_stringify_indented unparse_unavailable merged12
           "rag" download_rag).
  vm_compute. reflexivity.
Defined.

Lemma rag_split_of_record1 :
  (In "_source" (Exporter.contentFields record1)
   <-> ~ In "_source" (Exporter.metadataFields record1))
  /\ (In "_source" (Exporter.contentFields record1)
      <-> Exporter.startsWith_underscore "_source" = false
          /\ exists s,
               Rec.get record1 "_source" = Some (JStr s)
               /\ 100 < String.length s)
  /\ (In "_source" (Exporter.metadataFields record1) ->
      "_source" <> "__proto__" ->
      JsObject.get (Exporter.ragMetadata record1) "_source"
      = Rec.get record1 "_source").
Proof.
  apply (ExportFacts.rag_split_of_a_record record1 "_source").
  simpl. tauto.
Defined.

Lemma rag_metadata_of_record1 :
  exists entry,
    In entry [entry1; entry2]
    /\ isSelected ["e1"; "e2"] entry = true
    /\ JsObject.get (Exporter.ragMetadata record1) "_source"
       = Some (JStr (Entry.fileName entry))
    /\ JsObject.get (Exporter.ragMetadata record1) "_timestamp"
       = Some (JStr (Entry.timestamp entry)).
Proof.
  apply (rag_metadata_names_the_source defaultOptions Reader.JSON_parse
           Writer.JSON_stringify ["e1"; "e2"] [entry1; entry2]
           "dataset-1" "2024-01-03T00:00:00.000Z" merged12 [] record1).
  - vm_compute. reflexivity.
  - simpl. left. reflexivity.
Defined.

Lemma select_all_of_two_entries :
  (forall entry,
      In entry [entry1; entry2] ->
      JsSet.has (toggleAllEntriesSelection [] [entry1; entry2])
        (Entry.id entry)
      = true)
  /\ toggleAllEntriesSelection
       (toggleAllEntriesSelection [] [entry1; entry2]) [entry1; entry2]
     = [].
Proof.
  apply (select_all_twice_clears [] [entry1; entry2]).
  - simpl. repeat constructor; simpl; intuition discriminate.
  - simpl. lia.
Defined.

Lemma select_all_and_remove_two_entries :
  removeSelectedEntries true
    (toggleAllEntriesSelection ["e1"] [entry1; entry2]) [entry1; entry2]
  = ([], []).
Proof.
  apply (select_all_then_remove_empties_the_table ["e1"] [entry1; entry2]).
  simpl. lia.
Defined.

Lemma second_page_of_six :
  (visibleEntries six 2 <> [] <-> (2 <= Z.of_nat (totalPages six))%Z)
  /\ ((2 <= Z.of_nat (totalPages six))%Z ->
      Z.of_nat (length (visibleEntries six 2))
      = (Z.min (startIndex 2 + Z.of_nat rowsPerPage)
           (Z.of_nat (length six))
         - startIndex 2)%Z).
Proof.
  apply (page_shows_the_announced_rows six 2). lia.
Defined.

Lemma buttons_on_the_second_page_of_six :
  (1 <= previousPage 2 <= Z.of_nat (totalPages six))%Z
  /\ (1 <= nextPage six 2 <= Z.of_nat (totalPages six))%Z
  /\ visibleEntries six (previousPage 2) <> []
  /\ visibleEntries six (nextPage six 2) <> [].
Proof.
  apply (page_buttons_stay_in_range six 2). vm_compute.
  split; discriminate.
Defined.

Lemma formatting_keeps_the_fields_of_doc1 :
  In "b.c"
    (extractFieldsFromJson defaultOptions
       (formatJsonStructure defaultOptions doc1) "" 0 3)
  <-> In "b.c" (extractFieldsFromJson defaultOptions doc1 "" 0 3).
Proof.
  apply (proj2 (formatting_keeps_the_fields defaultOptions doc1 "" 0%Z 3%Z
                  "b.c")).
  reflexivity.
Defined.

Lemma fields_of_text1_are_the_columns :
  exists entry record,
    process defaultOptions text1 "one.json" "e1" "2024-01-01T00:00:00.000Z"
    = Some entry
    /\ mergeEntry defaultOptions Reader.JSON_parse Writer.JSON_stringify
         ([], []) entry
       = ([record], [])
    /\ forall key,
         In key (Rec.keys record)
         <-> (key <> "__proto__" /\ In key (Entry.fields entry))
             \/ key = "_source" \/ key = "_timestamp".
Proof.
  apply (fields_are_the_columns_at_depth_3 defaultOptions Reader.JSON_parse
           Writer.JSON_stringify Writer.JSON_stringify_indented unit
           refuse_eval refuse_stringify text1 "one.json" (Some "e1") ""
           "2024-01-01T00:00:00.000Z"
           [("a", num 1); ("b", JObj [("c", num 2)])]).
  - reflexivity.
  - vm_compute. reflexivity.
  - vm_compute. reflexivity.
  - reflexivity.
  - reflexivity.
  - reflexivity.
Defined.

End MoreExamples.
